(** * A line-based chat relay: server state machine, framing and client start-up

    Shallow embedding of [server.c] and [client.c].  Byte strings
    ([std::string]) are lists of [ascii]; the connection vector
    ([std::vector<Client>]) is a list indexed with stdpp's lookup and insert;
    every system call and console write is an entry of a chronological
    trace, and the results of the calls come from oracles that see the trace
    so far. *)

From Stdlib Require Import Strings.String Strings.Ascii ZArith NArith Lia.
From stdpp Require Import base list.

Open Scope Z_scope.

(* ===================================================================== *)
(** ** Byte strings *)
(* ===================================================================== *)

Module Bytes.

Definition bytes := list ascii.

(** A C++ string literal without escapes. *)
Definition lit (s : string) : bytes := list_ascii_of_string s.

Definition LF : ascii := "010"%char.
Definition CR : ascii := "013"%char.

(** A literal followed by ['\n']. *)
Definition lit_nl (s : string) : bytes := lit s ++ [LF].

(** [s.find(ch)]: position of the first occurrence, [None] for [npos]. *)
Fixpoint find_char (ch : ascii) (s : bytes) : option nat :=
  match s with
  | [] => None
  | c :: s' => if Ascii.eqb c ch then Some 0%nat else S <$> find_char ch s'
  end.

(** [s.substr(pos, n)] for [pos <= s.size()]. *)
Definition substr (s : bytes) (pos n : nat) : bytes := take n (drop pos s).

(** [s.substr(pos)] for [pos <= s.size()]. *)
Definition substr_from (s : bytes) (pos : nat) : bytes := drop pos s.

(** [s.erase(0, n)]. *)
Definition erase_front (s : bytes) (n : nat) : bytes := drop n s.

(** Is [p] a prefix of [s]? *)
Fixpoint starts_with (p s : bytes) : bool :=
  match p, s with
  | [], _ => true
  | _ :: _, [] => false
  | a :: p', c :: s' => Ascii.eqb a c && starts_with p' s'
  end.

(** [s.rfind(p, 0)]: the search may only start at position 0, so the
    result is 0 when [p] is a prefix of [s] and [npos] otherwise. *)
Definition rfind_at0 (p s : bytes) : option nat :=
  if starts_with p s then Some 0%nat else None.

(** [s.find(p)]: position of the first occurrence of [p], [None] for
    [npos]. *)
Fixpoint find_str (p s : bytes) : option nat :=
  if starts_with p s then Some 0%nat
  else match s with
       | [] => None
       | _ :: s' => S <$> find_str p s'
       end.

Definition is_eol (c : ascii) : bool := Ascii.eqb c LF || Ascii.eqb c CR.

(** The loop of [chomp] seen from the back of the string. *)
Fixpoint pop_eols (r : bytes) : bytes :=
  match r with
  | [] => []
  | c :: r' => if is_eol c then pop_eols r' else r
  end.

(** [chomp(s)]: pop the last byte while it is ['\n'] or ['\r']. *)
Definition chomp (s : bytes) : bytes := rev (pop_eols (rev s)).

End Bytes.
Import Bytes.

(* ===================================================================== *)
(** ** The fragment of [std::regex] used by the nickname pattern *)
(* ===================================================================== *)

Module Regex.

(** Members of a bracket expression. *)
Inductive class_item :=
| Range (lo hi : ascii)
| Single (c : ascii).

(** Pattern nodes: the anchors and a bounded repetition of a bracket
    expression, [[...]{lo,hi}]. *)
Inductive node :=
| Bol
| Eol
| ClassRep (cls : list class_item) (lo hi : nat).

Definition regex := list node.

Definition item_matches (it : class_item) (c : ascii) : bool :=
  match it with
  | Range lo hi =>
      (N_of_ascii lo <=? N_of_ascii c)%N && (N_of_ascii c <=? N_of_ascii hi)%N
  | Single d => Ascii.eqb c d
  end.

Definition in_class (cls : list class_item) (c : ascii) : bool :=
  existsb (fun it => item_matches it c) cls.

(** Greedy bounded repetition with backtracking; [k] is the rest of the
    pattern, given the position reached and the unread input. *)
Fixpoint match_rep (cls : list class_item) (k : nat -> bytes -> bool)
    (lo hi pos : nat) (s : bytes) : bool :=
  match hi with
  | O => Nat.eqb lo 0 && k pos s
  | S hi' =>
      match s with
      | c :: s' =>
          (in_class cls c && match_rep cls k (Nat.pred lo) hi' (S pos) s')
          || (Nat.eqb lo 0 && k pos s)
      | [] => Nat.eqb lo 0 && k pos s
      end
  end.

Fixpoint match_nodes (re : regex) (pos : nat) (s : bytes) : bool :=
  match re with
  | [] => match s with [] => true | _ => false end
  | Bol :: re' => Nat.eqb pos 0 && match_nodes re' pos s
  | Eol :: re' => match s with [] => match_nodes re' pos s | _ => false end
  | ClassRep cls lo hi :: re' => match_rep cls (match_nodes re') lo hi pos s
  end.

(** [std::regex_match(s, re)]: the whole of [s] must match. *)
Definition regex_match (s : bytes) (re : regex) : bool := match_nodes re 0 s.

(** ["^[A-Za-z0-9_]{1,12}$"] *)
Definition nick_re : regex :=
  [ Bol;
    ClassRep [Range "A" "Z"; Range "a" "z"; Range "0" "9"; Single "_"] 1 12;
    Eol ].

End Regex.

(* ===================================================================== *)
(** ** Traces *)
(* ===================================================================== *)

(** What either program does to the outside world, in the order it does
    it.  Calls carry their arguments and the value they returned. *)
Inductive event :=
| EvSelect (rc : Z)
| EvAccept (cfd : Z)
| EvConnect (host port : bytes) (sock : Z)
| EvRecv (fd : Z) (n : Z) (buf : bytes)
| EvSend (fd : Z) (payload : bytes) (n : Z)
| EvClose (fd : Z)
| EvGetline (line : option bytes)
| EvStdout (text : bytes)
| EvStderr (text : bytes).

Definition trace := list event.

(** The writes issued on sockets: stream handle and exact bytes. *)
Definition sends_of (tr : trace) : list (Z * bytes) :=
  omap (fun e => match e with EvSend fd p _ => Some (fd, p) | _ => None end) tr.

(** The writes that the transport accepted. *)
Definition delivered_of (tr : trace) : list (Z * bytes) :=
  omap (fun e => match e with
                 | EvSend fd p n => if n <? 0 then None else Some (fd, p)
                 | _ => None
                 end) tr.

(** The stream handles closed so far. *)
Definition closed_of (tr : trace) : list Z :=
  omap (fun e => match e with EvClose fd => Some fd | _ => None end) tr.

(** What [select] hands back: its return value, whether [errno] is
    [EINTR], and the read set it leaves behind. *)
Record select_result := mkSelect {
  sel_rc : Z;
  sel_eintr : bool;
  sel_ready : Z -> bool
}.

(** [(int)x] for a [size_t] value: reduction to 32 bits, two's complement. *)
Definition int_of_size_t (x : nat) : Z :=
  let r := Z.of_nat x mod 2 ^ 32 in
  if r <? 2 ^ 31 then r else r - 2 ^ 32.

(* ===================================================================== *)
(** ** server.c *)
(* ===================================================================== *)

Module Server.

(** [class Client].  Its method [clear] is never called and is left
    out. *)
Record Client := mkClient {
  fd : Z;
  nick : bytes;
  inbuf : bytes;
  registered : bool
}.

(** [Client(int f)]: [registered(false)], empty strings. *)
Definition new_client (f : Z) : Client := mkClient f [] [] false.

Definition set_fd (c : Client) (f : Z) : Client :=
  mkClient f (nick c) (inbuf c) (registered c).

Definition set_inbuf (c : Client) (b : bytes) : Client :=
  mkClient (fd c) (nick c) b (registered c).

(** [client.nick = nick; client.registered = true;] *)
Definition register_as (c : Client) (name : bytes) : Client :=
  mkClient (fd c) name (inbuf c) true.

(** [is_valid_nick]. *)
Definition is_valid_nick (s : bytes) : bool :=
  Regex.regex_match s Regex.nick_re.

(** The connection vector of [main] together with the trace so far.  A
    [Client&] into the vector is an index into [clients]. *)
Record State := mkState {
  clients : list Client;
  log : trace
}.

Definition emit (st : State) (evs : list event) : State :=
  mkState (clients st) (log st ++ evs).

Section WithNet.

(** The outside world: each call's result may depend on everything that
    happened before it.  [net_send], [net_recv], [net_accept] and
    [net_select] give what [send], [recv], [accept] and [select] return;
    [sig_running] is the value of the flag [running] when the loop reads
    it. *)
Variable net_send : trace -> Z -> bytes -> Z.
Variable net_recv : trace -> Z -> Z * bytes.
Variable net_accept : trace -> Z.
Variable net_select : trace -> select_result.
Variable sig_running : trace -> bool.

(** [send_response]: on a negative result, [perror] (whose text ends with
    the system's message for [errno], left out here) and [close].  Any
    other result counts as a write that went through, as in the source. *)
Definition send_response (clientFd : Z) (message : bytes) (tr : trace) : trace :=
  let n := net_send tr clientFd message in
  let tr1 := tr ++ [EvSend clientFd message n] in
  if n <? 0 then tr1 ++ [EvStderr (lit "send failed"); EvClose clientFd]
  else tr1.

(** The [for (auto &dst : clients)] loop of [process_client_data]. *)
Definition broadcast (sender_fd : Z) (full_message : bytes)
    (dsts : list Client) (tr : trace) : trace :=
  foldl (fun tr dst =>
           if (0 <=? fd dst) && negb (fd dst =? sender_fd)
           then send_response (fd dst) full_message tr
           else tr)
        tr dsts.

(** The body of the [while] loop of [process_client_data] after
    [chomp(line)], for the client at index [i]. *)
Definition handle_line (i : nat) (line : bytes) (st : State) : State :=
  match clients st !! i with
  | None => st
  | Some client =>
      if negb (registered client) then
        match rfind_at0 (lit "NICK ") line with
        | Some _ =>
            let name := substr_from line 5 in
            if is_valid_nick name then
              let st1 := mkState (<[i := register_as client name]> (clients st)) (log st) in
              let tr := send_response (fd client) (lit_nl "OK") (log st1) in
              mkState (clients st1)
                (tr ++ [EvStdout (lit "Client registered with nickname: " ++ name ++ [LF])])
            else
              mkState (clients st)
                (send_response (fd client) (lit_nl "ERROR: Invalid nickname format") (log st))
        | None =>
            mkState (clients st)
              (send_response (fd client) (lit_nl "ERROR: NICK command expected") (log st))
        end
      else
        match rfind_at0 (lit "MSG ") line with
        | Some _ =>
            let message := chomp (substr_from line 4) in
            if (255 <? length message)%nat then
              mkState (clients st)
                (send_response (fd client) (lit_nl "ERROR: Message too long") (log st))
            else
              let full_message := lit "MSG " ++ nick client ++ lit " " ++ message ++ [LF] in
              mkState (clients st)
                (broadcast (fd client) full_message (clients st) (log st))
        | None =>
            mkState (clients st)
              (send_response (fd client) (lit_nl "ERROR: Unsupported command") (log st))
        end
  end.

(** Head of the [while] loop: [find('\n')], [substr(0, pos)],
    [erase(0, pos + 1)], [chomp(line)].  Gives the framed line and what is
    left in the accumulator, or [None] when the loop ends. *)
Definition next_line (buf : bytes) : option (bytes * bytes) :=
  match find_char LF buf with
  | None => None
  | Some pos => Some (chomp (substr buf 0 pos), erase_front buf (pos + 1))
  end.

(** [process_client_data(client, clients)], [client] being [clients[i]]. *)
Fixpoint process_loop (fuel : nat) (i : nat) (st : State) : State :=
  match fuel with
  | O => st
  | S fuel' =>
      match clients st !! i with
      | None => st
      | Some client =>
          match next_line (inbuf client) with
          | None => st
          | Some (line, rest) =>
              let st1 := mkState (<[i := set_inbuf client rest]> (clients st)) (log st) in
              process_loop fuel' i (handle_line i line st1)
          end
      end
  end.

(** Every turn of the loop erases at least one byte of the accumulator, so
    its length bounds the number of turns. *)
Definition process_client_data (i : nat) (st : State) : State :=
  match clients st !! i with
  | None => st
  | Some client => process_loop (length (inbuf client)) i st
  end.

(** [recv_into(clients[i])]: at most 1024 bytes are asked for; the first
    [n] bytes of the buffer are appended when [n > 0]. *)
Definition recv_into (i : nat) (st : State) : Z * State :=
  match clients st !! i with
  | None => (-1, st)
  | Some c =>
      let '(n, buf) := net_recv (log st) (fd c) in
      let tr := log st ++ [EvRecv (fd c) n buf] in
      if 0 <? n then
        (n, mkState (<[i := set_inbuf c (inbuf c ++ take (Z.to_nat n) buf)]> (clients st)) tr)
      else (n, mkState (clients st) tr)
  end.

(** [close(client.fd); client.fd = -1; to_remove.push_back(i);] after the
    console message [msg]. *)
Definition drop_client (i : nat) (msg : event) (st : State) (to_remove : list Z)
    : State * list Z :=
  match clients st !! i with
  | None => (st, to_remove)
  | Some client =>
      (mkState (<[i := set_fd client (-1)]> (clients st))
               (log st ++ [msg; EvClose (fd client)]),
       to_remove ++ [int_of_size_t i])
  end.

(** One turn of the [for (size_t i = 0; ...)] loop of [main]. *)
Definition pass_body (ready : Z -> bool) (i : nat) (st : State) (to_remove : list Z)
    : State * list Z :=
  match clients st !! i with
  | None => (st, to_remove)
  | Some client =>
      if fd client <? 0 then (st, to_remove)
      else if negb (ready (fd client)) then (st, to_remove)
      else
        let '(n, st1) := recv_into i st in
        if n =? 0 then
          drop_client i
            (EvStdout (lit "Client " ++ nick client ++ lit " has disconnected." ++ [LF]))
            st1 to_remove
        else if n <? 0 then
          drop_client i
            (EvStderr (lit "Error reading from client " ++ nick client
                         ++ lit ". Closing connection." ++ [LF]))
            st1 to_remove
        else (process_client_data i st1, to_remove)
  end.

(** The [for] loop itself; the bound [i < clients.size()] is read again on
    every turn. *)
Fixpoint pass_loop (fuel : nat) (ready : Z -> bool) (i : nat)
    (st : State) (to_remove : list Z) : State * list Z :=
  match fuel with
  | O => (st, to_remove)
  | S fuel' =>
      if (i <? length (clients st))%nat then
        let '(st', to_remove') := pass_body ready i st to_remove in
        pass_loop fuel' ready (S i) st' to_remove'
      else (st, to_remove)
  end.

Definition readiness_pass (ready : Z -> bool) (st : State) : State * list Z :=
  pass_loop (length (clients st)) ready 0 st [].

(** [std::sort(..., std::greater<int>())]: by insertion; the outcome of a
    sort of integers does not depend on the algorithm. *)
Fixpoint insert_desc (x : Z) (l : list Z) : list Z :=
  match l with
  | [] => [x]
  | y :: l' => if y <? x then x :: l else y :: insert_desc x l'
  end.

Definition sort_desc (l : list Z) : list Z := foldr insert_desc [] l.

(** One turn of [for (int idx : to_remove)]. *)
Definition cleanup_step (st : State) (idx : Z) : State :=
  if (0 <=? idx) && (idx <? int_of_size_t (length (clients st))) then
    match clients st !! Z.to_nat idx with
    | None => st
    | Some c =>
        mkState (delete (Z.to_nat idx) (clients st))
                (if 0 <=? fd c then log st ++ [EvClose (fd c)] else log st)
    end
  else st.

(** The clean-up after the pass. *)
Definition cleanup (to_remove : list Z) (st : State) : State :=
  match to_remove with
  | [] => st
  | _ => foldl cleanup_step st (sort_desc to_remove)
  end.

(** The [// new connection] block. *)
Definition accept_step (listenfd : Z) (ready : Z -> bool) (st : State) : State :=
  if ready listenfd then
    let cfd := net_accept (log st) in
    let tr := log st ++ [EvAccept cfd] in
    if 0 <=? cfd then
      let g := lit_nl "HELLO 1.0" in
      mkState (clients st ++ [new_client cfd])
              (tr ++ [EvSend cfd g (net_send tr cfd g)])
    else mkState (clients st) tr
  else st.

(** One turn of [while (running)], from [select] on; filling [readfds]
    before the call changes nothing the program can see later.  The flag
    says whether the loop goes on ([false] for [break]). *)
Definition iteration (listenfd : Z) (st : State) : State * bool :=
  let sel := net_select (log st) in
  let st0 := emit st [EvSelect (sel_rc sel)] in
  if sel_rc sel <? 0 then
    if sel_eintr sel then (st0, true)
    else (emit st0 [EvStderr (lit "select")], false)
  else
    let st1 := accept_step listenfd (sel_ready sel) st0 in
    let '(st2, to_remove) := readiness_pass (sel_ready sel) st1 in
    (cleanup to_remove st2, true).

(** [// cleanup all] and the end of [main]. *)
Definition shutdown (listenfd : Z) (st : State) : State :=
  let tr := foldl (fun tr c => if 0 <=? fd c then tr ++ [EvClose (fd c)] else tr)
                  (log st) (clients st) in
  mkState (clients st)
    ((if 0 <=? listenfd then tr ++ [EvClose listenfd] else tr)
       ++ [EvStdout (lit_nl "Server shutting down")]).

(** At most [turns] turns of [while (running)], then, if the loop was left,
    the shutdown; the flag tells whether [main] has returned. *)
Fixpoint serve (turns : nat) (listenfd : Z) (st : State) : State * bool :=
  match turns with
  | O => (st, false)
  | S turns' =>
      if sig_running (log st) then
        let '(st', go_on) := iteration listenfd st in
        if go_on then serve turns' listenfd st'
        else (shutdown listenfd st', true)
      else (shutdown listenfd st, true)
  end.

End WithNet.

(** [std::vector<Client> clients;] before the loop. *)
Definition initial : State := mkState [] [].

End Server.

(* ===================================================================== *)
(** ** client.c *)
(* ===================================================================== *)

Module NetworkClient.

(** How far a run has come: still inside a loop when the observation
    stops, returned, or left by [throw runtime_error(what)]. *)
Inductive outcome :=
| Running
| Returned
| Threw (what : bytes).

Definition STDIN_FILENO : Z := 0.

(** [NetworkClient::isNicknameValid], with what it writes to [cerr]. *)
Definition isNicknameValid (nickname : bytes) : bool * trace :=
  if (12 <? length nickname)%nat then
    (false, [EvStderr (lit_nl "ERROR: Nickname must be 12 characters or less.")])
  else (Regex.regex_match nickname Regex.nick_re, []).

(** [NetworkClient::splitHostPort]. *)
Definition splitHostPort (address : bytes) : option (bytes * bytes) * trace :=
  match find_char ":"%char address with
  | None => (None, [EvStderr (lit_nl "ERROR: Missing port in host:port format.")])
  | Some colonPos =>
      let host := substr address 0 colonPos in
      let port := substr_from address (colonPos + 1) in
      match host, port with
      | _ :: _, _ :: _ => (Some (host, port), [])
      | _, _ => (None, [EvStderr (lit_nl "ERROR: Invalid host or port.")])
      end
  end.

(** What the calls of one turn of the loop of [createSocketConnection]
    return: [socket] and, on a socket that was opened, [connect]. *)
Record connect_attempt := mkTry {
  try_socket : Z;
  try_connect : Z
}.

(** The [for (ptr = res; ptr; ...)] loop of [createSocketConnection];
    [socketFD] is the variable of that name. *)
Fixpoint connect_loop (addresses : list connect_attempt) (socketFD : Z) (tr : trace)
    : Z * trace :=
  match addresses with
  | [] => (socketFD, tr)
  | a :: rest =>
      if try_socket a <? 0 then connect_loop rest (try_socket a) tr
      else if try_connect a =? 0 then (try_socket a, tr)
      else connect_loop rest (-1) (tr ++ [EvClose (try_socket a)])
  end.

Section WithNet.

(** [net_connect] stands for [getaddrinfo]: [None] when the host does not
    resolve, else, for each address of the result in order, what [socket]
    and [connect] return on it.  [clock] is the whole seconds elapsed since
    [start]. *)
Variable net_connect : trace -> bytes -> bytes -> option (list connect_attempt).
Variable net_select : trace -> select_result.
Variable net_recv : trace -> Z -> Z * bytes.
Variable net_send : trace -> Z -> bytes -> Z.
Variable stdin_getline : trace -> option bytes.
Variable clock : trace -> Z.

(** [NetworkClient::createSocketConnection].  [EvConnect] records the
    descriptor the function returns; the sockets closed on the way are in
    the trace before it. *)
Definition createSocketConnection (host port : bytes) (tr : trace) : Z * trace :=
  match net_connect tr host port with
  | None => (-1, tr ++ [EvConnect host port (-1);
                        EvStderr (lit_nl "ERROR: Could not resolve host")])
  | Some addresses =>
      let '(sock, tr1) := connect_loop addresses (-1) tr in
      (sock, tr1 ++ [EvConnect host port sock])
  end.

(** [NetworkClient::gracefulShutdown]. *)
Definition gracefulShutdown (sock : Z) (tr : trace) : trace :=
  if sock =? -1 then tr else tr ++ [EvClose sock].

(** [NetworkClient::handleError]: always throws. *)
Definition handleError (sock : Z) (errorMsg : bytes) (tr : trace) : trace * outcome :=
  (gracefulShutdown sock (tr ++ [EvStderr (errorMsg ++ [LF])]), Threw errorMsg).

(** A [send] whose failure goes to [handleError]; [None] when it went
    through. *)
Definition send_or_fail (sock : Z) (payload errorMsg : bytes) (tr : trace)
    : trace * option outcome :=
  let n := net_send tr sock payload in
  let tr1 := tr ++ [EvSend sock payload n] in
  if n <? 0 then
    let '(tr2, o) := handleError sock errorMsg tr1 in (tr2, Some o)
  else (tr1, None).

(** [NetworkClient::sendNicknameToServer]. *)
Definition sendNicknameToServer (sock : Z) (userNickname : bytes) (tr : trace)
    : trace * option outcome :=
  send_or_fail sock (lit "NICK " ++ userNickname ++ [LF])
    (lit "Failed to send nickname to server.") tr.

(** [NetworkClient::sendMessage]. *)
Definition sendMessage (sock : Z) (message : bytes) (tr : trace)
    : trace * option outcome :=
  send_or_fail sock (lit "MSG " ++ message ++ [LF]) (lit "Failed to send message.") tr.

(** The inner [while] of [receiveServerMessages]: print every complete
    line of the buffer, lines that start with ["MSG "] without that
    prefix. *)
Fixpoint print_lines (fuel : nat) (messageBuffer : bytes) (tr : trace) : bytes * trace :=
  match fuel with
  | O => (messageBuffer, tr)
  | S fuel' =>
      match find_char LF messageBuffer with
      | None => (messageBuffer, tr)
      | Some newlinePos =>
          let line := substr messageBuffer 0 (newlinePos + 1) in
          let rest := erase_front messageBuffer (newlinePos + 1) in
          let shown :=
            match find_str (lit "MSG ") line with
            | Some O => substr_from line 4
            | _ => line
            end in
          print_lines fuel' rest (tr ++ [EvStdout shown])
      end
  end.

(** [NetworkClient::receiveServerMessages], at most [fuel] turns of its
    [while (true)]. *)
Fixpoint receiveServerMessages (fuel : nat) (sock : Z) (messageBuffer : bytes)
    (tr : trace) : trace * outcome :=
  match fuel with
  | O => (tr, Running)
  | S fuel' =>
      let sel := net_select tr in
      let tr1 := tr ++ [EvSelect (sel_rc sel)] in
      if (sel_rc sel <? 0) && sel_eintr sel then
        receiveServerMessages fuel' sock messageBuffer tr1
      else if sel_rc sel <? 0 then
        handleError sock (lit "select failed during receiving server messages.") tr1
      else
        let from_stdin (messageBuffer : bytes) (tr : trace) : trace * outcome :=
          if sel_ready sel STDIN_FILENO then
            let l := stdin_getline tr in
            let tr := tr ++ [EvGetline l] in
            match l with
            | None => (tr, Returned)
            | Some userMessage =>
                if (255 <? length userMessage)%nat then
                  receiveServerMessages fuel' sock messageBuffer
                    (tr ++ [EvStderr (lit_nl "ERROR: Message too long. Max 255 characters.")])
                else
                  match sendMessage sock userMessage tr with
                  | (tr, Some o) => (tr, o)
                  | (tr, None) => receiveServerMessages fuel' sock messageBuffer tr
                  end
            end
          else receiveServerMessages fuel' sock messageBuffer tr in
        if sel_ready sel sock then
          let '(n, buf) := net_recv tr1 sock in
          let tr2 := tr1 ++ [EvRecv sock n buf] in
          if n <? 0 then handleError sock (lit "Failed to receive data from server.") tr2
          else if n =? 0 then (tr2 ++ [EvStdout (lit_nl "Connection closed by server.")], Returned)
          else
            let messageBuffer := messageBuffer ++ take (Z.to_nat n) buf in
            let '(messageBuffer, tr3) :=
              print_lines (length messageBuffer) messageBuffer tr2 in
            from_stdin messageBuffer tr3
        else from_stdin messageBuffer tr1
  end.

(** The greeting loop of [startCommunication]: [Some true] when a
    greeting was seen, [Some false] when the loop was left without one,
    [None] when the observation stops inside the loop. *)
Fixpoint await_greeting (fuel : nat) (sock : Z) (greetingBuffer : bytes) (tr : trace)
    : option bool * trace :=
  match fuel with
  | O => (None, tr)
  | S fuel' =>
      let sel := net_select tr in
      let tr1 := tr ++ [EvSelect (sel_rc sel)] in
      let check_time (greetingBuffer : bytes) (tr : trace) : option bool * trace :=
        if 5 <? clock tr then (Some false, tr)
        else await_greeting fuel' sock greetingBuffer tr in
      if (0 <? sel_rc sel) && sel_ready sel sock then
        let '(n, buf) := net_recv tr1 sock in
        let tr2 := tr1 ++ [EvRecv sock n buf] in
        if n <=? 0 then (Some false, tr2)
        else
          let greetingBuffer := greetingBuffer ++ take (Z.to_nat n) buf in
          match find_str (lit "HELLO 1") greetingBuffer,
                find_str (lit "HELLO 1.0") greetingBuffer with
          | None, None => check_time greetingBuffer tr2
          | _, _ => (Some true, tr2)
          end
      else check_time greetingBuffer tr1
  end.

(** [NetworkClient::startCommunication]; gives back the descriptor it
    stored in [socketDescriptor]. *)
Definition startCommunication (fuel : nat) (serverHost serverPort userNickname : bytes)
    (tr : trace) : Z * (trace * outcome) :=
  let '(sock, tr1) := createSocketConnection serverHost serverPort tr in
  if sock <? 0 then
    (sock, (tr1 ++ [EvStderr (lit_nl "ERROR: Failed to connect to server.")], Returned))
  else
    let tr2 := tr1 ++ [EvStdout (lit "Connected to server at " ++ serverHost
                                   ++ lit ":" ++ serverPort ++ [LF])] in
    match await_greeting fuel sock [] tr2 with
    | (None, tr3) => (sock, (tr3, Running))
    | (Some false, tr3) => (sock, handleError sock (lit "No HELLO received from server.") tr3)
    | (Some true, tr3) =>
        match sendNicknameToServer sock userNickname tr3 with
        | (tr4, Some o) => (sock, (tr4, o))
        | (tr4, None) =>
            let tr5 := tr4 ++ [EvStdout (lit_nl "Nickname sent successfully. Handshake complete.")] in
            (sock, receiveServerMessages fuel sock [] tr5)
        end
    end.

(** [main]: the trace and the exit status, [None] while still running.
    Leaving the [try] block runs [~NetworkClient], which closes the stored
    descriptor unless it is [-1]. *)
Definition main (fuel : nat) (argv : list bytes) : trace * option Z :=
  match argv with
  | [_; serverAddress; nickname] =>
      match splitHostPort serverAddress with
      | (None, tr) =>
          (tr ++ [EvStderr (lit_nl "Invalid host:port format.")], Some 1)
      | (Some (host, port), tr) =>
          match startCommunication fuel host port nickname tr with
          | (sock, (tr1, Running)) => (tr1, None)
          | (sock, (tr1, Returned)) => (gracefulShutdown sock tr1, Some 0)
          | (sock, (tr1, Threw what)) =>
              (gracefulShutdown sock tr1 ++ [EvStderr (what ++ [LF])], Some 1)
          end
      end
  | _ =>
      ([EvStderr (lit "Usage: " ++ hd [] argv ++ lit_nl " <host:port> <nickname>")], Some 1)
  end.

End WithNet.

End NetworkClient.

(* ===================================================================== *)
(** ** server.c: start-up *)
(* ===================================================================== *)

Module ServerMain.

(** [s.rfind(ch)]: position of the last occurrence, [None] for [npos]. *)
Fixpoint rfind_char (ch : ascii) (s : bytes) : option nat :=
  match s with
  | [] => None
  | c :: s' =>
      match rfind_char ch s' with
      | Some pos => Some (S pos)
      | None => if Ascii.eqb c ch then Some 0%nat else None
      end
  end.

(** [split_hostport]: the two output strings when it returns [true],
    [None] when it returns [false]. *)
Definition split_hostport (src : bytes) : option (bytes * bytes) :=
  match rfind_char ":"%char src with
  | None => None
  | Some pos =>
      let host := substr src 0 pos in
      let port := substr_from src (pos + 1) in
      match host, port with
      | _ :: _, _ :: _ => Some (host, port)
      | _, _ => None
      end
  end.

(** What the calls of one turn of the loop of [create_and_bind] return:
    [socket] ([lfd]), [bind], and [listen] (made only after a [bind] that
    returned 0). *)
Record bind_attempt := mkAttempt {
  att_socket : Z;
  att_bind : Z;
  att_listen : Z
}.

(** The [for (auto a = res; ...)] loop of [create_and_bind]; [lfd] is the
    variable of that name.  What [setsockopt] returns is not looked at. *)
Fixpoint bind_loop (addresses : list bind_attempt) (lfd : Z) (tr : trace) : Z * trace :=
  match addresses with
  | [] => (lfd, tr)
  | a :: rest =>
      if att_socket a <? 0 then bind_loop rest (att_socket a) tr
      else if (att_bind a =? 0) && (att_listen a =? 0) then (att_socket a, tr)
      else bind_loop rest (-1) (tr ++ [EvClose (att_socket a)])
  end.

Section WithNet.

(** [net_bind] stands for [getaddrinfo]: the text of [gai_strerror] when
    it fails, else, for each address of the result in order, what
    [socket], [bind] and [listen] return on it. *)
Variable net_bind : bytes -> bytes -> bytes + list bind_attempt.
Variable net_send : trace -> Z -> bytes -> Z.
Variable net_recv : trace -> Z -> Z * bytes.
Variable net_accept : trace -> Z.
Variable net_select : trace -> select_result.
Variable sig_running : trace -> bool.

(** [create_and_bind]. *)
Definition create_and_bind (host port : bytes) : Z * trace :=
  match net_bind host port with
  | inl gai_text => (-1, [EvStderr (lit "getaddrinfo: " ++ gai_text ++ [LF])])
  | inr addresses => bind_loop addresses (-1) []
  end.

(** [main]: the trace and the exit status, [None] while the loop is still
    running after [turns] turns. *)
Definition main (turns : nat) (argv : list bytes) : trace * option Z :=
  match argv with
  | [_; arg] =>
      match split_hostport arg with
      | None => ([EvStderr (lit_nl "Bad bind address")], Some 1)
      | Some (host, port) =>
          let '(listenfd, tr) := create_and_bind host port in
          if listenfd <? 0 then (tr ++ [EvStderr (lit_nl "Failed to bind")], Some 1)
          else
            let st0 :=
              Server.mkState []
                (tr ++ [EvStdout (lit "[x] Listening on " ++ host ++ lit ":" ++ port ++ [LF])]) in
            let '(st, finished) :=
              Server.serve net_send net_recv net_accept net_select sig_running
                turns listenfd st0 in
            (Server.log st, if finished then Some 0 else None)
      end
  | _ => ([EvStderr (lit "Usage: " ++ hd [] argv ++ lit_nl " <bindaddr:port>")], Some 1)
  end.

End WithNet.

End ServerMain.

(* ===================================================================== *)
(** ** Vocabulary of the specification *)
(* ===================================================================== *)

(** The characters allowed in a nickname, written out. *)
Definition nick_alphabet : bytes :=
  lit "ABCDEFGHIJKLMNOPQRSTUVWXYZabcdefghijklmnopqrstuvwxyz0123456789_".

(** A string of 1 to 12 characters, all of them letters, digits or
    underscores. *)
Definition matches_nick_pattern (s : bytes) : Prop :=
  (1 <= length s <= 12)%nat /\ Forall (fun c => In c nick_alphabet) s.

(** A Line of the protocol: no trailing ['\n'] or ['\r'] is left to strip. *)
Definition is_line (l : bytes) : Prop := chomp l = l.

(** The connections a broadcast from [sender] is written to by the code:
    those whose handle is open and is not the sender's. *)
Definition recipients (sender : Server.Client) (cs : list Server.Client)
    : list Server.Client :=
  filter (fun d => 0 <= Server.fd d /\ Server.fd d <> Server.fd sender) cs.

(** The broadcast envelope [MSG <nick> <text>\n]. *)
Definition envelope (sender : Server.Client) (text : bytes) : bytes :=
  lit "MSG " ++ Server.nick sender ++ lit " " ++ text ++ [LF].

(** Sample data for the worked cases: two registered connections and one
    that has not sent its nickname yet, and a transport that accepts every
    write in full. *)
Definition sample_alice : Server.Client := Server.mkClient 4 (lit "alice") [] true.
Definition sample_bob : Server.Client := Server.mkClient 5 [] [] false.
Definition sample_carol : Server.Client := Server.mkClient 6 (lit "carol") [] true.

Definition sample_state : Server.State :=
  Server.mkState [sample_alice; sample_bob; sample_carol] [].

Definition send_all : trace -> Z -> bytes -> Z :=
  fun _ _ payload => Z.of_nat (length payload).

(** The Line Framer on its own: the lines that the loop of
    [process_client_data] takes out of an accumulator, in order, and what
    it leaves behind. *)
Fixpoint frame (fuel : nat) (buf : bytes) : list bytes * bytes :=
  match fuel with
  | O => ([], buf)
  | S fuel' =>
      match Server.next_line buf with
      | None => ([], buf)
      | Some (line, rest) =>
          let '(ls, r) := frame fuel' rest in (line :: ls, r)
      end
  end.

Definition frame_all (buf : bytes) : list bytes * bytes :=
  frame (length buf) buf.

(** One readiness event: [recv_into] appends the chunk to the accumulator,
    then every complete line is taken out. *)
Definition feed (acc chunk : bytes) : list bytes * bytes :=
  frame_all (acc ++ chunk).

(** The chunks fed one at a time, each call starting from what the
    previous one left. *)
Fixpoint feed_chunks (acc : bytes) (chunks : list bytes) : list bytes * bytes :=
  match chunks with
  | [] => ([], acc)
  | chunk :: chunks' =>
      let '(ls, acc') := feed acc chunk in
      let '(ls', acc'') := feed_chunks acc' chunks' in
      (ls ++ ls', acc'')
  end.

(** The invariant of a connection: registered exactly when a nickname is
    set. *)
Definition conn_inv (c : Server.Client) : Prop :=
  Server.registered c = true <-> Server.nick c <> [].

(** The ways the code changes one entry of the vector in place: the
    accumulator is replaced, the connection registers under a valid name, or
    its handle is set to [-1]. *)
Inductive field_step : Server.Client -> Server.Client -> Prop :=
| fs_buffer c b : field_step c (Server.set_inbuf c b)
| fs_register c name :
    Server.registered c = false -> Server.is_valid_nick name = true ->
    field_step c (Server.register_as c name)
| fs_mark c : field_step c (Server.set_fd c (-1)).

(** A run of such changes, all at index [i]. *)
Inductive in_place_at (i : nat) : list Server.Client -> list Server.Client -> Prop :=
| ipa_refl cs : in_place_at i cs cs
| ipa_step cs cs' c c' :
    in_place_at i cs cs' -> cs' !! i = Some c -> field_step c c' ->
    in_place_at i cs (<[i := c']> cs').

(** The entries of [l] at the positions that are not marked, [l] starting
    at position [base]. *)
Fixpoint unmarked_from {A} (marked : nat -> bool) (base : nat) (l : list A) : list A :=
  match l with
  | [] => []
  | x :: l' =>
      if marked base then unmarked_from marked (S base) l'
      else x :: unmarked_from marked (S base) l'
  end.

(** Does the read of the connection at index [i] return zero or an error
    when its turn comes in the pass over [st]?  The state at that moment is
    the one the first [i] turns of the loop have produced. *)
Definition read_fails_at (net_send : trace -> Z -> bytes -> Z)
    (net_recv : trace -> Z -> Z * bytes) (ready : Z -> bool)
    (st : Server.State) (i : nat) : bool :=
  let sti := fst (Server.pass_loop net_send net_recv i ready 0 st []) in
  match Server.clients sti !! i with
  | Some c =>
      (0 <=? Server.fd c) && ready (Server.fd c)
      && (fst (net_recv (Server.log sti) (Server.fd c)) <=? 0)
  | None => false
  end.

(** Three registered connections, a transport on which every write to
    handle 5 fails, and reads that deliver one chat line from handle 4. *)
Definition sample_bob_registered : Server.Client := Server.mkClient 5 (lit "bob") [] true.

Definition sample_room : Server.State :=
  Server.mkState [sample_alice; sample_bob_registered; sample_carol] [].

Definition send_fails_on_5 : trace -> Z -> bytes -> Z :=
  fun _ fd payload => if fd =? 5 then -1 else Z.of_nat (length payload).

Definition recv_line_from_4 : trace -> Z -> Z * bytes :=
  fun _ fd => if fd =? 4 then (10, lit_nl "MSG again") else (-1, []).

Definition select_only_4 : trace -> select_result :=
  fun _ => mkSelect 1 false (fun fd => fd =? 4).

(** Reads for the pass of the sample: a line from handle 4, end of stream
    on handle 5, an error on handle 6; every handle is reported ready. *)
Definition recv_sample : trace -> Z -> Z * bytes :=
  fun _ fd => if fd =? 4 then (7, lit_nl "MSG hi")
              else if fd =? 5 then (0, [])
              else (-1, []).

Definition all_ready : Z -> bool := fun _ => true.

(** An environment for the client: the connection succeeds with
    descriptor 3, the server's greeting is there at once, writes go through,
    and the console is at end of file. *)
Definition connect_ok : trace -> bytes -> bytes -> option (list NetworkClient.connect_attempt) :=
  fun _ _ _ => Some [NetworkClient.mkTry 3 0].

(** The host resolves to three addresses: [connect] fails on the first,
    [socket] on the second, [connect] on the third. *)
Definition connect_refused
    : trace -> bytes -> bytes -> option (list NetworkClient.connect_attempt) :=
  fun _ _ _ => Some [NetworkClient.mkTry 3 (-1); NetworkClient.mkTry (-1) 0;
                     NetworkClient.mkTry 3 (-1)].

Definition select_all_ready : trace -> select_result :=
  fun _ => mkSelect 1 false (fun _ => true).
Definition recv_greeting : trace -> Z -> Z * bytes :=
  fun _ _ => (10, lit_nl "HELLO 1.0").
Definition console_eof : trace -> option bytes := fun _ => None.
Definition clock_zero : trace -> Z := fun _ => 0.

(** [clients[i].inbuf = b], when there is an entry at [i]. *)
Definition set_inbuf_at (i : nat) (b : bytes) (st : Server.State) : Server.State :=
  match Server.clients st !! i with
  | None => st
  | Some c => Server.mkState (<[i := Server.set_inbuf c b]> (Server.clients st)) (Server.log st)
  end.

(** The protocol state machine run over a list of framed lines. *)
Definition handle_lines (net_send : trace -> Z -> bytes -> Z) (i : nat)
    (lines : list bytes) (st : Server.State) : Server.State :=
  foldl (fun s line => Server.handle_line net_send i line s) st lines.

(** One readiness event on the connection at index [i] that brings
    [chunk]: [recv_into] appends the bytes to the accumulator, then
    [process_client_data] runs. *)
Definition deliver (net_send : trace -> Z -> bytes -> Z) (i : nat)
    (chunk : bytes) (st : Server.State) : Server.State :=
  match Server.clients st !! i with
  | None => st
  | Some c =>
      Server.process_client_data net_send i
        (set_inbuf_at i (Server.inbuf c ++ chunk) st)
  end.

(** How often [ch] occurs in [s]. *)
Fixpoint count_char (ch : ascii) (s : bytes) : nat :=
  match s with
  | [] => O
  | c :: s' => if Ascii.eqb c ch then S (count_char ch s') else count_char ch s'
  end.

(** The writes the transport refused. *)
Definition failed_of (tr : trace) : list (Z * bytes) :=
  omap (fun e => match e with
                 | EvSend fd p n => if n <? 0 then Some (fd, p) else None
                 | _ => None
                 end) tr.

(** The bytes the reads of a trace brought in, in order. *)
Definition received_of (tr : trace) : bytes :=
  concat (omap (fun e => match e with
                         | EvRecv _ n buf =>
                             if 0 <? n then Some (take (Z.to_nat n) buf) else None
                         | _ => None
                         end) tr).

(** A chat line as the client sends it, its text within the limit. *)
Definition client_msg (payload : bytes) : Prop :=
  exists m, payload = lit "MSG " ++ m ++ [LF] /\ (length m <= 255)%nat.

(** Every entry whose handle has been set to a negative value has its
    index among the marks. *)
Definition dead_are_marked (cs : list Server.Client) (marks : list Z) : Prop :=
  forall j x, cs !! j = Some x -> Server.fd x < 0 -> In (Z.of_nat j) marks.

(** The test under which a turn of the pass marks its connection. *)
Definition turn_marks (net_recv : trace -> Z -> Z * bytes) (ready : Z -> bool)
    (i : nat) (st : Server.State) : bool :=
  match Server.clients st !! i with
  | Some c =>
      (0 <=? Server.fd c) && ready (Server.fd c)
      && (fst (net_recv (Server.log st) (Server.fd c)) <=? 0)
  | None => false
  end.

(** What [receiveServerMessages] may write on its socket: chat lines
    within the limit. *)
Definition client_write_ok (sock : Z) (w : Z * bytes) : Prop :=
  fst w = sock /\ client_msg (snd w).

(** The handles a client run has closed when it stops with outcome [o]:
    only [handleError] closes, and it always throws. *)
Definition closes_for (sock : Z) (o : NetworkClient.outcome) : list Z :=
  match o with
  | NetworkClient.Threw _ => [sock]
  | _ => []
  end.

(** What the server prints when it gives a connection up after a read
    that returned [n], zero or negative. *)
Definition closing_notice (c : Server.Client) (n : Z) : event :=
  if n =? 0
  then EvStdout (lit "Client " ++ Server.nick c ++ lit " has disconnected." ++ [LF])
  else EvStderr (lit "Error reading from client " ++ Server.nick c
                   ++ lit ". Closing connection." ++ [LF]).

(** A pass over [sample_room] in which handle 4 is at end of stream and
    handle 6 brings a chat line, handle 5 not being ready. *)
Definition recv_leave_then_talk : trace -> Z -> Z * bytes :=
  fun _ fd => if fd =? 4 then (0, []) else (7, lit_nl "MSG hi").

Definition ready_4_and_6 : Z -> bool := fun fd => (fd =? 4) || (fd =? 6).

(** An address on which [socket], [bind] and [listen] all succeed. *)
Definition usable (a : ServerMain.bind_attempt) : bool :=
  (0 <=? ServerMain.att_socket a) && (ServerMain.att_bind a =? 0)
  && (ServerMain.att_listen a =? 0).

(** The sockets that [socket] opened on the addresses [l]. *)
Definition opened_on (l : list ServerMain.bind_attempt) : list Z :=
  List.filter (fun s => 0 <=? s) (map ServerMain.att_socket l).

(** Two addresses: [bind] fails on the first and all goes well on the
    second, whose socket gets the descriptor just freed. *)
Definition bind_second : bytes -> bytes -> bytes + list ServerMain.bind_attempt :=
  fun _ _ => inr [ServerMain.mkAttempt 3 (-1) 0; ServerMain.mkAttempt 3 0 0].

(** An entry of the vector after any number of changes in place: it is
    still the same connection. *)
Inductive evolves : Server.Client -> Server.Client -> Prop :=
| ev_same c : evolves c c
| ev_step c c' c'' : evolves c c' -> field_step c' c'' -> evolves c c''.

(* ===================================================================== *)
(** ** Nickname validation *)
(* ===================================================================== *)

Section NickValidation.

Import Regex.

Lemma match_rep_to_end cls lo hi pos s :
  match_rep cls (match_nodes [Eol]) lo hi pos s = true <->
  (lo <= length s <= hi)%nat /\ forallb (in_class cls) s = true.
Proof.
  revert lo pos s. induction hi as [|hi IH]; intros lo pos s.
  - cbn [match_rep]. rewrite andb_true_iff, Nat.eqb_eq.
    destruct s as [|c s]; cbn; split.
    + intros [-> _]. split; [lia | reflexivity].
    + intros [Hlen _]. split; [lia | reflexivity].
    + intros [_ Hf]. discriminate.
    + intros [Hlen _]. lia.
  - destruct s as [|c s].
    + cbn. rewrite andb_true_r, Nat.eqb_eq. split.
      * intros ->. split; [lia | reflexivity].
      * intros [Hlen _]. lia.
    + cbn [match_rep match_nodes length forallb].
      rewrite andb_false_r, orb_false_r, !andb_true_iff, IH.
      intuition lia.
Qed.

Lemma regex_match_nick_re s :
  regex_match s nick_re = true <->
  (1 <= length s <= 12)%nat
  /\ forallb (in_class [Range "A" "Z"; Range "a" "z"; Range "0" "9"; Single "_"]) s = true.
Proof.
  unfold regex_match, nick_re. cbn [match_nodes Nat.eqb andb].
  apply match_rep_to_end.
Qed.

Lemma nick_class_alphabet c :
  in_class [Range "A" "Z"; Range "a" "z"; Range "0" "9"; Single "_"] c
  = existsb (Ascii.eqb c) nick_alphabet.
Proof.
  destruct c as [[] [] [] [] [] [] [] []]; vm_compute; reflexivity.
Qed.

Lemma nick_class_In c :
  in_class [Range "A" "Z"; Range "a" "z"; Range "0" "9"; Single "_"] c = true
  <-> In c nick_alphabet.
Proof.
  rewrite nick_class_alphabet, existsb_exists. split.
  - intros (x & Hin & Heq). apply Ascii.eqb_eq in Heq. subst x. exact Hin.
  - intros Hin. exists c. split; [exact Hin | apply Ascii.eqb_refl].
Qed.

Lemma regex_match_nick_pattern s :
  regex_match s nick_re = true <-> matches_nick_pattern s.
Proof.
  rewrite regex_match_nick_re. unfold matches_nick_pattern.
  rewrite forallb_forall, Forall_forall.
  split; intros [Hlen Hall]; split; try exact Hlen; intros c Hc.
  - apply nick_class_In, Hall. apply list_elem_of_In. exact Hc.
  - apply nick_class_In. apply Hall. apply list_elem_of_In. exact Hc.
Qed.

End NickValidation.

(** C4. The server's [is_valid_nick] and the client's [isNicknameValid]
    accept a string exactly when it is 1 to 12 characters long and made
    only of ASCII letters, digits and underscores, that is, when it matches
    [^[A-Za-z0-9_]{1,12}$]; every other string is rejected. *)
Theorem C4_nick_validator_exact (s : bytes) :
  (Server.is_valid_nick s = true <-> matches_nick_pattern s)
  /\ (Server.is_valid_nick s = false <-> ~ matches_nick_pattern s)
  /\ (fst (NetworkClient.isNicknameValid s) = true <-> matches_nick_pattern s)
  /\ (fst (NetworkClient.isNicknameValid s) = false <-> ~ matches_nick_pattern s).
Proof.
  assert (Hs : Server.is_valid_nick s = true <-> matches_nick_pattern s)
    by apply regex_match_nick_pattern.
  assert (Hc : fst (NetworkClient.isNicknameValid s) = true <-> matches_nick_pattern s).
  { unfold NetworkClient.isNicknameValid.
    destruct (12 <? length s)%nat eqn:Hlen; cbn [fst].
    - apply Nat.ltb_lt in Hlen. split; [discriminate |].
      intros [Hl _]. lia.
    - apply regex_match_nick_pattern. }
  split; [exact Hs |]. split.
  { destruct (Server.is_valid_nick s); intuition congruence. }
  split; [exact Hc |].
  destruct (fst (NetworkClient.isNicknameValid s)); intuition congruence.
Qed.

(* ===================================================================== *)
(** ** Byte strings and traces: basic facts *)
(* ===================================================================== *)

Lemma pop_eols_length r : (length (pop_eols r) <= length r)%nat.
Proof.
  induction r as [|c r IH]; cbn; [lia |].
  destruct (is_eol c); cbn; lia.
Qed.

Lemma pop_eols_fixed r :
  pop_eols r = r <-> match r with [] => True | c :: _ => is_eol c = false end.
Proof.
  destruct r as [|c r]; cbn; [tauto |].
  destruct (is_eol c) eqn:Hc; split; try reflexivity; try discriminate.
  intros Heq. pose proof (pop_eols_length r) as Hlen.
  rewrite Heq in Hlen. cbn in Hlen. lia.
Qed.

Lemma pop_eols_idem r : pop_eols (pop_eols r) = pop_eols r.
Proof.
  induction r as [|c r IH]; cbn; [reflexivity |].
  destruct (is_eol c) eqn:Hc; [exact IH |].
  cbn. rewrite Hc. reflexivity.
Qed.

Lemma chomp_is_line s : is_line (chomp s).
Proof.
  unfold is_line, chomp. rewrite rev_involutive, pop_eols_idem. reflexivity.
Qed.

(** What follows a prefix in a Line has nothing to strip either. *)
Lemma is_line_suffix p t : is_line (p ++ t) -> is_line t.
Proof.
  unfold is_line, chomp. intros H.
  apply (f_equal (@rev ascii)) in H. rewrite rev_involutive in H.
  apply pop_eols_fixed in H. rewrite rev_app_distr in H.
  destruct (rev t) as [|c r] eqn:Hr.
  - apply (f_equal (@rev ascii)) in Hr. rewrite rev_involutive in Hr.
    subst t. reflexivity.
  - cbn in H. assert (Hfix : pop_eols (c :: r) = c :: r)
      by (apply pop_eols_fixed; exact H).
    rewrite Hfix, <- Hr. apply rev_involutive.
Qed.

Lemma starts_with_app p s : starts_with p (p ++ s) = true.
Proof.
  induction p as [|a p IH]; cbn; [reflexivity |].
  rewrite Ascii.eqb_refl. exact IH.
Qed.

Lemma starts_with_split p s :
  starts_with p s = true -> s = p ++ drop (length p) s.
Proof.
  revert s. induction p as [|a p IH]; intros s H; cbn in *; [reflexivity |].
  destruct s as [|c s]; [discriminate |].
  apply andb_true_iff in H as [Hc Hp]. apply Ascii.eqb_eq in Hc. subst c.
  cbn. f_equal. apply IH. exact Hp.
Qed.

Lemma starts_with_false p s :
  starts_with p s = false -> forall t, s <> p ++ t.
Proof.
  intros H t ->. rewrite starts_with_app in H. discriminate.
Qed.

Lemma sends_of_app a b : sends_of (a ++ b) = sends_of a ++ sends_of b.
Proof. apply omap_app. Qed.

Lemma closed_of_app a b : closed_of (a ++ b) = closed_of a ++ closed_of b.
Proof. apply omap_app. Qed.

(* ===================================================================== *)
(** ** The protocol state machine: one framed line *)
(* ===================================================================== *)

Section LineHandling.

Import Server.

Variable net_send : trace -> Z -> bytes -> Z.

Lemma send_response_sends f m tr :
  sends_of (send_response net_send f m tr) = sends_of tr ++ [(f, m)].
Proof.
  unfold Server.send_response.
  destruct (net_send tr f m <? 0); rewrite !sends_of_app; cbn.
  - rewrite app_nil_r. reflexivity.
  - reflexivity.
Qed.

(** The test of the broadcast loop, as a proposition. *)
Lemma recipient_guard d sfd :
  (0 <=? fd d) && negb (fd d =? sfd) = true <-> 0 <= fd d /\ fd d <> sfd.
Proof. rewrite andb_true_iff, negb_true_iff, Z.leb_le, Z.eqb_neq. reflexivity. Qed.

Lemma recipient_guard_not d sfd :
  (0 <=? fd d) && negb (fd d =? sfd) = false <-> ~ (0 <= fd d /\ fd d <> sfd).
Proof. rewrite <- recipient_guard. symmetry. apply not_true_iff_false. Qed.

Lemma broadcast_sends sender m dsts tr :
  sends_of (broadcast net_send (fd sender) m dsts tr)
  = sends_of tr ++ map (fun d => (fd d, m)) (recipients sender dsts).
Proof.
  unfold Server.broadcast, recipients. revert tr.
  induction dsts as [|d dsts IH]; intros tr; cbn [foldl].
  - cbn. rewrite app_nil_r. reflexivity.
  - rewrite IH, filter_cons.
    destruct (decide (0 <= fd d /\ fd d <> fd sender)) as [Hd|Hd].
    + apply recipient_guard in Hd. rewrite Hd. cbn [map].
      rewrite send_response_sends, <- app_assoc. reflexivity.
    + apply recipient_guard_not in Hd. rewrite Hd. reflexivity.
Qed.

Lemma send_response_closes f m tr :
  closed_of (send_response net_send f m tr)
  = closed_of tr ++ (if net_send tr f m <? 0 then [f] else []).
Proof.
  unfold Server.send_response.
  destruct (net_send tr f m <? 0); rewrite !closed_of_app; cbn.
  - rewrite app_nil_r. reflexivity.
  - reflexivity.
Qed.

(** A broadcast closes nothing but handles of its recipients, so never
    the sender's; and by [broadcast_sends] a failed write does not stop the
    writes to the recipients after it. *)
Lemma broadcast_closes sender m dsts tr :
  exists fs,
    closed_of (broadcast net_send (fd sender) m dsts tr) = closed_of tr ++ fs
    /\ Forall (fun f => In f (map fd (recipients sender dsts)) /\ f <> fd sender) fs.
Proof.
  unfold Server.broadcast, recipients. revert tr.
  induction dsts as [|d dsts IH]; intros tr; cbn [foldl].
  - exists []. rewrite app_nil_r. split; [reflexivity | constructor].
  - rewrite filter_cons.
    destruct (decide (0 <= fd d /\ fd d <> fd sender)) as [Hd|Hd].
    + pose proof Hd as [_ Hne].
      apply recipient_guard in Hd. rewrite Hd. cbn [map].
      destruct (IH (send_response net_send (fd d) m tr)) as (fs & Hfs & Hall).
      rewrite Hfs, send_response_closes, <- app_assoc.
      eexists. split; [reflexivity |].
      apply Forall_app. split.
      * destruct (net_send tr (fd d) m <? 0); constructor; [|constructor].
        split; [left; reflexivity | exact Hne].
      * eapply Forall_impl; [exact Hall |].
        intros f [Hin Hf]. split; [right; exact Hin | exact Hf].
    + apply recipient_guard_not in Hd. rewrite Hd. apply IH.
Qed.

(** A registered connection and a [MSG] line within the limit: the vector
    is left alone and the envelope goes to the recipients, in order. *)
Lemma handle_line_msg st i c text :
  clients st !! i = Some c -> registered c = true ->
  is_line (lit "MSG " ++ text) -> (length text <= 255)%nat ->
  clients (handle_line net_send i (lit "MSG " ++ text) st) = clients st
  /\ sends_of (log (handle_line net_send i (lit "MSG " ++ text) st))
     = sends_of (log st) ++ map (fun d => (fd d, envelope c text)) (recipients c (clients st)).
Proof.
  intros Hi Hreg Hline Hlen.
  unfold Server.handle_line. rewrite Hi, Hreg. cbn [negb].
  unfold rfind_at0. rewrite starts_with_app.
  change (substr_from (lit "MSG " ++ text) 4) with text.
  apply is_line_suffix in Hline. unfold is_line in Hline. rewrite Hline.
  assert (Hle : (255 <? length text)%nat = false) by (apply Nat.ltb_ge; lia).
  rewrite Hle. cbn [clients log]. split; [reflexivity |].
  apply broadcast_sends.
Qed.

(** Nothing in [recipients] carries the sender's handle. *)
Lemma recipients_not_sender c cs :
  Forall (fun d => fd d <> fd c) (recipients c cs).
Proof.
  unfold recipients. apply Forall_forall. intros d Hd.
  apply list_elem_of_filter in Hd. tauto.
Qed.

(** With pairwise distinct open handles, the recipients are all the
    connections but one. *)
Lemma recipients_length c cs :
  In c cs -> NoDup (map fd cs) -> Forall (fun d => 0 <= fd d) cs ->
  length (recipients c cs) = (length cs - 1)%nat.
Proof.
  unfold recipients. intros Hin Hnd Hopen.
  induction cs as [|d cs IH]; [destruct Hin |].
  cbn [map] in Hnd. apply NoDup_cons in Hnd as [Hd Hnd].
  apply Forall_cons in Hopen as [Hd0 Hopen].
  rewrite filter_cons. destruct Hin as [->|Hin].
  - destruct (decide _) as [[_ Hne]|_]; [congruence |].
    cbn [length]. rewrite Nat.sub_1_r. cbn.
    clear IH. induction cs as [|e cs IH]; [reflexivity |].
    cbn [map] in Hd, Hnd. apply NoDup_cons in Hnd as [_ Hnd].
    apply Forall_cons in Hopen as [He0 Hopen].
    rewrite not_elem_of_cons in Hd. destruct Hd as [Hne Hd].
    rewrite filter_cons. destruct (decide _) as [_|Hn].
    + cbn [length]. f_equal. apply IH; assumption.
    + exfalso. apply Hn. split; [assumption | congruence].
  - destruct (decide _) as [_|Hn].
    + cbn [length]. rewrite IH by assumption.
      destruct cs; [destruct Hin | cbn; lia].
    + exfalso. apply Hn. split; [assumption |].
      intros Heq. apply Hd. rewrite Heq.
      apply list_elem_of_In, in_map, Hin.
Qed.

End LineHandling.

Section LineTheorems.

Import Server.

Variable net_send : trace -> Z -> bytes -> Z.

(** C1 (as the code has it).  When a registered sender's line
    [MSG <text>], with [<text>] of at most 255 bytes, is processed, the
    connection vector is left as it was and the line
    [MSG <sender-nick> <text>\n] is written exactly once, in vector order, to
    every connection whose handle is open and differs from the sender's,
    whether that connection is registered or not; nothing is written to the
    sender.  When the handles are open and pairwise distinct these are all
    the connections but the sender. *)
Theorem C1_broadcast_reaches_all_others st i c text :
  clients st !! i = Some c -> registered c = true ->
  is_line (lit "MSG " ++ text) -> (length text <= 255)%nat ->
  let st' := handle_line net_send i (lit "MSG " ++ text) st in
  clients st' = clients st
  /\ sends_of (log st')
     = sends_of (log st)
       ++ map (fun d => (fd d, lit "MSG " ++ nick c ++ lit " " ++ text ++ [LF]))
              (recipients c (clients st))
  /\ Forall (fun d => fd d <> fd c) (recipients c (clients st))
  /\ (forall d, In d (clients st) -> 0 <= fd d -> fd d <> fd c ->
        In d (recipients c (clients st)))
  /\ (NoDup (map fd (clients st)) -> Forall (fun d => 0 <= fd d) (clients st) ->
        length (recipients c (clients st)) = (length (clients st) - 1)%nat).
Proof.
  intros Hi Hreg Hline Hlen st'.
  destruct (handle_line_msg net_send st i c text Hi Hreg Hline Hlen) as [Hcs Hsends].
  split; [exact Hcs |]. split; [exact Hsends |].
  split; [apply recipients_not_sender |]. split.
  - intros d Hd Hopen Hne. apply list_elem_of_In.
    unfold recipients. apply list_elem_of_filter. split; [tauto |].
    apply list_elem_of_In. exact Hd.
  - intros Hnd Hopen. apply recipients_length; try assumption.
    apply list_elem_of_In. eapply list_elem_of_lookup_2. exact Hi.
Qed.

(** C5. When a registered connection's line [MSG <text>] has a [<text>] of
    more than 255 bytes, the only write is [ERROR: Message too long\n] to the
    sender's own handle, and the connection vector, hence the sender's
    registration and nickname, is unchanged. *)
Theorem C5_message_too_long st i c text :
  clients st !! i = Some c -> registered c = true ->
  is_line (lit "MSG " ++ text) -> (255 < length text)%nat ->
  let st' := handle_line net_send i (lit "MSG " ++ text) st in
  clients st' = clients st
  /\ clients st' !! i = Some c
  /\ sends_of (log st') = sends_of (log st) ++ [(fd c, lit_nl "ERROR: Message too long")].
Proof.
  intros Hi Hreg Hline Hlen st'. subst st'.
  unfold Server.handle_line. rewrite Hi, Hreg. cbn [negb].
  unfold rfind_at0. rewrite starts_with_app.
  change (substr_from (lit "MSG " ++ text) 4) with text.
  apply is_line_suffix in Hline. unfold is_line in Hline. rewrite Hline.
  assert (Hgt : (255 <? length text)%nat = true) by (apply Nat.ltb_lt; lia).
  rewrite Hgt. cbn [clients log].
  split; [reflexivity |]. split; [exact Hi |].
  apply send_response_sends.
Qed.

(** C6. For an unregistered connection with an empty nickname, any line
    that is not [NICK <name>] with a valid [<name>] leaves the connection
    vector as it was (so the connection stays unregistered, its nickname
    empty) and causes exactly one write, to that connection:
    [ERROR: Invalid nickname format\n] when the line starts with [NICK ],
    [ERROR: NICK command expected\n] otherwise.  A valid [NICK <name>] line
    processed next stores the name, marks the connection registered and
    writes [OK\n] to it. *)
Theorem C6_unregistered_until_valid_nick st i c line :
  clients st !! i = Some c -> registered c = false -> nick c = [] ->
  (forall name, line = lit "NICK " ++ name -> is_valid_nick name = false) ->
  let st' := handle_line net_send i line st in
  clients st' = clients st
  /\ (exists c', clients st' !! i = Some c' /\ registered c' = false /\ nick c' = [])
  /\ (exists reply,
        sends_of (log st') = sends_of (log st) ++ [(fd c, reply)]
        /\ ((exists name, line = lit "NICK " ++ name) ->
              reply = lit_nl "ERROR: Invalid nickname format")
        /\ ((forall name, line <> lit "NICK " ++ name) ->
              reply = lit_nl "ERROR: NICK command expected"))
  /\ (forall name, is_valid_nick name = true ->
        let st'' := handle_line net_send i (lit "NICK " ++ name) st' in
        clients st'' = <[i := mkClient (fd c) name (inbuf c) true]> (clients st)
        /\ clients st'' !! i = Some (mkClient (fd c) name (inbuf c) true)
        /\ sends_of (log st'') = sends_of (log st') ++ [(fd c, lit_nl "OK")]).
Proof.
  intros Hi Hreg Hnick Hbad st'.
  assert (Hcs : clients st' = clients st).
  { subst st'. unfold Server.handle_line. rewrite Hi, Hreg. cbn [negb].
    unfold rfind_at0. destruct (starts_with (lit "NICK ") line) eqn:Hs.
    - rewrite (Hbad (substr_from line 5)); [reflexivity |].
      apply (starts_with_split (lit "NICK ")). exact Hs.
    - reflexivity. }
  split; [exact Hcs |]. split.
  { exists c. rewrite Hcs. auto. }
  split.
  { subst st'. unfold Server.handle_line. rewrite Hi, Hreg. cbn [negb].
    unfold rfind_at0. destruct (starts_with (lit "NICK ") line) eqn:Hs.
    - rewrite (Hbad (substr_from line 5))
        by (apply (starts_with_split (lit "NICK ")); exact Hs).
      eexists. split; [apply send_response_sends |]. split; [reflexivity |].
      intros Hno. exfalso. apply (Hno (substr_from line 5)).
      apply (starts_with_split (lit "NICK ")). exact Hs.
    - eexists. split; [apply send_response_sends |]. split; [| reflexivity].
      intros [name Hname]. exfalso.
      exact (starts_with_false _ _ Hs name Hname). }
  intros name Hvalid st''.
  assert (Hst : st'' = mkState (<[i := register_as c name]> (clients st))
                  (send_response net_send (fd c) (lit_nl "OK") (log st')
                     ++ [EvStdout (lit "Client registered with nickname: " ++ name ++ [LF])])).
  { subst st''. unfold Server.handle_line at 1. rewrite Hcs, Hi, Hreg. cbn [negb].
    unfold rfind_at0. rewrite starts_with_app.
    change (substr_from (lit "NICK " ++ name) 5) with name.
    rewrite Hvalid. reflexivity. }
  rewrite Hst. cbn [clients log]. unfold register_as.
  split; [reflexivity |]. split.
  - apply list_lookup_insert_eq. eapply lookup_lt_Some. exact Hi.
  - rewrite sends_of_app, send_response_sends. cbn. rewrite app_nil_r. reflexivity.
Qed.

(** C10. For a registered connection the line [MSG ] with nothing after the
    prefix is accepted: [MSG <nick> \n] is written to every other open
    connection, the connection vector is unchanged, and nothing, so no
    error reply, is written to the sender. *)
Theorem C10_empty_text_is_broadcast st i c :
  clients st !! i = Some c -> registered c = true ->
  let st' := handle_line net_send i (lit "MSG ") st in
  clients st' = clients st
  /\ sends_of (log st')
     = sends_of (log st)
       ++ map (fun d => (fd d, lit "MSG " ++ nick c ++ lit " " ++ [LF]))
              (recipients c (clients st))
  /\ Forall (fun d => fd d <> fd c) (recipients c (clients st)).
Proof.
  intros Hi Hreg st'.
  assert (Hline : is_line (lit "MSG " ++ [])) by reflexivity.
  assert (Hlen : (length (@nil ascii) <= 255)%nat) by (cbn; lia).
  destruct (handle_line_msg net_send st i c [] Hi Hreg Hline Hlen) as [Hcs Hsends].
  split; [exact Hcs |]. split; [exact Hsends |].
  apply recipients_not_sender.
Qed.

End LineTheorems.

(** C1 as stated fails: in the sample of two registered connections and
    one that has not registered, a line from the first is written to both
    others, so it is not true that the unregistered connections of the set
    receive nothing. *)
Lemma C1_unregistered_connection_receives :
  let st' := Server.handle_line send_all 0 (lit "MSG hello") sample_state in
  sends_of (Server.log st')
  = [(Server.fd sample_bob, lit_nl "MSG alice hello");
     (Server.fd sample_carol, lit_nl "MSG alice hello")]
  /\ ~ (forall d, In d (Server.clients sample_state) -> Server.registered d = false ->
           ~ In (Server.fd d, lit_nl "MSG alice hello") (sends_of (Server.log st'))).
Proof.
  split; [vm_compute; reflexivity |].
  intros H. apply (H sample_bob).
  - right. left. reflexivity.
  - reflexivity.
  - vm_compute. left. reflexivity.
Qed.

(** C1 at the sample: a line from the first connection. *)
Lemma C1_broadcast_reaches_all_others_witness :
  sends_of (Server.log (Server.handle_line send_all 0 (lit "MSG " ++ lit "hello") sample_state))
  = [(5, lit_nl "MSG alice hello"); (6, lit_nl "MSG alice hello")].
Proof.
  refine (proj1 (proj2
    (C1_broadcast_reaches_all_others send_all sample_state 0 sample_alice (lit "hello")
       _ _ _ _))).
  - reflexivity.
  - reflexivity.
  - reflexivity.
  - cbn. lia.
Defined.

(** C5 at the sample: a text of 256 bytes. *)
Lemma C5_message_too_long_witness :
  sends_of (Server.log
    (Server.handle_line send_all 0 (lit "MSG " ++ replicate 256 "a"%char) sample_state))
  = [(4, lit_nl "ERROR: Message too long")].
Proof.
  refine (proj2 (proj2
    (C5_message_too_long send_all sample_state 0 sample_alice (replicate 256 "a"%char)
       _ _ _ _))).
  - reflexivity.
  - reflexivity.
  - vm_compute. reflexivity.
  - vm_compute. lia.
Defined.

(** C6 at the sample: a [NICK] line with a character outside the
    alphabet, on the connection that has not registered. *)
Lemma C6_unregistered_until_valid_nick_witness :
  Server.clients (Server.handle_line send_all 1 (lit "NICK b@b") sample_state)
  = Server.clients sample_state.
Proof.
  refine (proj1
    (C6_unregistered_until_valid_nick send_all sample_state 1 sample_bob (lit "NICK b@b")
       _ _ _ _)).
  - reflexivity.
  - reflexivity.
  - reflexivity.
  - intros name Hname. injection Hname as <-. vm_compute. reflexivity.
Defined.

(** C10 at the sample. *)
Lemma C10_empty_text_is_broadcast_witness :
  sends_of (Server.log (Server.handle_line send_all 0 (lit "MSG ") sample_state))
  = [(5, lit_nl "MSG alice "); (6, lit_nl "MSG alice ")].
Proof.
  refine (proj1 (proj2
    (C10_empty_text_is_broadcast send_all sample_state 0 sample_alice _ _))).
  - reflexivity.
  - reflexivity.
Defined.

(* ===================================================================== *)
(** ** The line framer *)
(* ===================================================================== *)

Lemma find_char_bound ch s pos :
  find_char ch s = Some pos -> (pos < length s)%nat.
Proof.
  revert pos. induction s as [|c s IH]; intros pos H; cbn in *; [discriminate |].
  destruct (Ascii.eqb c ch).
  - injection H as <-. lia.
  - destruct (find_char ch s) as [p|]; cbn in H; [|discriminate].
    injection H as <-. specialize (IH p eq_refl). lia.
Qed.

Lemma find_char_app ch a b pos :
  find_char ch a = Some pos -> find_char ch (a ++ b) = Some pos.
Proof.
  revert pos. induction a as [|c a IH]; intros pos H; cbn in *; [discriminate |].
  destruct (Ascii.eqb c ch); [exact H |].
  destruct (find_char ch a) as [p|]; cbn in H; [|discriminate].
  rewrite (IH p eq_refl). exact H.
Qed.

Lemma next_line_shorter buf line rest :
  Server.next_line buf = Some (line, rest) -> (length rest < length buf)%nat.
Proof.
  unfold Server.next_line, erase_front.
  destruct (find_char LF buf) as [pos|] eqn:Hf; [|discriminate].
  intros H. injection H as _ <-. apply find_char_bound in Hf.
  rewrite length_drop. lia.
Qed.

Lemma next_line_app a b line rest :
  Server.next_line a = Some (line, rest) ->
  Server.next_line (a ++ b) = Some (line, rest ++ b).
Proof.
  unfold Server.next_line, erase_front, substr.
  destruct (find_char LF a) as [pos|] eqn:Hf; [|discriminate].
  intros H. injection H as <- <-.
  rewrite (find_char_app _ _ b _ Hf). apply find_char_bound in Hf.
  rewrite !drop_0, take_app_le, drop_app_le by lia. reflexivity.
Qed.

Lemma next_line_is_line buf line rest :
  Server.next_line buf = Some (line, rest) -> is_line line.
Proof.
  unfold Server.next_line.
  destruct (find_char LF buf); [|discriminate].
  intros H. injection H as <- _. apply chomp_is_line.
Qed.

(** Every line the framer hands over is a Line. *)
Lemma frame_lines fuel buf : Forall is_line (fst (frame fuel buf)).
Proof.
  revert buf. induction fuel as [|fuel IH]; intros buf; cbn [frame]; [constructor |].
  destruct (Server.next_line buf) as [[line rest]|] eqn:Hnext; [|constructor].
  specialize (IH rest). destruct (frame fuel rest) as [ls r]. cbn [fst] in *.
  constructor; [|exact IH]. eapply next_line_is_line. exact Hnext.
Qed.

(** Any fuel that covers the length of the accumulator gives the same
    lines: the loop has stopped by then. *)
Lemma frame_fuel fuel1 fuel2 buf :
  (length buf <= fuel1)%nat -> (length buf <= fuel2)%nat ->
  frame fuel1 buf = frame fuel2 buf.
Proof.
  revert fuel2 buf. induction fuel1 as [|f1 IH]; intros fuel2 buf H1 H2.
  - destruct buf; [|cbn in H1; lia]. destruct fuel2; reflexivity.
  - destruct fuel2 as [|f2].
    + destruct buf; [|cbn in H2; lia]. reflexivity.
    + cbn [frame]. destruct (Server.next_line buf) as [[line rest]|] eqn:Hn;
        [|reflexivity].
      apply next_line_shorter in Hn.
      rewrite (IH f2 rest) by lia. reflexivity.
Qed.

Lemma frame_all_unfold buf :
  frame_all buf
  = match Server.next_line buf with
    | None => ([], buf)
    | Some (line, rest) => let '(ls, r) := frame_all rest in (line :: ls, r)
    end.
Proof.
  unfold frame_all. destruct buf as [|c buf]; [reflexivity |].
  cbn [length frame].
  destruct (Server.next_line (c :: buf)) as [[line rest]|] eqn:Hn; [|reflexivity].
  apply next_line_shorter in Hn. cbn [length] in Hn.
  rewrite (frame_fuel (length buf) (length rest) rest) by lia. reflexivity.
Qed.

(** Framing a buffer followed by more bytes: frame the buffer, then frame
    what it left followed by those bytes. *)
Lemma frame_all_app a b :
  frame_all (a ++ b)
  = let '(l1, r1) := frame_all a in
    let '(l2, r2) := frame_all (r1 ++ b) in
    (l1 ++ l2, r2).
Proof.
  remember (length a) as n eqn:Hn. revert a Hn.
  induction n as [n IH] using lt_wf_ind. intros a Hn.
  rewrite (frame_all_unfold a).
  destruct (Server.next_line a) as [[line rest]|] eqn:Hnext.
  - rewrite (frame_all_unfold (a ++ b)), (next_line_app _ b _ _ Hnext).
    apply next_line_shorter in Hnext.
    rewrite (IH (length rest)) by (subst n; lia || reflexivity).
    destruct (frame_all rest) as [l1 r1].
    destruct (frame_all (r1 ++ b)) as [l2 r2]. reflexivity.
  - cbn. destruct (frame_all (a ++ b)) as [l2 r2]. reflexivity.
Qed.

(** What the framer leaves holds no complete line. *)
Lemma frame_all_rest buf :
  frame_all (snd (frame_all buf)) = ([], snd (frame_all buf)).
Proof.
  remember (length buf) as n eqn:Hn. revert buf Hn.
  induction n as [n IH] using lt_wf_ind. intros buf Hn.
  rewrite (frame_all_unfold buf).
  destruct (Server.next_line buf) as [[line rest]|] eqn:Hnext.
  - pose proof (next_line_shorter _ _ _ Hnext) as Hlt.
    specialize (IH (length rest) ltac:(lia) rest eq_refl).
    destruct (frame_all rest) as [ls r]. exact IH.
  - cbn [snd]. rewrite frame_all_unfold, Hnext. reflexivity.
Qed.

Lemma feed_chunks_from acc chunks :
  frame_all acc = ([], acc) ->
  feed_chunks acc chunks = frame_all (acc ++ concat chunks).
Proof.
  revert acc. induction chunks as [|chunk chunks IH]; intros acc Hacc.
  - cbn. rewrite app_nil_r, Hacc. reflexivity.
  - cbn [feed_chunks concat]. unfold feed.
    rewrite app_assoc, (frame_all_app (acc ++ chunk)).
    pose proof (frame_all_rest (acc ++ chunk)) as Hrest.
    destruct (frame_all (acc ++ chunk)) as [ls acc']. cbn [snd] in Hrest.
    rewrite (IH acc' Hrest). reflexivity.
Qed.

(** C7. For every byte sequence cut into chunks in any way, feeding the
    chunks one by one to the framer of a fresh connection (append the chunk to
    the accumulator, take out every complete line, keep the partial line)
    gives the same lines in the same order, and leaves the same partial
    line, as framing the concatenation of the chunks in one call. *)
Theorem C7_chunk_boundary_independence (cfd : Z) (chunks : list bytes) :
  feed_chunks (Server.inbuf (Server.new_client cfd)) chunks = frame_all (concat chunks).
Proof. apply (feed_chunks_from [] chunks). reflexivity. Qed.

Example frame_all_two_lines :
  frame_all (lit "NICK al" ++ [CR; LF] ++ lit_nl "MSG hi" ++ lit "MS")
  = ([lit "NICK al"; lit "MSG hi"], lit "MS").
Proof. vm_compute. reflexivity. Qed.

Example feed_chunks_split_line :
  feed_chunks [] [lit "NI"; lit "CK al" ++ [CR]; [LF] ++ lit "MSG "; lit_nl "hi" ++ lit "MS"]
  = ([lit "NICK al"; lit "MSG hi"], lit "MS").
Proof. vm_compute. reflexivity. Qed.

(* ===================================================================== *)
(** ** In-place changes of the connection vector *)
(* ===================================================================== *)

Lemma in_place_at_trans i cs1 cs2 cs3 :
  in_place_at i cs1 cs2 -> in_place_at i cs2 cs3 -> in_place_at i cs1 cs3.
Proof.
  intros H12 H23. induction H23 as [|cs2 cs3 c c' _ IH Hc Hstep].
  - exact H12.
  - eapply ipa_step; eauto.
Qed.

Lemma in_place_at_one i cs c c' :
  cs !! i = Some c -> field_step c c' -> in_place_at i cs (<[i := c']> cs).
Proof. intros Hc Hstep. eapply ipa_step; [apply ipa_refl | exact Hc | exact Hstep]. Qed.

Lemma in_place_at_length i cs cs' :
  in_place_at i cs cs' -> length cs' = length cs.
Proof.
  induction 1 as [|cs cs' c c' _ IH _ _]; [reflexivity |].
  rewrite length_insert. exact IH.
Qed.

Lemma in_place_at_others i cs cs' j :
  in_place_at i cs cs' -> j <> i -> cs' !! j = cs !! j.
Proof.
  intros H Hne. induction H as [|cs cs' c c' _ IH _ _]; [reflexivity |].
  rewrite list_lookup_insert_ne by congruence. exact IH.
Qed.

Lemma field_step_inv c c' : field_step c c' -> conn_inv c -> conn_inv c'.
Proof.
  unfold conn_inv. intros Hstep Hinv.
  destruct Hstep as [c b | c name Hreg Hvalid | c]; cbn; try exact Hinv.
  split; [|reflexivity]. intros _ ->. vm_compute in Hvalid. discriminate.
Qed.

Lemma in_place_at_inv i cs cs' :
  in_place_at i cs cs' -> Forall conn_inv cs -> Forall conn_inv cs'.
Proof.
  intros H Hinv. induction H as [|cs cs' c c' _ IH Hc Hstep]; [exact Hinv |].
  specialize (IH Hinv). apply Forall_insert; [exact IH |].
  eapply field_step_inv; [exact Hstep |].
  eapply Forall_lookup_1; [exact IH | exact Hc].
Qed.

(** A nickname that is set survives every in-place change of a connection
    that satisfies the invariant. *)
Lemma field_step_nick c c' :
  field_step c c' -> conn_inv c -> Server.nick c <> [] ->
  Server.nick c' = Server.nick c /\ Server.registered c' = Server.registered c.
Proof.
  unfold conn_inv. intros Hstep Hinv Hset.
  destruct Hstep as [c b | c name Hreg Hvalid | c]; cbn; try (split; reflexivity).
  apply Hinv in Hset. congruence.
Qed.

Lemma in_place_at_nick i cs cs' c :
  in_place_at i cs cs' -> cs !! i = Some c -> conn_inv c -> Server.nick c <> [] ->
  exists c', cs' !! i = Some c'
             /\ Server.nick c' = Server.nick c
             /\ Server.registered c' = Server.registered c.
Proof.
  intros H Hc Hinv Hset. induction H as [|cs cs' d d' _ IH Hd Hstep].
  - exists c. auto.
  - destruct (IH Hc) as (c' & Hc' & Hn & Hr).
    rewrite Hd in Hc'. injection Hc' as ->.
    exists d'. split.
    + apply list_lookup_insert_eq. eapply lookup_lt_Some. exact Hd.
    + assert (Hinv' : conn_inv c') by (unfold conn_inv in *; rewrite Hn, Hr; exact Hinv).
      destruct (field_step_nick c' d' Hstep Hinv') as [Hn' Hr']; [congruence |].
      split; congruence.
Qed.

Section ServerEvolution.

Import Server.

Variable net_send : trace -> Z -> bytes -> Z.
Variable net_recv : trace -> Z -> Z * bytes.

Lemma send_response_prefix f m tr : tr `prefix_of` send_response net_send f m tr.
Proof.
  unfold Server.send_response.
  destruct (net_send tr f m <? 0); [rewrite <- app_assoc |]; apply prefix_app_r; reflexivity.
Qed.

Lemma broadcast_prefix sfd m dsts tr : tr `prefix_of` broadcast net_send sfd m dsts tr.
Proof.
  unfold Server.broadcast. revert tr.
  induction dsts as [|d dsts IH]; intros tr; cbn [foldl]; [reflexivity |].
  etrans; [|apply IH].
  destruct ((0 <=? fd d) && negb (fd d =? sfd)); [apply send_response_prefix | reflexivity].
Qed.

Lemma handle_line_in_place i line st :
  in_place_at i (clients st) (clients (handle_line net_send i line st)).
Proof.
  unfold Server.handle_line.
  destruct (clients st !! i) as [c|] eqn:Hc; [|apply ipa_refl].
  destruct (registered c) eqn:Hreg; cbn [negb].
  - destruct (rfind_at0 (lit "MSG ") line); [|apply ipa_refl].
    destruct (255 <? length (chomp (substr_from line 4)))%nat; apply ipa_refl.
  - destruct (rfind_at0 (lit "NICK ") line); [|apply ipa_refl].
    destruct (is_valid_nick (substr_from line 5)) eqn:Hvalid; [|apply ipa_refl].
    cbn [clients]. apply in_place_at_one with (c := c); [exact Hc |].
    apply fs_register; assumption.
Qed.

Lemma handle_line_prefix i line st :
  log st `prefix_of` log (handle_line net_send i line st).
Proof.
  unfold Server.handle_line.
  destruct (clients st !! i) as [c|]; [|reflexivity].
  destruct (registered c); cbn [negb].
  - destruct (rfind_at0 (lit "MSG ") line); [|apply send_response_prefix].
    destruct (255 <? length (chomp (substr_from line 4)))%nat;
      [apply send_response_prefix | apply broadcast_prefix].
  - destruct (rfind_at0 (lit "NICK ") line); [|apply send_response_prefix].
    destruct (is_valid_nick (substr_from line 5)); [|apply send_response_prefix].
    cbn [clients log]. etrans; [apply send_response_prefix | apply prefix_app_r; reflexivity].
Qed.

Lemma process_loop_in_place fuel i st :
  in_place_at i (clients st) (clients (process_loop net_send fuel i st)).
Proof.
  revert st. induction fuel as [|fuel IH]; intros st; cbn [process_loop]; [apply ipa_refl |].
  destruct (clients st !! i) as [c|] eqn:Hc; [|apply ipa_refl].
  destruct (next_line (inbuf c)) as [[line rest]|]; [|apply ipa_refl].
  eapply in_place_at_trans; [|apply IH].
  eapply in_place_at_trans; [|apply handle_line_in_place].
  cbn [clients]. apply in_place_at_one with (c := c); [exact Hc | apply fs_buffer].
Qed.

Lemma process_loop_prefix fuel i st :
  log st `prefix_of` log (process_loop net_send fuel i st).
Proof.
  revert st. induction fuel as [|fuel IH]; intros st; cbn [process_loop]; [reflexivity |].
  destruct (clients st !! i) as [c|]; [|reflexivity].
  destruct (next_line (inbuf c)) as [[line rest]|]; [|reflexivity].
  etrans; [|apply IH]. etrans; [|apply handle_line_prefix]. reflexivity.
Qed.

Lemma process_client_data_in_place i st :
  in_place_at i (clients st) (clients (process_client_data net_send i st)).
Proof.
  unfold Server.process_client_data.
  destruct (clients st !! i); [apply process_loop_in_place | apply ipa_refl].
Qed.

Lemma process_client_data_prefix i st :
  log st `prefix_of` log (process_client_data net_send i st).
Proof.
  unfold Server.process_client_data.
  destruct (clients st !! i); [apply process_loop_prefix | reflexivity].
Qed.

Lemma recv_into_in_place i st :
  in_place_at i (clients st) (clients (snd (recv_into net_recv i st))).
Proof.
  unfold Server.recv_into.
  destruct (clients st !! i) as [c|] eqn:Hc; [|apply ipa_refl].
  destruct (net_recv (log st) (fd c)) as [n buf].
  destruct (0 <? n); cbn [snd clients]; [|apply ipa_refl].
  apply in_place_at_one with (c := c); [exact Hc | apply fs_buffer].
Qed.

Lemma recv_into_prefix i st :
  log st `prefix_of` log (snd (recv_into net_recv i st)).
Proof.
  unfold Server.recv_into.
  destruct (clients st !! i) as [c|]; [|reflexivity].
  destruct (net_recv (log st) (fd c)) as [n buf].
  destruct (0 <? n); cbn [snd log]; apply prefix_app_r; reflexivity.
Qed.

Lemma drop_client_in_place i msg st marks :
  in_place_at i (clients st) (clients (fst (drop_client i msg st marks))).
Proof.
  unfold Server.drop_client.
  destruct (clients st !! i) as [c|] eqn:Hc; [|apply ipa_refl].
  cbn [fst clients]. apply in_place_at_one with (c := c); [exact Hc | apply fs_mark].
Qed.

Lemma drop_client_prefix i msg st marks :
  log st `prefix_of` log (fst (drop_client i msg st marks)).
Proof.
  unfold Server.drop_client.
  destruct (clients st !! i) as [c|]; [|reflexivity].
  cbn [fst log]. apply prefix_app_r; reflexivity.
Qed.

Lemma pass_body_in_place ready i st marks :
  in_place_at i (clients st) (clients (fst (pass_body net_send net_recv ready i st marks))).
Proof.
  unfold Server.pass_body.
  destruct (clients st !! i) as [c|] eqn:Hc; [|apply ipa_refl].
  destruct (fd c <? 0); [apply ipa_refl |].
  destruct (negb (ready (fd c))); [apply ipa_refl |].
  pose proof (recv_into_in_place i st) as Hrecv.
  destruct (recv_into net_recv i st) as [n st1]. cbn [snd] in Hrecv.
  destruct (n =? 0); [|destruct (n <? 0)].
  - eapply in_place_at_trans; [exact Hrecv | apply drop_client_in_place].
  - eapply in_place_at_trans; [exact Hrecv | apply drop_client_in_place].
  - cbn [fst]. eapply in_place_at_trans; [exact Hrecv | apply process_client_data_in_place].
Qed.

Lemma pass_body_prefix ready i st marks :
  log st `prefix_of` log (fst (pass_body net_send net_recv ready i st marks)).
Proof.
  unfold Server.pass_body.
  destruct (clients st !! i) as [c|]; [|reflexivity].
  destruct (fd c <? 0); [reflexivity |].
  destruct (negb (ready (fd c))); [reflexivity |].
  pose proof (recv_into_prefix i st) as Hrecv.
  destruct (recv_into net_recv i st) as [n st1]. cbn [snd] in Hrecv.
  destruct (n =? 0); [|destruct (n <? 0)].
  - etrans; [exact Hrecv | apply drop_client_prefix].
  - etrans; [exact Hrecv | apply drop_client_prefix].
  - cbn [fst]. etrans; [exact Hrecv | apply process_client_data_prefix].
Qed.

End ServerEvolution.

(* ===================================================================== *)
(** ** The framer inside [process_client_data] *)
(* ===================================================================== *)

Section FramerInLoop.

Import Server.

Variable net_send : trace -> Z -> bytes -> Z.

Lemma broadcast_fds sfd m dsts dsts' tr :
  map fd dsts = map fd dsts' ->
  broadcast net_send sfd m dsts tr = broadcast net_send sfd m dsts' tr.
Proof.
  unfold Server.broadcast. revert dsts' tr.
  induction dsts as [|d dsts IH]; intros [|d' dsts'] tr Hfds; cbn in Hfds;
    try discriminate; [reflexivity |].
  injection Hfds as Hd Hfds. cbn [foldl]. rewrite Hd. apply IH. exact Hfds.
Qed.

Lemma map_fd_insert cs i c c' :
  cs !! i = Some c -> fd c' = fd c -> map fd (<[i := c']> cs) = map fd cs.
Proof.
  revert i. induction cs as [|d cs IH]; intros [|i] Hc Hfd; cbn in *;
    try discriminate.
  - injection Hc as ->. rewrite Hfd. reflexivity.
  - f_equal. apply IH; assumption.
Qed.

Lemma set_inbuf_at_same i st c :
  clients st !! i = Some c -> set_inbuf_at i (inbuf c) st = st.
Proof.
  intros Hc. unfold set_inbuf_at. rewrite Hc.
  replace (set_inbuf c (inbuf c)) with c by (destruct c; reflexivity).
  rewrite list_insert_id by exact Hc. destruct st; reflexivity.
Qed.

Lemma set_inbuf_at_twice i b b' st :
  set_inbuf_at i b (set_inbuf_at i b' st) = set_inbuf_at i b st.
Proof.
  unfold set_inbuf_at at 2.
  destruct (clients st !! i) as [c|] eqn:Hc; [|reflexivity].
  unfold set_inbuf_at. cbn [clients log].
  rewrite list_lookup_insert_eq by (eapply lookup_lt_Some; exact Hc).
  rewrite Hc, list_insert_insert_eq. reflexivity.
Qed.

Lemma set_inbuf_at_lookup i b st c :
  clients st !! i = Some c -> clients (set_inbuf_at i b st) !! i = Some (set_inbuf c b).
Proof.
  intros Hc. unfold set_inbuf_at. rewrite Hc. cbn [clients].
  apply list_lookup_insert_eq. eapply lookup_lt_Some. exact Hc.
Qed.

(** The state machine neither reads nor writes the accumulator. *)
Lemma handle_line_set_inbuf i line b st :
  handle_line net_send i line (set_inbuf_at i b st)
  = set_inbuf_at i b (handle_line net_send i line st).
Proof.
  destruct (clients st !! i) as [c|] eqn:Hc.
  2:{ unfold set_inbuf_at at 1. rewrite Hc. unfold Server.handle_line. rewrite Hc.
      unfold set_inbuf_at. rewrite Hc. reflexivity. }
  assert (Hlt : (i < length (clients st))%nat) by (eapply lookup_lt_Some; exact Hc).
  unfold Server.handle_line.
  rewrite (set_inbuf_at_lookup i b st c Hc), Hc.
  unfold set_inbuf_at at 1 2 3 4 5 6 7 8. rewrite Hc. cbn [clients log registered set_inbuf fd nick].
  destruct (registered c); cbn [negb].
  - destruct (rfind_at0 (lit "MSG ") line).
    + destruct (255 <? length (chomp (substr_from line 4)))%nat.
      * unfold set_inbuf_at. cbn [clients log]. rewrite Hc. reflexivity.
      * unfold set_inbuf_at. cbn [clients log]. rewrite Hc.
        f_equal. apply broadcast_fds.
        apply map_fd_insert with (c := c); [exact Hc | reflexivity].
    + unfold set_inbuf_at. cbn [clients log]. rewrite Hc. reflexivity.
  - destruct (rfind_at0 (lit "NICK ") line).
    + destruct (is_valid_nick (substr_from line 5)).
      * unfold set_inbuf_at. cbn [clients log].
        rewrite list_lookup_insert_eq by exact Hlt.
        rewrite !list_insert_insert_eq. reflexivity.
      * unfold set_inbuf_at. cbn [clients log]. rewrite Hc. reflexivity.
    + unfold set_inbuf_at. cbn [clients log]. rewrite Hc. reflexivity.
Qed.

Lemma handle_lines_set_inbuf i lines b st :
  handle_lines net_send i lines (set_inbuf_at i b st)
  = set_inbuf_at i b (handle_lines net_send i lines st).
Proof.
  unfold handle_lines. revert st.
  induction lines as [|line lines IH]; intros st; cbn [foldl]; [reflexivity |].
  rewrite handle_line_set_inbuf. apply IH.
Qed.

(** [process_client_data] is the state machine run over the lines the
    framer takes out of the accumulator, which then holds what the framer
    left. *)
Lemma process_loop_frames fuel i st c :
  clients st !! i = Some c ->
  process_loop net_send fuel i st
  = set_inbuf_at i (snd (frame fuel (inbuf c)))
      (handle_lines net_send i (fst (frame fuel (inbuf c))) st).
Proof.
  revert st c. induction fuel as [|fuel IH]; intros st c Hc; cbn [process_loop frame].
  - cbn. symmetry. apply set_inbuf_at_same. exact Hc.
  - rewrite Hc. destruct (next_line (inbuf c)) as [[line rest]|] eqn:Hnext.
    + change (mkState (<[i := set_inbuf c rest]> (clients st)) (log st))
        with (match Some c with
              | Some c => mkState (<[i := set_inbuf c rest]> (clients st)) (log st)
              | None => st
              end).
      rewrite <- Hc. fold (set_inbuf_at i rest st).
      rewrite handle_line_set_inbuf.
      destruct (clients (handle_line net_send i line st) !! i) as [c1|] eqn:Hc1.
      * rewrite (IH _ (set_inbuf c1 rest)) by (apply set_inbuf_at_lookup; exact Hc1).
        cbn [inbuf set_inbuf].
        destruct (frame fuel rest) as [ls r]. cbn [fst snd].
        rewrite handle_lines_set_inbuf, set_inbuf_at_twice. reflexivity.
      * exfalso. apply lookup_ge_None in Hc1. apply lookup_lt_Some in Hc.
        pose proof (in_place_at_length _ _ _ (handle_line_in_place net_send i line st))
          as Hlen.
        lia.
    + cbn. symmetry. apply set_inbuf_at_same. exact Hc.
Qed.

Lemma process_client_data_frames i st c :
  clients st !! i = Some c ->
  process_client_data net_send i st
  = set_inbuf_at i (snd (frame_all (inbuf c)))
      (handle_lines net_send i (fst (frame_all (inbuf c))) st).
Proof.
  intros Hc. unfold Server.process_client_data. rewrite Hc.
  apply process_loop_frames. exact Hc.
Qed.

(** The fuel of [process_client_data] is enough: more turns would find no
    line to take out. *)
Lemma process_client_data_fuel fuel i st c :
  clients st !! i = Some c -> (length (inbuf c) <= fuel)%nat ->
  process_loop net_send fuel i st = process_client_data net_send i st.
Proof.
  intros Hc Hfuel. rewrite (process_client_data_frames i st c Hc).
  rewrite (process_loop_frames fuel i st c Hc).
  unfold frame_all. rewrite (frame_fuel fuel (length (inbuf c))) by lia. reflexivity.
Qed.

Lemma handle_lines_in_place i lines st :
  in_place_at i (clients st) (clients (handle_lines net_send i lines st)).
Proof.
  unfold handle_lines. revert st.
  induction lines as [|line lines IH]; intros st; cbn [foldl]; [apply ipa_refl |].
  eapply in_place_at_trans; [apply handle_line_in_place | apply IH].
Qed.

Lemma handle_lines_app i ls1 ls2 st :
  handle_lines net_send i (ls1 ++ ls2) st
  = handle_lines net_send i ls2 (handle_lines net_send i ls1 st).
Proof. unfold handle_lines. apply foldl_app. Qed.

Lemma handle_lines_lookup i lines st c :
  clients st !! i = Some c -> is_Some (clients (handle_lines net_send i lines st) !! i).
Proof.
  intros Hc. apply lookup_lt_is_Some.
  rewrite (in_place_at_length _ _ _ (handle_lines_in_place i lines st)).
  eapply lookup_lt_Some. exact Hc.
Qed.

Lemma deliver_frames i chunk st c :
  clients st !! i = Some c ->
  deliver net_send i chunk st
  = set_inbuf_at i (snd (feed (inbuf c) chunk))
      (handle_lines net_send i (fst (feed (inbuf c) chunk)) st).
Proof.
  intros Hc. unfold deliver. rewrite Hc.
  rewrite (process_client_data_frames i _ (set_inbuf c (inbuf c ++ chunk)))
    by (apply set_inbuf_at_lookup; exact Hc).
  cbn [inbuf set_inbuf]. unfold feed.
  rewrite handle_lines_set_inbuf, set_inbuf_at_twice. reflexivity.
Qed.

Lemma deliver_chunks_frames i chunks st c :
  clients st !! i = Some c ->
  foldl (fun s chunk => deliver net_send i chunk s) st chunks
  = set_inbuf_at i (snd (feed_chunks (inbuf c) chunks))
      (handle_lines net_send i (fst (feed_chunks (inbuf c) chunks)) st).
Proof.
  revert st c. induction chunks as [|chunk chunks IH]; intros st c Hc.
  - cbn. symmetry. apply set_inbuf_at_same. exact Hc.
  - cbn [foldl feed_chunks]. rewrite (deliver_frames i chunk st c Hc).
    destruct (feed (inbuf c) chunk) as [ls1 r1]. cbn [fst snd].
    destruct (handle_lines_lookup i ls1 st c Hc) as [c1 Hc1].
    rewrite (IH _ (set_inbuf c1 r1)) by (apply set_inbuf_at_lookup; exact Hc1).
    cbn [inbuf set_inbuf].
    destruct (feed_chunks r1 chunks) as [ls2 r2]. cbn [fst snd].
    rewrite handle_lines_set_inbuf, set_inbuf_at_twice, handle_lines_app.
    reflexivity.
Qed.

(** X11. The server sees the byte stream of a connection, not its cuts:
    for a connection whose accumulator holds no complete line, the readiness
    events for the chunks leave the server, vector and trace, where one event
    for their concatenation does. *)
Lemma deliver_chunk_boundary_independence i chunks st c :
  clients st !! i = Some c -> frame_all (inbuf c) = ([], inbuf c) ->
  foldl (fun s chunk => deliver net_send i chunk s) st chunks
  = deliver net_send i (concat chunks) st.
Proof.
  intros Hc Hacc.
  rewrite (deliver_chunks_frames i chunks st c Hc), (deliver_frames i _ st c Hc).
  rewrite (feed_chunks_from _ chunks Hacc). reflexivity.
Qed.

End FramerInLoop.

(* ===================================================================== *)
(** ** The readiness pass and the deferred removal *)
(* ===================================================================== *)

Lemma int_of_size_t_small (x : nat) :
  Z.of_nat x < 2 ^ 31 -> int_of_size_t x = Z.of_nat x.
Proof.
  intros Hx. unfold int_of_size_t.
  rewrite Z.mod_small by lia.
  destruct (Z.of_nat x <? 2 ^ 31) eqn:Hlt; [reflexivity | lia].
Qed.

Lemma unmarked_from_app {A} marked base (a b : list A) :
  unmarked_from marked base (a ++ b)
  = unmarked_from marked base a ++ unmarked_from marked (base + length a) b.
Proof.
  revert base. induction a as [|x a IH]; intros base; cbn.
  - rewrite Nat.add_0_r. reflexivity.
  - rewrite IH, Nat.add_succ_r. destruct (marked base); reflexivity.
Qed.

Lemma insert_desc_smallest x l :
  Forall (fun y => x < y) l -> Server.insert_desc x l = l ++ [x].
Proof.
  induction 1 as [|y l Hy _ IH]; cbn; [reflexivity |].
  assert (Hlt : (y <? x) = false) by lia. rewrite Hlt, IH. reflexivity.
Qed.

Lemma sort_desc_marks marked a n :
  Server.sort_desc (map Z.of_nat (List.filter marked (seq a n)))
  = map Z.of_nat (rev (List.filter marked (seq a n))).
Proof.
  revert a. induction n as [|n IH]; intros a; [reflexivity |].
  cbn [seq List.filter]. destruct (marked a); [|apply IH].
  cbn [map rev]. unfold Server.sort_desc in *. cbn [foldr].
  rewrite IH, insert_desc_smallest.
  - rewrite map_app. reflexivity.
  - apply Forall_forall. intros y Hy. apply list_elem_of_In in Hy.
    apply in_map_iff in Hy as (m & <- & Hm).
    apply in_rev, filter_In in Hm as [Hm _]. apply in_seq in Hm. lia.
Qed.

Section ReadinessPass.

Import Server.

Variable net_send : trace -> Z -> bytes -> Z.
Variable net_recv : trace -> Z -> Z * bytes.
Variable ready : Z -> bool.

Lemma pass_body_length i st marks :
  length (clients (fst (pass_body net_send net_recv ready i st marks)))
  = length (clients st).
Proof.
  eapply in_place_at_length, pass_body_in_place.
Qed.

(** The mark a turn of the loop leaves. *)
Lemma pass_body_marks i st marks :
  snd (pass_body net_send net_recv ready i st marks)
  = if match clients st !! i with
       | Some c => (0 <=? fd c) && ready (fd c) && (fst (net_recv (log st) (fd c)) <=? 0)
       | None => false
       end
    then marks ++ [int_of_size_t i] else marks.
Proof.
  unfold Server.pass_body, Server.recv_into, Server.drop_client.
  destruct (clients st !! i) as [c|] eqn:Hc; [|reflexivity].
  destruct (fd c <? 0) eqn:Hfd.
  { assert (H0 : (0 <=? fd c) = false) by lia. rewrite H0. reflexivity. }
  assert (H0 : (0 <=? fd c) = true) by lia. rewrite H0. cbn [andb].
  destruct (ready (fd c)); cbn [negb andb]; [|reflexivity].
  destruct (net_recv (log st) (fd c)) as [n buf]. cbn [fst].
  destruct (0 <? n) eqn:Hpos.
  - assert (H1 : (n =? 0) = false) by lia. assert (H2 : (n <? 0) = false) by lia.
    assert (H3 : (n <=? 0) = false) by lia. rewrite H1, H2, H3. reflexivity.
  - assert (H3 : (n <=? 0) = true) by lia. rewrite H3.
    destruct (n =? 0) eqn:H1.
    + cbn [clients]. rewrite Hc. reflexivity.
    + assert (H2 : (n <? 0) = true) by lia. rewrite H2.
      cbn [clients]. rewrite Hc. reflexivity.
Qed.

Lemma pass_loop_unfold k i st marks :
  pass_loop net_send net_recv (S k) ready i st marks
  = if (i <? length (clients st))%nat
    then let '(st', m') := pass_body net_send net_recv ready i st marks in
         pass_loop net_send net_recv k ready (S i) st' m'
    else (st, marks).
Proof. reflexivity. Qed.

(** A turn of the pass whose read brings bytes is a [deliver] of those
    bytes. *)
Lemma pass_body_delivers i st marks c n buf :
  clients st !! i = Some c -> 0 <= fd c -> ready (fd c) = true ->
  net_recv (log st) (fd c) = (n, buf) -> 0 < n ->
  pass_body net_send net_recv ready i st marks
  = (deliver net_send i (take (Z.to_nat n) buf) (emit st [EvRecv (fd c) n buf]), marks).
Proof.
  intros Hc Hfd Hready Hrecv Hn.
  unfold Server.pass_body, Server.recv_into, deliver, set_inbuf_at, emit.
  cbn [clients log]. rewrite Hc, Hrecv, Hready. cbn [negb].
  assert (H0 : (fd c <? 0) = false) by lia.
  assert (H1 : (0 <? n) = true) by lia.
  assert (H2 : (n =? 0) = false) by lia.
  assert (H3 : (n <? 0) = false) by lia.
  rewrite H0, H1, H2, H3. reflexivity.
Qed.

(** One more turn of fuel is one more turn of the loop at the end. *)
Lemma pass_loop_S k i st marks :
  pass_loop net_send net_recv (S k) ready i st marks
  = let '(s, m) := pass_loop net_send net_recv k ready i st marks in
    if (i + k <? length (clients s))%nat
    then pass_body net_send net_recv ready (i + k) s m
    else (s, m).
Proof.
  revert i st marks. induction k as [|k IH]; intros i st marks.
  - cbn [pass_loop]. rewrite Nat.add_0_r.
    destruct (i <? length (clients st))%nat; [|reflexivity].
    destruct (pass_body net_send net_recv ready i st marks). reflexivity.
  - rewrite (pass_loop_unfold (S k)), (pass_loop_unfold k).
    destruct (i <? length (clients st))%nat eqn:Hi.
    + destruct (pass_body net_send net_recv ready i st marks) as [st' m'].
      rewrite IH. rewrite <- plus_n_Sm. reflexivity.
    + apply Nat.ltb_ge in Hi.
      assert (Hk : (i + S k <? length (clients st))%nat = false)
        by (apply Nat.ltb_ge; lia).
      rewrite Hk. reflexivity.
Qed.

Lemma pass_loop_length k i st marks :
  length (clients (fst (pass_loop net_send net_recv k ready i st marks)))
  = length (clients st).
Proof.
  induction k as [|k IH]; [reflexivity |].
  rewrite pass_loop_S.
  destruct (pass_loop net_send net_recv k ready i st marks) as [s m].
  cbn [fst] in IH.
  destruct (i + k <? length (clients s))%nat; [|exact IH].
  rewrite pass_body_length. exact IH.
Qed.

(** The turns so far have not touched the entries still to come. *)
Lemma pass_loop_later k i st marks j :
  (i + k <= j)%nat ->
  clients (fst (pass_loop net_send net_recv k ready i st marks)) !! j = clients st !! j.
Proof.
  induction k as [|k IH]; intros Hj; [reflexivity |].
  rewrite pass_loop_S. specialize (IH ltac:(lia)).
  destruct (pass_loop net_send net_recv k ready i st marks) as [s m].
  cbn [fst] in IH.
  destruct (i + k <? length (clients s))%nat; [|exact IH].
  rewrite (in_place_at_others (i + k) (clients s)); [exact IH | | lia].
  apply pass_body_in_place.
Qed.

Lemma pass_loop_prefix_step k i st marks :
  log (fst (pass_loop net_send net_recv k ready i st marks))
    `prefix_of` log (fst (pass_loop net_send net_recv (S k) ready i st marks)).
Proof.
  rewrite pass_loop_S.
  destruct (pass_loop net_send net_recv k ready i st marks) as [s m]. cbn [fst].
  destruct (i + k <? length (clients s))%nat; [apply pass_body_prefix | reflexivity].
Qed.

Lemma pass_loop_prefix_le k k' i st marks :
  (k <= k')%nat ->
  log (fst (pass_loop net_send net_recv k ready i st marks))
    `prefix_of` log (fst (pass_loop net_send net_recv k' ready i st marks)).
Proof.
  induction 1 as [|k' _ IH]; [reflexivity |].
  etrans; [exact IH | apply pass_loop_prefix_step].
Qed.

(** The marks after [k] turns: the indices below [k] whose read failed, in
    increasing order. *)
Lemma pass_loop_marks k st :
  (k <= length (clients st))%nat -> Z.of_nat (length (clients st)) < 2 ^ 31 ->
  snd (pass_loop net_send net_recv k ready 0 st [])
  = map Z.of_nat (List.filter (read_fails_at net_send net_recv ready st) (seq 0 k)).
Proof.
  intros Hk Hsmall. induction k as [|k IH]; [reflexivity |].
  specialize (IH ltac:(lia)).
  rewrite pass_loop_S, seq_S, List.filter_app, map_app. cbn [Nat.add List.filter].
  unfold read_fails_at at 2.
  pose proof (pass_loop_length k 0 st []) as Hlen.
  destruct (pass_loop net_send net_recv k ready 0 st []) as [s m].
  cbn [fst snd] in *. subst m.
  assert (Hlt : (k <? length (clients s))%nat = true) by (apply Nat.ltb_lt; lia).
  rewrite Hlt, pass_body_marks.
  destruct (match clients s !! k with Some c => _ | None => false end).
  - rewrite int_of_size_t_small by lia. reflexivity.
  - cbn. rewrite app_nil_r. reflexivity.
Qed.

(** More fuel than the length of the vector changes nothing: the loop has
    come to its end. *)
Lemma pass_loop_done k st :
  (length (clients st) <= k)%nat ->
  pass_loop net_send net_recv k ready 0 st []
  = pass_loop net_send net_recv (length (clients st)) ready 0 st [].
Proof.
  induction 1 as [|k Hk IH]; [reflexivity |].
  rewrite pass_loop_S, IH.
  pose proof (pass_loop_length (length (clients st)) 0 st []) as Hlen.
  destruct (pass_loop net_send net_recv (length (clients st)) ready 0 st []) as [s m].
  cbn [fst] in Hlen.
  assert (Hge : (0 + k <? length (clients s))%nat = false) by (apply Nat.ltb_ge; lia).
  rewrite Hge. reflexivity.
Qed.

Lemma cleanup_step_prefix st idx : log st `prefix_of` log (cleanup_step st idx).
Proof.
  unfold Server.cleanup_step.
  destruct ((0 <=? idx) && (idx <? int_of_size_t (length (clients st)))); [|reflexivity].
  destruct (clients st !! Z.to_nat idx) as [c|]; [|reflexivity].
  cbn [log]. destruct (0 <=? fd c); [apply prefix_app_r |]; reflexivity.
Qed.

Lemma cleanup_prefix marks st : log st `prefix_of` log (cleanup marks st).
Proof.
  unfold Server.cleanup. destruct marks as [|m marks]; [reflexivity |].
  generalize (sort_desc (m :: marks)). intros l. revert st.
  induction l as [|idx l IH]; intros st; cbn [foldl]; [reflexivity |].
  etrans; [apply cleanup_step_prefix | apply IH].
Qed.

(** Erasing the marked indices below [n], largest first, leaves the
    unmarked entries in their order. *)
Lemma cleanup_erases marked n st :
  (n <= length (clients st))%nat -> Z.of_nat (length (clients st)) < 2 ^ 31 ->
  clients (foldl cleanup_step st (map Z.of_nat (rev (List.filter marked (seq 0 n)))))
  = unmarked_from marked 0 (take n (clients st)) ++ drop n (clients st).
Proof.
  revert st. induction n as [|n IH]; intros st Hn Hsmall.
  - cbn. rewrite drop_0. reflexivity.
  - destruct (clients st !! n) as [x|] eqn:Hx;
      [|apply lookup_ge_None in Hx; lia].
    rewrite seq_S, List.filter_app, rev_app_distr. cbn [Nat.add List.filter].
    rewrite (take_S_r _ _ x Hx), unmarked_from_app. cbn [unmarked_from].
    rewrite length_take, Nat.min_l by lia. cbn [Nat.add].
    destruct (marked n) eqn:Hm; cbn [rev app map foldl].
    + unfold cleanup_step at 2.
      rewrite int_of_size_t_small by lia.
      assert (Hguard : (0 <=? Z.of_nat n) && (Z.of_nat n <? Z.of_nat (length (clients st))) = true)
        by (apply andb_true_iff; split; lia).
      rewrite Hguard, Nat2Z.id, Hx.
      rewrite IH; cbn [clients].
      * assert (Htake : length (take n (clients st)) = n)
          by (rewrite length_take; lia).
        rewrite app_nil_r, delete_take_drop.
        rewrite take_app_length', drop_app_length' by (symmetry; exact Htake).
        reflexivity.
      * rewrite length_delete by (rewrite Hx; eauto). lia.
      * rewrite length_delete by (rewrite Hx; eauto). lia.
    + rewrite IH by lia. rewrite <- app_assoc. cbn.
      rewrite (drop_S _ x n Hx). reflexivity.
Qed.

End ReadinessPass.

Lemma cleanup_unfold marks st :
  Server.cleanup marks st = foldl Server.cleanup_step st (Server.sort_desc marks).
Proof. destruct marks; reflexivity. Qed.

(* ===================================================================== *)
(** ** The connection invariant along a run of the server *)
(* ===================================================================== *)

Section Invariant.

Import Server.

Variable net_send : trace -> Z -> bytes -> Z.
Variable net_recv : trace -> Z -> Z * bytes.
Variable net_accept : trace -> Z.
Variable net_select : trace -> select_result.
Variable sig_running : trace -> bool.

Lemma new_client_inv cfd : conn_inv (new_client cfd).
Proof. unfold conn_inv. cbn. split; [discriminate | congruence]. Qed.

Lemma accept_step_inv listenfd ready st :
  Forall conn_inv (clients st) ->
  Forall conn_inv (clients (accept_step net_send net_accept listenfd ready st)).
Proof.
  intros Hinv. unfold Server.accept_step.
  destruct (ready listenfd); [|exact Hinv].
  destruct (0 <=? net_accept (log st)); cbn [clients]; [|exact Hinv].
  apply Forall_app. split; [exact Hinv |].
  apply Forall_singleton, new_client_inv.
Qed.

Lemma pass_loop_inv k ready i st marks :
  Forall conn_inv (clients st) ->
  Forall conn_inv (clients (fst (pass_loop net_send net_recv k ready i st marks))).
Proof.
  intros Hinv. induction k as [|k IH]; [exact Hinv |].
  rewrite pass_loop_S.
  destruct (pass_loop net_send net_recv k ready i st marks) as [s m]. cbn [fst] in IH.
  destruct (i + k <? length (clients s))%nat; [|exact IH].
  eapply in_place_at_inv; [apply pass_body_in_place | exact IH].
Qed.

Lemma cleanup_inv marks st :
  Forall conn_inv (clients st) -> Forall conn_inv (clients (cleanup marks st)).
Proof.
  rewrite cleanup_unfold. generalize (sort_desc marks). intros l. revert st.
  induction l as [|idx l IH]; intros st Hinv; cbn [foldl]; [exact Hinv |].
  apply IH. unfold Server.cleanup_step.
  destruct ((0 <=? idx) && (idx <? int_of_size_t (length (clients st)))); [|exact Hinv].
  destruct (clients st !! Z.to_nat idx); [|exact Hinv].
  cbn [clients]. apply Forall_delete. exact Hinv.
Qed.

Lemma iteration_inv listenfd st :
  Forall conn_inv (clients st) ->
  Forall conn_inv
    (clients (fst (iteration net_send net_recv net_accept net_select listenfd st))).
Proof.
  intros Hinv. unfold Server.iteration.
  destruct (sel_rc (net_select (log st)) <? 0).
  - destruct (sel_eintr (net_select (log st))); exact Hinv.
  - unfold readiness_pass.
    pose proof (pass_loop_inv
      (length (clients (accept_step net_send net_accept listenfd
                          (sel_ready (net_select (log st)))
                          (emit st [EvSelect (sel_rc (net_select (log st)))]))))
      (sel_ready (net_select (log st))) 0
      (accept_step net_send net_accept listenfd (sel_ready (net_select (log st)))
         (emit st [EvSelect (sel_rc (net_select (log st)))])) []) as Hpass.
    destruct (pass_loop _ _ _ _ _ _ _) as [st2 to_remove]. cbn [fst] in *.
    apply cleanup_inv, Hpass, accept_step_inv. exact Hinv.
Qed.

Lemma serve_inv turns listenfd st :
  Forall conn_inv (clients st) ->
  Forall conn_inv
    (clients (fst (serve net_send net_recv net_accept net_select sig_running
                     turns listenfd st))).
Proof.
  revert st. induction turns as [|turns IH]; intros st Hinv; cbn [serve]; [exact Hinv |].
  destruct (sig_running (log st)); [|exact Hinv].
  pose proof (iteration_inv listenfd st Hinv) as Hit.
  destruct (iteration net_send net_recv net_accept net_select listenfd st) as [st' go_on].
  cbn [fst] in Hit. destruct go_on; [apply IH; exact Hit | exact Hit].
Qed.

(** C9. Every connection of the server satisfies: registered exactly when
    its nickname is a non-empty string.  This holds for a connection as
    [accept] creates it, it is kept when a connection is added, when bytes are
    read into an accumulator, when any line is processed and when a
    connection is marked for removal, and so it holds in every state the
    server loop reaches from the empty vector.  A nickname that is set is left
    as it is by every line processed later, on any connection. *)
Theorem C9_registered_iff_nickname_set :
  (forall turns listenfd,
      Forall conn_inv
        (clients (fst (serve net_send net_recv net_accept net_select sig_running
                         turns listenfd initial))))
  /\ (forall cfd, conn_inv (new_client cfd))
  /\ (forall listenfd ready st,
        Forall conn_inv (clients st) ->
        Forall conn_inv (clients (accept_step net_send net_accept listenfd ready st)))
  /\ (forall i st,
        Forall conn_inv (clients st) ->
        Forall conn_inv (clients (snd (recv_into net_recv i st))))
  /\ (forall i line st,
        Forall conn_inv (clients st) ->
        Forall conn_inv (clients (handle_line net_send i line st)))
  /\ (forall i msg st marks,
        Forall conn_inv (clients st) ->
        Forall conn_inv (clients (fst (drop_client i msg st marks))))
  /\ (forall i j line st c,
        Forall conn_inv (clients st) -> clients st !! j = Some c -> nick c <> [] ->
        exists c', clients (handle_line net_send i line st) !! j = Some c'
                   /\ nick c' = nick c /\ registered c' = true).
Proof.
  split; [intros turns listenfd; apply serve_inv; constructor |].
  split; [apply new_client_inv |].
  split; [apply accept_step_inv |].
  split; [intros i st; apply (in_place_at_inv i), recv_into_in_place |].
  split; [intros i line st; apply (in_place_at_inv i), handle_line_in_place |].
  split; [intros i msg st marks; apply (in_place_at_inv i), drop_client_in_place |].
  intros i j line st c Hinv Hc Hset.
  assert (Hcinv : conn_inv c) by (eapply Forall_lookup_1; eassumption).
  assert (Hreg : registered c = true) by (apply Hcinv; exact Hset).
  destruct (decide (j = i)) as [->|Hne].
  - destruct (in_place_at_nick i _ _ c (handle_line_in_place net_send i line st)
                Hc Hcinv Hset) as (c' & Hc' & Hn & Hr).
    exists c'. repeat split; congruence.
  - exists c. rewrite (in_place_at_others i (clients st)); auto.
    apply handle_line_in_place.
Qed.

End Invariant.

(* ===================================================================== *)
(** ** Worked runs *)
(* ===================================================================== *)

Example readiness_pass_sample :
  let r := Server.readiness_pass send_all recv_sample all_ready sample_state in
  snd r = [1; 2]
  /\ map Server.fd (Server.clients (fst r)) = [4; -1; -1]
  /\ Server.clients (Server.cleanup (snd r) (fst r)) = [sample_alice]
  /\ closed_of (Server.log (fst r)) = [5; 6].
Proof. vm_compute. repeat split; reflexivity. Qed.

(** C9 at the sample: the invariant after a registration. *)
Lemma C9_registered_iff_nickname_set_witness :
  Forall conn_inv
    (Server.clients (Server.handle_line send_all 1 (lit "NICK bob") sample_state)).
Proof.
  refine (proj1 (proj2 (proj2 (proj2 (proj2
    (C9_registered_iff_nickname_set send_all recv_sample (fun _ => 7)
       select_all_ready (fun _ => true))))))
    1%nat (lit "NICK bob") sample_state _).
  repeat constructor; vm_compute; congruence.
Defined.

(** C3 (what the code does).  In a room of three registered connections
    where the write to handle 5 fails, [send_response] closes handle 5 and
    the broadcast goes on to handle 6, but the entry of the failed recipient
    stays in the vector with its handle still 5: the next turn of the server
    loop removes nothing and its broadcast writes to the closed handle 5
    again. *)
Theorem C3_failed_recipient_stays_in_set :
  let st1 := Server.handle_line send_fails_on_5 0 (lit "MSG hi") sample_room in
  let st2 := fst (Server.iteration send_fails_on_5 recv_line_from_4 (fun _ => -1)
                    select_only_4 3 st1) in
  Server.log st1
  = [EvSend 5 (lit_nl "MSG alice hi") (-1); EvStderr (lit "send failed"); EvClose 5;
     EvSend 6 (lit_nl "MSG alice hi") 13]
  /\ delivered_of (Server.log st1) = [(6, lit_nl "MSG alice hi")]
  /\ Server.clients st1 = Server.clients sample_room
  /\ Server.clients st1 !! 1%nat = Some sample_bob_registered
  /\ Server.clients st2 = Server.clients sample_room
  /\ Server.log st2
     = Server.log st1
       ++ [EvSelect 1; EvRecv 4 10 (lit_nl "MSG again");
           EvSend 5 (lit_nl "MSG alice again") (-1); EvStderr (lit "send failed");
           EvClose 5; EvSend 6 (lit_nl "MSG alice again") 16].
Proof. vm_compute. repeat split; reflexivity. Qed.

(** Whatever the nickname, [main] connects and sends it: nothing on the
    way from [main] to [sendNicknameToServer] looks at
    [isNicknameValid]. *)
Lemma client_sends_any_nickname (nickname : bytes) :
  exists tr2 n,
    fst (NetworkClient.main connect_ok select_all_ready recv_greeting send_all
           console_eof clock_zero 2 [lit "client"; lit "127.0.0.1:9999"; nickname])
    = [EvConnect (lit "127.0.0.1") (lit "9999") 3;
       EvStdout (lit_nl "Connected to server at 127.0.0.1:9999");
       EvSelect 1; EvRecv 3 10 (lit_nl "HELLO 1.0");
       EvSend 3 (lit "NICK " ++ nickname ++ [LF]) n] ++ tr2.
Proof.
  eexists. eexists. cbn. reflexivity.
Qed.

(** C2 (what the code does).  The nickname [bad nick!] fails
    [isNicknameValid], and so does a nickname of 25 letters, yet [main] run
    with either connects to the server and, after the greeting, sends the
    [NICK] line with it. *)
Theorem C2_invalid_nickname_is_connected_and_sent :
  fst (NetworkClient.isNicknameValid (lit "bad nick!")) = false
  /\ fst (NetworkClient.isNicknameValid (lit "averyveryverylongnickname")) = false
  /\ NetworkClient.main connect_ok select_all_ready recv_greeting send_all
       console_eof clock_zero 2 [lit "client"; lit "127.0.0.1:9999"; lit "bad nick!"]
     = ([EvConnect (lit "127.0.0.1") (lit "9999") 3;
         EvStdout (lit_nl "Connected to server at 127.0.0.1:9999");
         EvSelect 1; EvRecv 3 10 (lit_nl "HELLO 1.0");
         EvSend 3 (lit_nl "NICK bad nick!") 15;
         EvStdout (lit_nl "Nickname sent successfully. Handshake complete.");
         EvSelect 1; EvRecv 3 10 (lit_nl "HELLO 1.0");
         EvStdout (lit_nl "HELLO 1.0");
         EvGetline None; EvClose 3],
        Some 0)
  /\ In (EvSend 3 (lit_nl "NICK averyveryverylongnickname") 31)
        (fst (NetworkClient.main connect_ok select_all_ready recv_greeting send_all
                console_eof clock_zero 2
                [lit "client"; lit "127.0.0.1:9999"; lit "averyveryverylongnickname"])).
Proof.
  vm_compute. repeat split; try reflexivity. tauto.
Qed.

(* ===================================================================== *)
(** ** Further properties: strings and addresses *)
(* ===================================================================== *)

Lemma is_eol_iff c : is_eol c = true <-> c = LF \/ c = CR.
Proof. unfold is_eol. rewrite orb_true_iff, !Ascii.eqb_eq. reflexivity. Qed.

Lemma pop_eols_split r :
  exists e, r = e ++ pop_eols r /\ Forall (fun c => c = LF \/ c = CR) e.
Proof.
  induction r as [|c r (e & He & Hall)]; cbn.
  - exists []. split; [reflexivity | constructor].
  - destruct (is_eol c) eqn:Hc.
    + exists (c :: e). split; [cbn; f_equal; exact He |].
      constructor; [apply is_eol_iff; exact Hc | exact Hall].
    + exists []. split; [reflexivity | constructor].
Qed.

Lemma pop_eols_head r c r' : pop_eols r = c :: r' -> is_eol c = false.
Proof.
  intros H. pose proof (pop_eols_idem r) as Hidem. rewrite H in Hidem.
  apply pop_eols_fixed in Hidem. exact Hidem.
Qed.

(** X1. [chomp] removes a tail made only of ['\n'] and ['\r'] bytes and
    removes all of it: what is left does not end in either. *)
Theorem chomp_strips_exactly_the_trailing_eols (s : bytes) :
  exists tail,
    s = chomp s ++ tail
    /\ Forall (fun c => c = LF \/ c = CR) tail
    /\ (forall body c, chomp s = body ++ [c] -> c <> LF /\ c <> CR).
Proof.
  unfold chomp. destruct (pop_eols_split (rev s)) as (e & He & Hall).
  exists (rev e). split; [|split].
  - rewrite <- rev_app_distr, <- He, rev_involutive. reflexivity.
  - apply Forall_forall. intros c Hc. apply list_elem_of_In, in_rev in Hc.
    rewrite Forall_forall in Hall. apply Hall, list_elem_of_In. exact Hc.
  - intros body c Hbody.
    apply (f_equal (@rev ascii)) in Hbody.
    rewrite rev_involutive, rev_unit in Hbody.
    apply pop_eols_head in Hbody.
    split; intros ->; vm_compute in Hbody; discriminate.
Qed.

Lemma rfind_char_None ch s : ServerMain.rfind_char ch s = None -> ~ In ch s.
Proof.
  induction s as [|c s IH]; cbn; [tauto |].
  destruct (ServerMain.rfind_char ch s); [discriminate |].
  destruct (Ascii.eqb c ch) eqn:Hc; [discriminate |].
  intros _ [->|Hin]; [rewrite Ascii.eqb_refl in Hc; discriminate | tauto].
Qed.

Lemma rfind_char_absent ch s : ~ In ch s -> ServerMain.rfind_char ch s = None.
Proof.
  induction s as [|c s IH]; cbn; [reflexivity |]. intros Hn.
  rewrite IH by tauto.
  destruct (Ascii.eqb c ch) eqn:Hc; [|reflexivity].
  apply Ascii.eqb_eq in Hc. tauto.
Qed.

Lemma rfind_char_Some ch s pos :
  ServerMain.rfind_char ch s = Some pos ->
  s = take pos s ++ ch :: drop (S pos) s /\ ~ In ch (drop (S pos) s).
Proof.
  revert pos. induction s as [|c s IH]; intros pos; cbn; [discriminate |].
  destruct (ServerMain.rfind_char ch s) as [p|] eqn:Hr.
  - intros H. injection H as <-. destruct (IH p eq_refl) as [Hs Hn].
    cbn. split; [f_equal; exact Hs | exact Hn].
  - destruct (Ascii.eqb c ch) eqn:Hc; [|discriminate].
    intros H. injection H as <-. apply Ascii.eqb_eq in Hc. subst c.
    cbn. rewrite drop_0. split; [reflexivity | apply rfind_char_None; exact Hr].
Qed.

Lemma rfind_char_last ch h p :
  ~ In ch p -> ServerMain.rfind_char ch (h ++ ch :: p) = Some (length h).
Proof.
  intros Hn. induction h as [|c h IH]; cbn.
  - rewrite (rfind_char_absent ch p Hn), Ascii.eqb_refl. reflexivity.
  - rewrite IH. reflexivity.
Qed.

Lemma find_char_Some ch s pos :
  find_char ch s = Some pos ->
  s = take pos s ++ ch :: drop (S pos) s /\ ~ In ch (take pos s).
Proof.
  revert pos. induction s as [|c s IH]; intros pos; cbn; [discriminate |].
  destruct (Ascii.eqb c ch) eqn:Hc.
  - intros H. injection H as <-. apply Ascii.eqb_eq in Hc. subst c.
    cbn. rewrite drop_0. split; [reflexivity | tauto].
  - destruct (find_char ch s) as [p|]; cbn; [|discriminate].
    intros H. injection H as <-. destruct (IH p eq_refl) as [Hs Hn].
    cbn. split; [f_equal; exact Hs |].
    intros [->|Hin]; [rewrite Ascii.eqb_refl in Hc; discriminate | tauto].
Qed.

Lemma find_char_first ch h p :
  ~ In ch h -> find_char ch (h ++ ch :: p) = Some (length h).
Proof.
  induction h as [|c h IH]; cbn; intros Hn.
  - rewrite Ascii.eqb_refl. reflexivity.
  - destruct (Ascii.eqb c ch) eqn:Hc.
    + apply Ascii.eqb_eq in Hc. tauto.
    + rewrite IH by tauto. reflexivity.
Qed.

Lemma find_char_absent ch s : ~ In ch s -> find_char ch s = None.
Proof.
  induction s as [|c s IH]; cbn; [reflexivity |]. intros Hn.
  destruct (Ascii.eqb c ch) eqn:Hc.
  - apply Ascii.eqb_eq in Hc. tauto.
  - rewrite IH by tauto. reflexivity.
Qed.

Lemma find_char_None ch s : find_char ch s = None -> ~ In ch s.
Proof.
  induction s as [|c s IH]; cbn; [tauto |].
  destruct (Ascii.eqb c ch) eqn:Hc; [discriminate |].
  destruct (find_char ch s); [discriminate |].
  intros _ [->|Hin]; [rewrite Ascii.eqb_refl in Hc; discriminate | tauto].
Qed.

Lemma server_split_iff src h p :
  ServerMain.split_hostport src = Some (h, p)
  <-> src = h ++ ":"%char :: p /\ h <> [] /\ p <> [] /\ ~ In ":"%char p.
Proof.
  unfold ServerMain.split_hostport, substr, substr_from. split.
  - destruct (ServerMain.rfind_char ":" src) as [pos|] eqn:Hr; [|discriminate].
    apply rfind_char_Some in Hr as [Hsrc Hn].
    rewrite drop_0, Nat.add_1_r.
    destruct (take pos src) as [|a h'] eqn:Hh; [discriminate |].
    destruct (drop (S pos) src) as [|b p'] eqn:Hp; [discriminate |].
    intros H. injection H as <- <-. auto.
  - intros (-> & Hh & Hp & Hn).
    rewrite (rfind_char_last _ h p Hn), drop_0, Nat.add_1_r.
    rewrite take_app_length.
    replace (drop (S (length h)) (h ++ ":"%char :: p)) with p
      by (change (h ++ ":"%char :: p) with (h ++ [":"%char] ++ p);
          rewrite app_assoc, drop_app_length'; [reflexivity | rewrite length_app; cbn; lia]).
    destruct h; [congruence |]. destruct p; [congruence | reflexivity].
Qed.

Lemma client_split_iff address h p :
  fst (NetworkClient.splitHostPort address) = Some (h, p)
  <-> address = h ++ ":"%char :: p /\ h <> [] /\ p <> [] /\ ~ In ":"%char h.
Proof.
  unfold NetworkClient.splitHostPort, substr, substr_from. split.
  - destruct (find_char ":" address) as [pos|] eqn:Hf; [|discriminate].
    apply find_char_Some in Hf as [Haddr Hn].
    rewrite drop_0, Nat.add_1_r.
    destruct (take pos address) as [|a h'] eqn:Hh; [discriminate |].
    destruct (drop (S pos) address) as [|b p'] eqn:Hp; [discriminate |].
    cbn [fst]. intros H. injection H as <- <-. auto.
  - intros (-> & Hh & Hp & Hn).
    rewrite (find_char_first _ h p Hn), drop_0, Nat.add_1_r.
    rewrite take_app_length.
    replace (drop (S (length h)) (h ++ ":"%char :: p)) with p
      by (change (h ++ ":"%char :: p) with (h ++ [":"%char] ++ p);
          rewrite app_assoc, drop_app_length'; [reflexivity | rewrite length_app; cbn; lia]).
    destruct h; [congruence |]. destruct p; [congruence | reflexivity].
Qed.

(** X2. The server's [split_hostport] cuts at the last colon: it succeeds
    with [(host, port)] exactly when the argument is [host:port] with both
    parts non-empty and no colon in the port. *)
Theorem server_split_hostport_at_last_colon (src h p : bytes) :
  ServerMain.split_hostport src = Some (h, p)
  <-> src = h ++ lit ":" ++ p /\ h <> [] /\ p <> [] /\ ~ In ":"%char p.
Proof. apply server_split_iff. Qed.

(** X3. The client's [splitHostPort] cuts at the first colon: it succeeds
    with [(host, port)] exactly when the argument is [host:port] with both
    parts non-empty and no colon in the host. *)
Theorem client_splitHostPort_at_first_colon (address h p : bytes) :
  fst (NetworkClient.splitHostPort address) = Some (h, p)
  <-> address = h ++ lit ":" ++ p /\ h <> [] /\ p <> [] /\ ~ In ":"%char h.
Proof. apply client_split_iff. Qed.

(** X4. Server and client read the same address alike only when the host
    part holds no colon: for an address the server splits into
    [(host, port)], the client gets the same pair exactly when [host] has no
    colon. *)
Theorem split_agreement (src h p : bytes) :
  ServerMain.split_hostport src = Some (h, p) ->
  (fst (NetworkClient.splitHostPort src) = Some (h, p) <-> ~ In ":"%char h).
Proof.
  intros Hs. apply server_split_iff in Hs as (-> & Hh & Hp & Hn).
  rewrite client_split_iff. intuition.
Qed.

Lemma split_agreement_witness :
  fst (NetworkClient.splitHostPort (lit "::1:9999")) <> Some (lit "::1", lit "9999").
Proof.
  intros H.
  apply (proj1 (split_agreement (lit "::1:9999") (lit "::1") (lit "9999") eq_refl)) in H.
  apply H. left. reflexivity.
Defined.

(** X5. The server's [main] exits with status 1 and a single line on
    [stderr], whatever the network would do, when it is not given exactly
    one argument or when that argument does not split into host and port. *)
Theorem server_main_rejects_bad_arguments (argv : list bytes) :
  (length argv <> 2%nat
   \/ exists prog arg, argv = [prog; arg] /\ ServerMain.split_hostport arg = None) ->
  exists msg,
    forall net_bind net_send net_recv net_accept net_select sig_running turns,
      ServerMain.main net_bind net_send net_recv net_accept net_select sig_running
        turns argv
      = ([EvStderr msg], Some 1).
Proof.
  intros [Hlen | (prog & arg & -> & Hsplit)].
  - destruct argv as [|a [|b [|c argv]]]; try (eexists; intros; reflexivity).
    cbn in Hlen. congruence.
  - eexists. intros. cbn. rewrite Hsplit. reflexivity.
Qed.

Lemma server_main_rejects_bad_arguments_witness :
  exists msg,
    forall net_bind net_send net_recv net_accept net_select sig_running turns,
      ServerMain.main net_bind net_send net_recv net_accept net_select sig_running
        turns [lit "server"; lit "localhost:"]
      = ([EvStderr msg], Some 1).
Proof.
  apply server_main_rejects_bad_arguments.
  right. exists (lit "server"), (lit "localhost:"). split; reflexivity.
Defined.

(* ===================================================================== *)
(** ** Further properties: the state machine and the framer *)
(* ===================================================================== *)

Lemma failed_of_app a b : failed_of (a ++ b) = failed_of a ++ failed_of b.
Proof. apply omap_app. Qed.

Lemma count_char_app ch a b :
  count_char ch (a ++ b) = (count_char ch a + count_char ch b)%nat.
Proof.
  induction a as [|c a IH]; cbn; [reflexivity |].
  destruct (Ascii.eqb c ch); rewrite IH; reflexivity.
Qed.

Lemma count_char_absent ch s : ~ In ch s -> count_char ch s = 0%nat.
Proof.
  induction s as [|c s IH]; cbn; [reflexivity |]. intros Hn.
  destruct (Ascii.eqb c ch) eqn:Hc.
  - apply Ascii.eqb_eq in Hc. tauto.
  - apply IH. tauto.
Qed.

(** What the head of the loop takes: the bytes up to the first ['\n'],
    stripped, and the bytes after it. *)
Lemma next_line_Some buf line rest :
  Server.next_line buf = Some (line, rest) ->
  exists raw, buf = raw ++ LF :: rest /\ ~ In LF raw /\ line = chomp raw.
Proof.
  unfold Server.next_line, substr, erase_front.
  destruct (find_char LF buf) as [pos|] eqn:Hf; [|discriminate].
  apply find_char_Some in Hf as [Hbuf Hn].
  rewrite drop_0, Nat.add_1_r. intros H. injection H as <- <-.
  exists (take pos buf). auto.
Qed.

Lemma next_line_first raw rest :
  ~ In LF raw -> Server.next_line (raw ++ LF :: rest) = Some (chomp raw, rest).
Proof.
  intros Hn. unfold Server.next_line, substr, erase_front.
  rewrite (find_char_first LF raw rest Hn), drop_0, Nat.add_1_r, take_app_length.
  replace (drop (S (length raw)) (raw ++ LF :: rest)) with rest; [reflexivity |].
  change (raw ++ LF :: rest) with (raw ++ [LF] ++ rest).
  rewrite app_assoc, drop_app_length'; [reflexivity | rewrite length_app; cbn; lia].
Qed.

Lemma next_line_None buf : Server.next_line buf = None <-> ~ In LF buf.
Proof.
  unfold Server.next_line. split.
  - destruct (find_char LF buf) eqn:Hf; [discriminate |].
    intros _. apply find_char_None. exact Hf.
  - intros Hn. rewrite (find_char_absent LF buf Hn). reflexivity.
Qed.

(** X9. The framer takes out one line for every ['\n'] of the
    accumulator, empty lines included, and leaves exactly the bytes after
    the last ['\n']. *)
Theorem frame_all_one_line_per_newline (buf : bytes) :
  length (fst (frame_all buf)) = count_char LF buf
  /\ ~ In LF (snd (frame_all buf))
  /\ exists pre, buf = pre ++ snd (frame_all buf)
                 /\ (pre = [] \/ exists q, pre = q ++ [LF]).
Proof.
  remember (length buf) as n eqn:Hn. revert buf Hn.
  induction n as [n IH] using lt_wf_ind. intros buf Hn.
  rewrite frame_all_unfold.
  destruct (Server.next_line buf) as [[line rest]|] eqn:Hnext.
  - pose proof (next_line_shorter _ _ _ Hnext) as Hlt.
    destruct (IH (length rest) ltac:(lia) rest eq_refl) as (Hcount & Hno & pre & Hpre & Hend).
    apply next_line_Some in Hnext as (raw & -> & Hraw & _).
    destruct (frame_all rest) as [ls r]. cbn [fst snd length] in *.
    split; [|split; [exact Hno |]].
    + rewrite count_char_app, (count_char_absent LF raw Hraw). cbn.
      rewrite Hcount. reflexivity.
    + exists (raw ++ LF :: pre). split.
      * rewrite Hpre at 1. rewrite <- app_assoc. reflexivity.
      * right. destruct Hend as [->|(q & ->)].
        -- exists raw. reflexivity.
        -- exists (raw ++ LF :: q). rewrite <- app_assoc. reflexivity.
  - cbn [fst snd length]. apply next_line_None in Hnext.
    split; [symmetry; apply count_char_absent; exact Hnext |].
    split; [exact Hnext |]. exists []. auto.
Qed.

Section LineExtras.

Import Server.

Variable net_send : trace -> Z -> bytes -> Z.

(** X6. For a registered connection every line that does not start with
    [MSG ], a second [NICK] line included, is answered with
    [ERROR: Unsupported command\n] on its own handle and changes nothing in
    the vector. *)
Theorem registered_other_line_is_unsupported st i c line :
  clients st !! i = Some c -> registered c = true ->
  (forall t, line <> lit "MSG " ++ t) ->
  clients (handle_line net_send i line st) = clients st
  /\ sends_of (log (handle_line net_send i line st))
     = sends_of (log st) ++ [(fd c, lit_nl "ERROR: Unsupported command")].
Proof.
  intros Hc Hreg Hline. unfold Server.handle_line. rewrite Hc, Hreg. cbn [negb].
  unfold rfind_at0. destruct (starts_with (lit "MSG ") line) eqn:Hs.
  - exfalso. apply (Hline (drop 4 line)).
    apply (starts_with_split (lit "MSG ")). exact Hs.
  - cbn [clients log]. split; [reflexivity | apply send_response_sends].
Qed.

(** X7. Registration does not look at the other connections: a valid
    name is taken even when another registered connection already carries
    it, and that connection is left as it is. *)
Theorem nickname_uniqueness_is_not_checked st i j c d name :
  clients st !! i = Some c -> registered c = false ->
  is_valid_nick name = true ->
  j <> i -> clients st !! j = Some d -> nick d = name -> registered d = true ->
  let st' := handle_line net_send i (lit "NICK " ++ name) st in
  clients st' !! i = Some (mkClient (fd c) name (inbuf c) true)
  /\ clients st' !! j = Some d
  /\ sends_of (log st') = sends_of (log st) ++ [(fd c, lit_nl "OK")].
Proof.
  intros Hc Hreg Hvalid Hne Hd Hnick Hdreg st'.
  assert (Hst : st' = mkState (<[i := register_as c name]> (clients st))
                  (send_response net_send (fd c) (lit_nl "OK") (log st)
                     ++ [EvStdout (lit "Client registered with nickname: " ++ name ++ [LF])])).
  { subst st'. unfold Server.handle_line. rewrite Hc, Hreg. cbn [negb].
    unfold rfind_at0. rewrite starts_with_app.
    change (substr_from (lit "NICK " ++ name) 5) with name.
    rewrite Hvalid. reflexivity. }
  rewrite Hst. cbn [clients log]. split; [|split].
  - apply list_lookup_insert_eq. eapply lookup_lt_Some. exact Hc.
  - rewrite list_lookup_insert_ne by congruence. exact Hd.
  - rewrite sends_of_app, send_response_sends. cbn. rewrite app_nil_r. reflexivity.
Qed.

Lemma send_response_balanced f m tr :
  exists new, send_response net_send f m tr = tr ++ new
              /\ closed_of new = map fst (failed_of new).
Proof.
  unfold Server.send_response.
  destruct (net_send tr f m <? 0) eqn:Hn.
  - exists [EvSend f m (net_send tr f m); EvStderr (lit "send failed"); EvClose f].
    split; [rewrite <- app_assoc; reflexivity |].
    cbn. rewrite Hn. reflexivity.
  - exists [EvSend f m (net_send tr f m)]. split; [reflexivity |].
    cbn. rewrite Hn. reflexivity.
Qed.

Lemma balanced_app tr a b :
  closed_of a = map fst (failed_of a) -> closed_of b = map fst (failed_of b) ->
  exists new, (tr ++ a) ++ b = tr ++ new /\ closed_of new = map fst (failed_of new).
Proof.
  intros Ha Hb. exists (a ++ b). split; [rewrite app_assoc; reflexivity |].
  rewrite closed_of_app, failed_of_app, map_app, Ha, Hb. reflexivity.
Qed.

Lemma broadcast_balanced sfd m dsts tr :
  exists new, broadcast net_send sfd m dsts tr = tr ++ new
              /\ closed_of new = map fst (failed_of new).
Proof.
  unfold Server.broadcast. revert tr.
  induction dsts as [|d dsts IH]; intros tr; cbn [foldl].
  - exists []. rewrite app_nil_r. split; reflexivity.
  - destruct ((0 <=? fd d) && negb (fd d =? sfd)); [|apply IH].
    destruct (send_response_balanced (fd d) m tr) as (a & -> & Ha).
    destruct (IH (tr ++ a)) as (b & -> & Hb).
    apply balanced_app; assumption.
Qed.

Lemma handle_line_balanced i line st :
  exists new, log (handle_line net_send i line st) = log st ++ new
              /\ closed_of new = map fst (failed_of new).
Proof.
  unfold Server.handle_line.
  destruct (clients st !! i) as [c|];
    [|exists []; rewrite app_nil_r; split; reflexivity].
  destruct (registered c); cbn [negb].
  - destruct (rfind_at0 (lit "MSG ") line); [|apply send_response_balanced].
    destruct (255 <? length (chomp (substr_from line 4)))%nat;
      [apply send_response_balanced | apply broadcast_balanced].
  - destruct (rfind_at0 (lit "NICK ") line); [|apply send_response_balanced].
    destruct (is_valid_nick (substr_from line 5)); [|apply send_response_balanced].
    cbn [clients log].
    destruct (send_response_balanced (fd c) (lit_nl "OK") (log st)) as (a & -> & Ha).
    apply balanced_app; [exact Ha | reflexivity].
Qed.

Lemma process_loop_balanced fuel i st :
  exists new, log (process_loop net_send fuel i st) = log st ++ new
              /\ closed_of new = map fst (failed_of new).
Proof.
  revert st. induction fuel as [|fuel IH]; intros st; cbn [process_loop];
    try (exists []; rewrite app_nil_r; split; reflexivity).
  destruct (clients st !! i) as [c|];
    [|exists []; rewrite app_nil_r; split; reflexivity].
  destruct (next_line (inbuf c)) as [[line rest]|];
    [|exists []; rewrite app_nil_r; split; reflexivity].
  destruct (handle_line_balanced i line
              (mkState (<[i := set_inbuf c rest]> (clients st)) (log st)))
    as (a & Ha & Hbal).
  destruct (IH (handle_line net_send i line
                  (mkState (<[i := set_inbuf c rest]> (clients st)) (log st))))
    as (b & Hb & Hbal').
  rewrite Hb, Ha. cbn [log]. apply balanced_app; assumption.
Qed.

(** X8. While the lines of a connection are processed, a handle is closed
    exactly when a write to it has just failed: the handles closed are, in
    order, the handles of the refused writes. *)
Theorem line_processing_closes_exactly_failed_writes i st :
  exists new,
    log (process_client_data net_send i st) = log st ++ new
    /\ closed_of new = map fst (failed_of new).
Proof.
  unfold Server.process_client_data.
  destruct (clients st !! i); [apply process_loop_balanced |].
  exists []. rewrite app_nil_r. split; reflexivity.
Qed.

Lemma frame_all_rest_no_newline buf : find_char LF (snd (frame_all buf)) = None.
Proof.
  pose proof (frame_all_rest buf) as H. rewrite frame_all_unfold in H.
  unfold Server.next_line in H.
  destruct (find_char LF (snd (frame_all buf))); [|reflexivity].
  destruct (frame_all _) as [ls r]. discriminate.
Qed.

Lemma process_client_data_rest i st c :
  clients st !! i = Some c ->
  exists c', clients (process_client_data net_send i st) !! i = Some c'
             /\ inbuf c' = snd (frame_all (inbuf c))
             /\ find_char LF (inbuf c') = None.
Proof.
  intros Hc. rewrite (process_client_data_frames net_send i st c Hc).
  destruct (handle_lines_lookup net_send i (fst (frame_all (inbuf c))) st c Hc) as [c1 Hc1].
  exists (set_inbuf c1 (snd (frame_all (inbuf c)))).
  split; [apply set_inbuf_at_lookup; exact Hc1 |].
  cbn [inbuf set_inbuf]. split; [reflexivity | apply frame_all_rest_no_newline].
Qed.

(** X10. [process_client_data] takes every complete line out of the
    accumulator of the connection and hands each one to [handle_line], in
    the order of arrival: the state it returns is the one that [handle_line],
    run over the lines the framer cuts from the accumulator, one after the
    other, arrives at, with the accumulator set to what the framer leaves.
    What is left holds no ['\n']. *)
Theorem process_client_data_leaves_no_complete_line i st c :
  clients st !! i = Some c ->
  let lines := fst (frame_all (inbuf c)) in
  let rest := snd (frame_all (inbuf c)) in
  process_client_data net_send i st
  = set_inbuf_at i rest (handle_lines net_send i lines st)
  /\ exists c', clients (process_client_data net_send i st) !! i = Some c'
                /\ inbuf c' = rest
                /\ find_char LF (inbuf c') = None.
Proof.
  intros Hc. split.
  - apply process_client_data_frames. exact Hc.
  - apply process_client_data_rest. exact Hc.
Qed.

(** An unregistered connection and a valid name: the state after the
    [NICK] line. *)
Lemma handle_line_registers st i c name :
  clients st !! i = Some c -> registered c = false -> is_valid_nick name = true ->
  handle_line net_send i (lit "NICK " ++ name) st
  = mkState (<[i := register_as c name]> (clients st))
      (send_response net_send (fd c) (lit_nl "OK") (log st)
         ++ [EvStdout (lit "Client registered with nickname: " ++ name ++ [LF])]).
Proof.
  intros Hc Hreg Hvalid. unfold Server.handle_line. rewrite Hc, Hreg. cbn [negb].
  unfold rfind_at0. rewrite starts_with_app.
  change (substr_from (lit "NICK " ++ name) 5) with name.
  rewrite Hvalid. reflexivity.
Qed.

Lemma handle_line_fds i line st :
  map fd (clients (handle_line net_send i line st)) = map fd (clients st).
Proof.
  unfold Server.handle_line.
  destruct (clients st !! i) as [c|] eqn:Hc; [|reflexivity].
  destruct (registered c); cbn [negb].
  - destruct (rfind_at0 (lit "MSG ") line); [|reflexivity].
    destruct (255 <? length (chomp (substr_from line 4)))%nat; reflexivity.
  - destruct (rfind_at0 (lit "NICK ") line); [|reflexivity].
    destruct (is_valid_nick (substr_from line 5)); [|reflexivity].
    cbn [clients]. apply map_fd_insert with (c := c); [exact Hc | reflexivity].
Qed.

Lemma process_loop_fds fuel i st :
  map fd (clients (process_loop net_send fuel i st)) = map fd (clients st).
Proof.
  revert st. induction fuel as [|fuel IH]; intros st; cbn [process_loop]; [reflexivity |].
  destruct (clients st !! i) as [c|] eqn:Hc; [|reflexivity].
  destruct (next_line (inbuf c)) as [[line rest]|]; [|reflexivity].
  rewrite IH, handle_line_fds. cbn [clients].
  apply map_fd_insert with (c := c); [exact Hc | reflexivity].
Qed.

Lemma process_client_data_fds i st :
  map fd (clients (process_client_data net_send i st)) = map fd (clients st).
Proof.
  unfold Server.process_client_data.
  destruct (clients st !! i); [apply process_loop_fds | reflexivity].
Qed.

End LineExtras.

Lemma registered_other_line_is_unsupported_witness :
  sends_of (Server.log (Server.handle_line send_all 0 (lit "NICK again") sample_state))
  = [(4, lit_nl "ERROR: Unsupported command")].
Proof.
  refine (proj2 (registered_other_line_is_unsupported send_all sample_state 0
                   sample_alice (lit "NICK again") _ _ _)).
  - reflexivity.
  - reflexivity.
  - intros t Ht. discriminate Ht.
Defined.

Lemma nickname_uniqueness_is_not_checked_witness :
  Server.clients (Server.handle_line send_all 1 (lit "NICK " ++ lit "alice") sample_state)
    !! 1%nat
  = Some (Server.mkClient 5 (lit "alice") [] true).
Proof.
  refine (proj1 (nickname_uniqueness_is_not_checked send_all sample_state 1 0
                   sample_bob sample_alice (lit "alice") _ _ _ _ _ _ _)).
  - reflexivity.
  - reflexivity.
  - vm_compute. reflexivity.
  - discriminate.
  - reflexivity.
  - reflexivity.
  - reflexivity.
Defined.

Lemma process_client_data_leaves_no_complete_line_witness :
  let st := set_inbuf_at 0 (lit_nl "MSG hi" ++ lit_nl "MSG there" ++ lit "MS") sample_state in
  Server.process_client_data send_all 0 st
  = set_inbuf_at 0 (lit "MS")
      (Server.handle_line send_all 0 (lit "MSG there")
         (Server.handle_line send_all 0 (lit "MSG hi") st))
  /\ exists c',
       Server.clients (Server.process_client_data send_all 0 st) !! 0%nat = Some c'
       /\ Server.inbuf c' = lit "MS"
       /\ find_char LF (Server.inbuf c') = None.
Proof.
  exact (process_client_data_leaves_no_complete_line send_all 0
           (set_inbuf_at 0 (lit_nl "MSG hi" ++ lit_nl "MSG there" ++ lit "MS") sample_state)
           (Server.set_inbuf sample_alice (lit_nl "MSG hi" ++ lit_nl "MSG there" ++ lit "MS"))
           eq_refl).
Defined.

(* ===================================================================== *)
(** ** Further properties: bytes in, replies out *)
(* ===================================================================== *)

Lemma alphabet_not_eol c : In c nick_alphabet -> is_eol c = false.
Proof.
  unfold nick_alphabet. cbn. intros H.
  repeat (destruct H as [<-|H]; [reflexivity |]). destruct H.
Qed.

Lemma valid_nick_shape name :
  Server.is_valid_nick name = true ->
  name <> [] /\ Forall (fun c => is_eol c = false) name.
Proof.
  intros H. apply regex_match_nick_pattern in H as [Hlen Hall]. split.
  - intros ->. cbn in Hlen. lia.
  - eapply Forall_impl; [exact Hall |]. intros c. apply alphabet_not_eol.
Qed.

Lemma chomp_drops_cr s : chomp (s ++ [CR]) = chomp s.
Proof. unfold chomp. rewrite rev_unit. reflexivity. Qed.

Lemma is_line_last s c : is_eol c = false -> is_line (s ++ [c]).
Proof.
  intros Hc. unfold is_line, chomp. rewrite rev_unit. cbn [pop_eols].
  rewrite Hc. cbn [rev]. rewrite rev_involutive. reflexivity.
Qed.

Lemma nick_line_is_line name :
  Server.is_valid_nick name = true -> is_line (lit "NICK " ++ name).
Proof.
  intros H. apply valid_nick_shape in H as [Hne Hall].
  destruct (exists_last Hne) as (name' & c & ->).
  rewrite app_assoc. apply is_line_last.
  rewrite Forall_forall in Hall. apply Hall.
  apply list_elem_of_In, in_or_app. right. left. reflexivity.
Qed.

Lemma nick_line_no_newline name :
  Server.is_valid_nick name = true -> ~ In LF (lit "NICK " ++ name).
Proof.
  intros H Hin. apply valid_nick_shape in H as [_ Hall].
  apply in_app_or in Hin as [Hin|Hin].
  - cbn in Hin. intuition discriminate.
  - rewrite Forall_forall in Hall. apply list_elem_of_In, Hall in Hin.
    vm_compute in Hin. discriminate.
Qed.

Lemma frame_all_nick_line name ending :
  Server.is_valid_nick name = true -> ending = [LF] \/ ending = [CR; LF] ->
  frame_all (lit "NICK " ++ name ++ ending) = ([lit "NICK " ++ name], []).
Proof.
  intros Hvalid Hend.
  pose proof (nick_line_is_line name Hvalid) as Hline.
  pose proof (nick_line_no_newline name Hvalid) as Hno.
  rewrite frame_all_unfold. destruct Hend as [->| ->].
  - rewrite app_assoc, next_line_first by exact Hno.
    rewrite Hline. reflexivity.
  - change [CR; LF] with ([CR] ++ [LF]). rewrite !app_assoc.
    rewrite next_line_first.
    + rewrite chomp_drops_cr, Hline. reflexivity.
    + intros Hin. apply in_app_or in Hin as [Hin|Hin]; [tauto |].
      cbn in Hin. intuition discriminate.
Qed.

Section BytesToReplies.

Import Server.

Variable net_send : trace -> Z -> bytes -> Z.
Variable net_recv : trace -> Z -> Z * bytes.

(** X12. A registration that arrives whole, ended by ["\n"] or by
    ["\r\n"], on an unregistered connection whose accumulator is empty:
    the name is stored without the line ending, the connection is
    registered, its accumulator is empty again, and [OK\n] is the one
    write. *)
Theorem nick_line_registers_with_either_line_ending st i c name ending :
  clients st !! i = Some c -> registered c = false -> inbuf c = [] ->
  is_valid_nick name = true -> ending = [LF] \/ ending = [CR; LF] ->
  let st' := deliver net_send i (lit "NICK " ++ name ++ ending) st in
  clients st' = <[i := mkClient (fd c) name [] true]> (clients st)
  /\ sends_of (log st') = sends_of (log st) ++ [(fd c, lit_nl "OK")].
Proof.
  intros Hc Hreg Hbuf Hvalid Hend st'. subst st'.
  rewrite (deliver_frames net_send i _ st c Hc). unfold feed. rewrite Hbuf.
  cbn [app]. rewrite (frame_all_nick_line name ending Hvalid Hend).
  cbn [fst snd]. unfold handle_lines. cbn [foldl].
  rewrite (handle_line_registers net_send st i c name Hc Hreg Hvalid).
  unfold set_inbuf_at. cbn [clients log].
  rewrite list_lookup_insert_eq by (eapply lookup_lt_Some; exact Hc).
  cbn [clients log]. rewrite list_insert_insert_eq. split.
  - reflexivity.
  - rewrite sends_of_app, send_response_sends. cbn. rewrite app_nil_r. reflexivity.
Qed.

(** X13. A turn of the pass works on its own connection only: the vector
    keeps its size, every other entry is left as it is, and the trace is
    only added to. *)
Theorem pass_turn_touches_only_its_connection ready i st marks :
  length (clients (fst (pass_body net_send net_recv ready i st marks)))
  = length (clients st)
  /\ (forall j, j <> i ->
        clients (fst (pass_body net_send net_recv ready i st marks)) !! j
        = clients st !! j)
  /\ log st `prefix_of` log (fst (pass_body net_send net_recv ready i st marks)).
Proof.
  split; [apply pass_body_length |]. split; [|apply pass_body_prefix].
  intros j Hne. apply (in_place_at_others i); [apply pass_body_in_place | exact Hne].
Qed.

End BytesToReplies.

Lemma nick_line_registers_with_either_line_ending_witness :
  Server.clients (deliver send_all 1 (lit "NICK " ++ lit "bob" ++ [CR; LF]) sample_state)
  = [sample_alice; Server.mkClient 5 (lit "bob") [] true; sample_carol].
Proof.
  refine (proj1 (nick_line_registers_with_either_line_ending send_all sample_state 1
                   sample_bob (lit "bob") [CR; LF] _ _ _ _ _)).
  - reflexivity.
  - reflexivity.
  - reflexivity.
  - vm_compute. reflexivity.
  - right. reflexivity.
Defined.

Lemma pass_turn_touches_only_its_connection_witness :
  Server.clients
    (fst (Server.pass_body send_all recv_sample all_ready 0 sample_state [])) !! 2%nat
  = Some sample_carol.
Proof.
  refine (proj1 (proj2 (pass_turn_touches_only_its_connection send_all recv_sample
                          all_ready 0 sample_state [])) 2%nat _).
  discriminate.
Defined.

(** X11 at the sample: one line cut into three chunks. *)
Lemma deliver_chunk_boundary_independence_witness :
  foldl (fun s chunk => deliver send_all 0 chunk s) sample_state
    [lit "MS"; lit "G h"; lit_nl "i"]
  = deliver send_all 0 (concat [lit "MS"; lit "G h"; lit_nl "i"]) sample_state.
Proof.
  refine (deliver_chunk_boundary_independence send_all 0 _ sample_state sample_alice _ _).
  - reflexivity.
  - reflexivity.
Defined.

(* ===================================================================== *)
(** ** Further properties: what holds between turns of the server loop *)
(* ===================================================================== *)

Lemma Forall_unmarked_from {A} (P : A -> Prop) marked base (l : list A) :
  (forall j x, l !! j = Some x -> marked (base + j)%nat = false -> P x) ->
  Forall P (unmarked_from marked base l).
Proof.
  revert base. induction l as [|y l IH]; intros base H; cbn; [constructor |].
  assert (Hrest : Forall P (unmarked_from marked (S base) l)).
  { apply IH. intros j x Hj Hm. apply (H (S j) x Hj).
    rewrite <- plus_n_Sm. exact Hm. }
  destruct (marked base) eqn:Hb; [exact Hrest |].
  constructor; [|exact Hrest].
  apply (H 0%nat y eq_refl). rewrite Nat.add_0_r. exact Hb.
Qed.

Section BetweenTurns.

Import Server.

Variable net_send : trace -> Z -> bytes -> Z.
Variable net_recv : trace -> Z -> Z * bytes.
Variable net_accept : trace -> Z.
Variable net_select : trace -> select_result.
Variable sig_running : trace -> bool.

Lemma pass_body_marks' ready i st marks :
  snd (pass_body net_send net_recv ready i st marks)
  = if turn_marks net_recv ready i st then marks ++ [int_of_size_t i] else marks.
Proof. apply pass_body_marks. Qed.

(** A turn that does not mark leaves every handle as it is. *)
Lemma pass_body_fds_unmarked ready i st marks :
  turn_marks net_recv ready i st = false ->
  map fd (clients (fst (pass_body net_send net_recv ready i st marks)))
  = map fd (clients st).
Proof.
  unfold turn_marks, Server.pass_body, Server.recv_into.
  destruct (clients st !! i) as [c|] eqn:Hc; [|reflexivity].
  destruct (fd c <? 0) eqn:Hfd; [reflexivity |].
  assert (H0 : (0 <=? fd c) = true) by lia. rewrite H0. cbn [andb].
  destruct (ready (fd c)); cbn [negb andb]; [|reflexivity].
  destruct (net_recv (log st) (fd c)) as [n buf]. cbn [fst]. intros Hn.
  assert (H1 : (0 <? n) = true) by lia.
  assert (H2 : (n =? 0) = false) by lia.
  assert (H3 : (n <? 0) = false) by lia.
  rewrite H1, H2, H3. cbn [fst].
  rewrite process_client_data_fds. cbn [clients].
  apply map_fd_insert with (c := c); [exact Hc | reflexivity].
Qed.

Lemma pass_body_dead ready i st marks :
  Z.of_nat (length (clients st)) < 2 ^ 31 ->
  dead_are_marked (clients st) marks ->
  dead_are_marked (clients (fst (pass_body net_send net_recv ready i st marks)))
    (snd (pass_body net_send net_recv ready i st marks)).
Proof.
  intros Hsmall Hdead j x Hj Hfd. rewrite pass_body_marks'.
  assert (Hkeep : In (Z.of_nat j) marks ->
                  In (Z.of_nat j)
                     (if turn_marks net_recv ready i st
                      then marks ++ [int_of_size_t i] else marks)).
  { intros Hin. destruct (turn_marks net_recv ready i st); [|exact Hin].
    apply in_or_app. left. exact Hin. }
  destruct (decide (j = i)) as [->|Hne].
  - destruct (turn_marks net_recv ready i st) eqn:Ht.
    + apply in_or_app. right. left.
      apply int_of_size_t_small. apply lookup_lt_Some in Hj.
      rewrite pass_body_length in Hj. lia.
    + pose proof (pass_body_fds_unmarked ready i st marks Ht) as Hfds.
      assert (Hx : map fd (clients st) !! i = Some (fd x)).
      { rewrite <- Hfds.
        change (map fd ?l) with (fd <$> l). rewrite list_lookup_fmap, Hj. reflexivity. }
      change (map fd ?l) with (fd <$> l) in Hx.
      rewrite list_lookup_fmap in Hx.
      destruct (clients st !! i) as [c|] eqn:Hc; [|discriminate].
      cbn in Hx. injection Hx as Hx.
      apply (Hdead i c Hc). lia.
  - apply Hkeep. apply (Hdead j x); [|exact Hfd].
    rewrite <- (in_place_at_others i (clients st) _ j
                  (pass_body_in_place net_send net_recv ready i st marks) Hne).
    exact Hj.
Qed.

Lemma pass_loop_dead ready k st :
  Z.of_nat (length (clients st)) < 2 ^ 31 ->
  dead_are_marked (clients st) [] ->
  dead_are_marked (clients (fst (pass_loop net_send net_recv k ready 0 st [])))
    (snd (pass_loop net_send net_recv k ready 0 st [])).
Proof.
  intros Hsmall Hdead. induction k as [|k IH]; [exact Hdead |].
  rewrite pass_loop_S.
  pose proof (pass_loop_length net_send net_recv ready k 0 st []) as Hlen.
  destruct (pass_loop net_send net_recv k ready 0 st []) as [s m].
  cbn [fst snd] in *.
  destruct (0 + k <? length (clients s))%nat; [|exact IH].
  apply pass_body_dead; [lia | exact IH].
Qed.

(** After the pass and its clean-up the vector holds the unmarked entries
    of the pass. *)
Lemma cleanup_after_pass ready st :
  Z.of_nat (length (clients st)) < 2 ^ 31 ->
  clients (cleanup (snd (readiness_pass net_send net_recv ready st))
             (fst (readiness_pass net_send net_recv ready st)))
  = unmarked_from (read_fails_at net_send net_recv ready st) 0
      (clients (fst (readiness_pass net_send net_recv ready st))).
Proof.
  intros Hsmall. unfold readiness_pass.
  pose proof (pass_loop_length net_send net_recv ready (length (clients st)) 0 st [])
    as Hlen.
  rewrite cleanup_unfold, (pass_loop_marks net_send net_recv ready _ st) by lia.
  rewrite sort_desc_marks.
  rewrite (cleanup_erases _ (length (clients st))) by lia.
  rewrite take_ge, drop_ge, app_nil_r by lia. reflexivity.
Qed.

Lemma pass_and_cleanup_open ready st :
  Z.of_nat (length (clients st)) < 2 ^ 31 ->
  Forall (fun c => 0 <= fd c) (clients st) ->
  Forall (fun c => 0 <= fd c)
    (clients (cleanup (snd (readiness_pass net_send net_recv ready st))
                (fst (readiness_pass net_send net_recv ready st)))).
Proof.
  intros Hsmall Hopen. rewrite cleanup_after_pass by exact Hsmall.
  apply Forall_unmarked_from. intros j x Hj Hm. cbn [Nat.add] in Hm.
  destruct (Z_lt_le_dec (fd x) 0) as [Hneg|Hok]; [|exact Hok]. exfalso.
  assert (Hdead0 : dead_are_marked (clients st) []).
  { intros j' x' Hj' Hfd'. rewrite Forall_forall in Hopen.
    assert (0 <= fd x') by (apply Hopen; eapply list_elem_of_lookup_2; exact Hj').
    lia. }
  pose proof (pass_loop_dead ready (length (clients st)) st Hsmall Hdead0 j x Hj Hneg)
    as Hin.
  fold (readiness_pass net_send net_recv ready st) in Hin.
  unfold readiness_pass in Hin.
  rewrite (pass_loop_marks net_send net_recv ready _ st) in Hin by lia.
  apply in_map_iff in Hin as (j' & Heq & Hin).
  apply Nat2Z.inj in Heq. subst j'.
  apply filter_In in Hin as [_ Hin]. congruence.
Qed.

Lemma cleanup_step_length st idx :
  (length (clients (cleanup_step st idx)) <= length (clients st))%nat.
Proof.
  unfold Server.cleanup_step.
  destruct ((0 <=? idx) && (idx <? int_of_size_t (length (clients st)))); [|lia].
  destruct (clients st !! Z.to_nat idx) eqn:Hc; [|lia].
  cbn [clients]. rewrite length_delete by (rewrite Hc; eauto). lia.
Qed.

Lemma cleanup_length marks st :
  (length (clients (cleanup marks st)) <= length (clients st))%nat.
Proof.
  rewrite cleanup_unfold. generalize (sort_desc marks). intros l. revert st.
  induction l as [|idx l IH]; intros st; cbn [foldl]; [lia |].
  etrans; [apply IH | apply cleanup_step_length].
Qed.

Lemma accept_step_length listenfd ready st :
  (length (clients (accept_step net_send net_accept listenfd ready st))
   <= length (clients st) + 1)%nat.
Proof.
  unfold Server.accept_step. destruct (ready listenfd); [|lia].
  destruct (0 <=? net_accept (log st)); cbn [clients]; [|lia].
  rewrite length_app. cbn. lia.
Qed.

Lemma accept_step_open listenfd ready st :
  Forall (fun c => 0 <= fd c) (clients st) ->
  Forall (fun c => 0 <= fd c)
    (clients (accept_step net_send net_accept listenfd ready st)).
Proof.
  intros Hopen. unfold Server.accept_step. destruct (ready listenfd); [|exact Hopen].
  destruct (0 <=? net_accept (log st)) eqn:Hcfd; cbn [clients]; [|exact Hopen].
  apply Forall_app. split; [exact Hopen |].
  apply Forall_singleton. cbn. lia.
Qed.

Lemma iteration_length listenfd st :
  (length (clients (fst (iteration net_send net_recv net_accept net_select listenfd st)))
   <= length (clients st) + 1)%nat.
Proof.
  unfold Server.iteration.
  destruct (sel_rc (net_select (log st)) <? 0).
  - destruct (sel_eintr (net_select (log st))); cbn; lia.
  - set (st1 := accept_step net_send net_accept listenfd
                  (sel_ready (net_select (log st)))
                  (emit st [EvSelect (sel_rc (net_select (log st)))])).
    pose proof (accept_step_length listenfd (sel_ready (net_select (log st)))
                  (emit st [EvSelect (sel_rc (net_select (log st)))])) as Hacc.
    fold st1 in Hacc. cbn [emit clients] in Hacc.
    pose proof (pass_loop_length net_send net_recv (sel_ready (net_select (log st)))
                  (length (clients st1)) 0 st1 []) as Hpass.
    unfold readiness_pass.
    destruct (pass_loop _ _ _ _ _ _ _) as [st2 to_remove]. cbn [fst] in *.
    pose proof (cleanup_length to_remove st2). lia.
Qed.

Lemma iteration_open listenfd st :
  Z.of_nat (length (clients st)) + 1 < 2 ^ 31 ->
  Forall (fun c => 0 <= fd c) (clients st) ->
  Forall (fun c => 0 <= fd c)
    (clients (fst (iteration net_send net_recv net_accept net_select listenfd st))).
Proof.
  intros Hsmall Hopen. unfold Server.iteration.
  destruct (sel_rc (net_select (log st)) <? 0).
  - destruct (sel_eintr (net_select (log st))); exact Hopen.
  - set (st1 := accept_step net_send net_accept listenfd
                  (sel_ready (net_select (log st)))
                  (emit st [EvSelect (sel_rc (net_select (log st)))])).
    pose proof (accept_step_length listenfd (sel_ready (net_select (log st)))
                  (emit st [EvSelect (sel_rc (net_select (log st)))])) as Hacc.
    fold st1 in Hacc. cbn [emit clients] in Hacc.
    assert (Hopen1 : Forall (fun c => 0 <= fd c) (clients st1))
      by (apply accept_step_open; exact Hopen).
    pose proof (pass_and_cleanup_open (sel_ready (net_select (log st))) st1
                  ltac:(lia) Hopen1) as Hres.
    destruct (readiness_pass _ _ _ _) as [st2 to_remove]. exact Hres.
Qed.

Lemma serve_open turns listenfd st :
  Z.of_nat (length (clients st)) + Z.of_nat turns < 2 ^ 31 ->
  Forall (fun c => 0 <= fd c) (clients st) ->
  Forall (fun c => 0 <= fd c)
    (clients (fst (serve net_send net_recv net_accept net_select sig_running
                     turns listenfd st))).
Proof.
  revert st. induction turns as [|turns IH]; intros st Hsmall Hopen; cbn [serve];
    [exact Hopen |].
  destruct (sig_running (log st)); [|exact Hopen].
  pose proof (iteration_open listenfd st ltac:(lia) Hopen) as Hit.
  pose proof (iteration_length listenfd st) as Hlen.
  destruct (iteration net_send net_recv net_accept net_select listenfd st) as [st' go_on].
  cbn [fst] in *. destruct go_on; [|exact Hit].
  apply IH; [lia | exact Hit].
Qed.

(** X14. Between turns of the server loop no entry with an invalidated
    handle is left in the vector: after any number of turns below 2^31,
    started from the empty vector, every entry has a non-negative handle, so
    every connection whose read failed has been taken out. *)
Theorem no_dead_entry_between_turns turns listenfd :
  Z.of_nat turns < 2 ^ 31 ->
  Forall (fun c => 0 <= fd c)
    (clients (fst (serve net_send net_recv net_accept net_select sig_running
                     turns listenfd initial))).
Proof.
  intros Hturns. apply serve_open; [cbn; lia | constructor].
Qed.

End BetweenTurns.

(** A property of single connections that new connections have and a turn
    of the pass keeps holds along the whole run of the loop. *)
Section AlongTheLoop.

Import Server.

Variable net_send : trace -> Z -> bytes -> Z.
Variable net_recv : trace -> Z -> Z * bytes.
Variable net_accept : trace -> Z.
Variable net_select : trace -> select_result.
Variable sig_running : trace -> bool.

Variable P : Client -> Prop.
Hypothesis P_new : forall cfd, P (new_client cfd).
Hypothesis P_turn :
  forall ready i st marks,
    Forall P (clients st) ->
    Forall P (clients (fst (pass_body net_send net_recv ready i st marks))).

Lemma pass_loop_Forall k ready i st marks :
  Forall P (clients st) ->
  Forall P (clients (fst (pass_loop net_send net_recv k ready i st marks))).
Proof.
  intros HP. induction k as [|k IH]; [exact HP |].
  rewrite pass_loop_S.
  destruct (pass_loop net_send net_recv k ready i st marks) as [s m]. cbn [fst] in IH.
  destruct (i + k <? length (clients s))%nat; [|exact IH].
  apply P_turn. exact IH.
Qed.

Lemma cleanup_Forall marks st :
  Forall P (clients st) -> Forall P (clients (cleanup marks st)).
Proof.
  rewrite cleanup_unfold. generalize (sort_desc marks). intros l. revert st.
  induction l as [|idx l IH]; intros st HP; cbn [foldl]; [exact HP |].
  apply IH. unfold Server.cleanup_step.
  destruct ((0 <=? idx) && (idx <? int_of_size_t (length (clients st)))); [|exact HP].
  destruct (clients st !! Z.to_nat idx); [|exact HP].
  cbn [clients]. apply Forall_delete. exact HP.
Qed.

Lemma iteration_Forall listenfd st :
  Forall P (clients st) ->
  Forall P (clients (fst (iteration net_send net_recv net_accept net_select listenfd st))).
Proof.
  intros HP. unfold Server.iteration.
  destruct (sel_rc (net_select (log st)) <? 0).
  - destruct (sel_eintr (net_select (log st))); exact HP.
  - set (st1 := accept_step net_send net_accept listenfd
                  (sel_ready (net_select (log st)))
                  (emit st [EvSelect (sel_rc (net_select (log st)))])).
    assert (HP1 : Forall P (clients st1)).
    { subst st1. unfold Server.accept_step.
      destruct (sel_ready (net_select (log st)) listenfd); [|exact HP].
      destruct (0 <=? net_accept _); cbn [clients emit]; [|exact HP].
      apply Forall_app. split; [exact HP | apply Forall_singleton, P_new]. }
    pose proof (pass_loop_Forall (length (clients st1))
                  (sel_ready (net_select (log st))) 0 st1 [] HP1) as Hpass.
    unfold readiness_pass.
    destruct (pass_loop _ _ _ _ _ _ _) as [st2 to_remove]. cbn [fst] in *.
    apply cleanup_Forall. exact Hpass.
Qed.

Lemma serve_Forall turns listenfd st :
  Forall P (clients st) ->
  Forall P (clients (fst (serve net_send net_recv net_accept net_select sig_running
                            turns listenfd st))).
Proof.
  revert st. induction turns as [|turns IH]; intros st HP; cbn [serve]; [exact HP |].
  destruct (sig_running (log st)); [|exact HP].
  pose proof (iteration_Forall listenfd st HP) as Hit.
  destruct (iteration net_send net_recv net_accept net_select listenfd st) as [st' go_on].
  cbn [fst] in Hit. destruct go_on; [apply IH; exact Hit | exact Hit].
Qed.

End AlongTheLoop.

Section Accumulators.

Import Server.

Variable net_send : trace -> Z -> bytes -> Z.
Variable net_recv : trace -> Z -> Z * bytes.
Variable net_accept : trace -> Z.
Variable net_select : trace -> select_result.
Variable sig_running : trace -> bool.

Lemma pass_body_no_line ready i st marks :
  Forall (fun c => find_char LF (inbuf c) = None) (clients st) ->
  Forall (fun c => find_char LF (inbuf c) = None)
    (clients (fst (pass_body net_send net_recv ready i st marks))).
Proof.
  intros HP. unfold Server.pass_body, Server.recv_into, Server.drop_client.
  destruct (clients st !! i) as [c|] eqn:Hc; [|exact HP].
  destruct (fd c <? 0); [exact HP |].
  destruct (negb (ready (fd c))); [exact HP |].
  assert (HPc : find_char LF (inbuf c) = None).
  { rewrite Forall_forall in HP. apply (HP c). eapply list_elem_of_lookup_2. exact Hc. }
  destruct (net_recv (log st) (fd c)) as [n buf].
  destruct (0 <? n) eqn:Hpos.
  - assert (H1 : (n =? 0) = false) by lia. assert (H2 : (n <? 0) = false) by lia.
    rewrite H1, H2. cbn [fst].
    set (st1 := mkState (<[i := set_inbuf c (inbuf c ++ take (Z.to_nat n) buf)]> (clients st))
                  (log st ++ [EvRecv (fd c) n buf])).
    assert (Hc1 : clients st1 !! i = Some (set_inbuf c (inbuf c ++ take (Z.to_nat n) buf))).
    { apply list_lookup_insert_eq. eapply lookup_lt_Some. exact Hc. }
    apply Forall_lookup. intros j x Hj.
    destruct (decide (j = i)) as [->|Hne].
    + destruct (process_client_data_rest net_send i st1 _ Hc1) as (c' & Hc' & _ & Hno).
      rewrite Hc' in Hj. injection Hj as <-. exact Hno.
    + rewrite (in_place_at_others i (clients st1) _ j
                 (process_client_data_in_place net_send i st1) Hne) in Hj.
      subst st1. cbn [clients] in Hj.
      rewrite list_lookup_insert_ne in Hj by congruence.
      rewrite Forall_forall in HP. apply (HP x). eapply list_elem_of_lookup_2. exact Hj.
  - assert (Hmark : Forall (fun c0 => find_char LF (inbuf c0) = None)
                      (<[i := set_fd c (-1)]> (clients st)))
      by (apply Forall_insert; [exact HP | exact HPc]).
    destruct (n =? 0) eqn:H1; [|assert (H2 : (n <? 0) = true) by lia; rewrite H2];
      cbn [clients]; rewrite Hc; exact Hmark.
Qed.

(** X15. Between turns of the server loop no accumulator holds a complete
    line: in every state the loop reaches from the empty vector, no
    connection's accumulator contains ['\n']. *)
Theorem accumulators_hold_no_complete_line turns listenfd :
  Forall (fun c => find_char LF (inbuf c) = None)
    (clients (fst (serve net_send net_recv net_accept net_select sig_running
                     turns listenfd initial))).
Proof.
  apply serve_Forall.
  - intros cfd. reflexivity.
  - intros ready i st marks. apply pass_body_no_line.
  - constructor.
Qed.

(** X16. The shutdown closes every handle of the vector that is not
    negative, in vector order and once each, then the listening handle, and
    leaves the vector as it is. *)
Theorem shutdown_closes_every_open_handle listenfd st :
  clients (shutdown listenfd st) = clients st
  /\ closed_of (log (shutdown listenfd st))
     = closed_of (log st)
       ++ List.filter (fun f => 0 <=? f) (map fd (clients st))
       ++ (if 0 <=? listenfd then [listenfd] else []).
Proof.
  split; [reflexivity |].
  unfold Server.shutdown. cbn [log].
  assert (Hfold : forall cs tr,
    closed_of (foldl (fun tr c => if 0 <=? fd c then tr ++ [EvClose (fd c)] else tr) tr cs)
    = closed_of tr ++ List.filter (fun f => 0 <=? f) (map fd cs)).
  { induction cs as [|c cs IH]; intros tr; cbn [foldl map List.filter].
    - rewrite app_nil_r. reflexivity.
    - rewrite IH. destruct (0 <=? fd c); [|reflexivity].
      rewrite closed_of_app, <- app_assoc. reflexivity. }
  rewrite closed_of_app. cbn [closed_of omap]. rewrite app_nil_r.
  destruct (0 <=? listenfd).
  - rewrite closed_of_app, Hfold, <- app_assoc. reflexivity.
  - rewrite Hfold, app_nil_r. reflexivity.
Qed.

End Accumulators.

(** X14 at a sample: two turns in which one connection is accepted and
    reaches end of stream. *)
Lemma no_dead_entry_between_turns_witness :
  Forall (fun c => 0 <= Server.fd c)
    (Server.clients
       (fst (Server.serve send_all recv_sample (fun _ => 5) select_all_ready
               (fun _ => true) 2 3 Server.initial))).
Proof.
  apply (no_dead_entry_between_turns send_all recv_sample (fun _ => 5) select_all_ready
           (fun _ => true) 2 3).
  vm_compute. reflexivity.
Defined.

(* ===================================================================== *)
(** ** Further properties: the client *)
(* ===================================================================== *)

Lemma received_of_app a b : received_of (a ++ b) = received_of a ++ received_of b.
Proof. unfold received_of. rewrite omap_app, concat_app. reflexivity. Qed.

Lemma starts_with_shorter p q s :
  starts_with (p ++ q) s = true -> starts_with p s = true.
Proof.
  revert s. induction p as [|a p IH]; intros s; cbn; [reflexivity |].
  destruct s as [|c s]; [discriminate |].
  rewrite !andb_true_iff. intros [Ha Hp]. split; [exact Ha | apply IH; exact Hp].
Qed.

Lemma find_str_unfold p s :
  find_str p s
  = if starts_with p s then Some 0%nat
    else match s with
         | [] => None
         | _ :: s' => S <$> find_str p s'
         end.
Proof. destruct s; reflexivity. Qed.

(** Where a string occurs, each of its prefixes occurs. *)
Lemma find_str_shorter p q s :
  find_str (p ++ q) s <> None -> find_str p s <> None.
Proof.
  induction s as [|c s IH];
    rewrite (find_str_unfold (p ++ q)), (find_str_unfold p);
    destruct (starts_with (p ++ q) _) eqn:Hpq;
    try (rewrite (starts_with_shorter p q _ Hpq); discriminate).
  - intros H. exfalso. apply H. reflexivity.
  - intros H. destruct (starts_with p (c :: s)); [discriminate |].
    destruct (find_str (p ++ q) s); [|exfalso; apply H; reflexivity].
    destruct (find_str p s); [discriminate |].
    exfalso. apply IH; [discriminate | reflexivity].
Qed.

Section ClientRuns.

Import NetworkClient.

Variable net_connect : trace -> bytes -> bytes -> option (list connect_attempt).
Variable net_select : trace -> select_result.
Variable net_recv : trace -> Z -> Z * bytes.
Variable net_send : trace -> Z -> bytes -> Z.
Variable stdin_getline : trace -> option bytes.
Variable clock : trace -> Z.

Lemma print_lines_out fuel mb tr :
  exists outs,
    snd (print_lines fuel mb tr) = tr ++ outs
    /\ sends_of outs = [] /\ closed_of outs = [].
Proof.
  revert mb tr. induction fuel as [|fuel IH]; intros mb tr; cbn [print_lines].
  - exists []. rewrite app_nil_r. auto.
  - destruct (find_char LF mb) as [pos|]; [|exists []; rewrite app_nil_r; auto].
    match goal with
    | |- context [print_lines fuel ?b ?t] => destruct (IH b t) as (outs & Ho & Hs & Hc)
    end.
    rewrite Ho. eexists. split; [rewrite <- app_assoc; reflexivity |].
    rewrite sends_of_app, closed_of_app, Hs, Hc. auto.
Qed.

(** The main loop of the client writes nothing but chat lines within the
    limit, and closes its socket exactly when it leaves by an error. *)
Lemma recv_loop_shape sock fuel mb tr :
  sock <> -1 ->
  exists new,
    fst (receiveServerMessages net_select net_recv net_send stdin_getline fuel sock mb tr)
    = tr ++ new
    /\ Forall (client_write_ok sock) (sends_of new)
    /\ closed_of new
       = closes_for sock
           (snd (receiveServerMessages net_select net_recv net_send stdin_getline
                   fuel sock mb tr)).
Proof.
  intros Hsock. assert (Hs : (sock =? -1) = false) by lia.
  revert mb tr. induction fuel as [|fuel IH]; intros mb tr.
  - exists []. cbn. rewrite app_nil_r. auto.
  - cbn [receiveServerMessages].
    unfold sendMessage, send_or_fail, handleError, gracefulShutdown. rewrite !Hs.
    repeat match goal with
    | |- context [print_lines ?f ?b ?t] =>
        let outs := fresh "outs" in
        destruct (print_lines_out f b t) as (outs & ? & ? & ?);
        destruct (print_lines f b t) as [? ?]; cbn [snd] in *; subst
    | |- context [if ?b then _ else _] => destruct b eqn:?
    | |- context [match ?x with _ => _ end] => destruct x eqn:?
    end.
    all: cbn [fst snd].
    all: try match goal with
    | |- context [receiveServerMessages _ _ _ _ _ _ ?b ?t] =>
        destruct (IH b t) as (new & Hnew & Hgood & Hcl); rewrite Hnew, <- Hcl
    end.
    all: eexists; (split; [rewrite <- ?app_assoc; reflexivity |]).
    all: rewrite ?sends_of_app, ?closed_of_app; cbn.
    all: repeat match goal with
    | H : sends_of _ = [] |- _ => rewrite H; clear H
    | H : closed_of _ = [] |- _ => rewrite H; clear H
    end.
    all: cbn; split; [|reflexivity].
    all: repeat constructor; try assumption.
    all: cbn; eexists; (split; [reflexivity |]); apply Nat.ltb_ge; assumption.
Qed.

(** The greeting loop writes and closes nothing, and reports a greeting
    only when the bytes it has gathered contain [HELLO 1]. *)
Lemma await_greeting_shape sock fuel gb tr :
  exists new,
    snd (await_greeting net_select net_recv clock fuel sock gb tr) = tr ++ new
    /\ sends_of new = [] /\ closed_of new = []
    /\ (fst (await_greeting net_select net_recv clock fuel sock gb tr) = Some true ->
        find_str (lit "HELLO 1") (gb ++ received_of new) <> None).
Proof.
  revert gb tr. induction fuel as [|fuel IH]; intros gb tr.
  - exists []. cbn. rewrite app_nil_r. repeat split; discriminate.
  - cbn [await_greeting].
    destruct ((0 <? sel_rc (net_select tr)) && sel_ready (net_select tr) sock).
    + destruct (net_recv (tr ++ [EvSelect (sel_rc (net_select tr))]) sock) as [n buf] eqn:Hrecv.
      destruct (n <=? 0) eqn:Hn.
      * eexists. cbn [fst snd]. split; [rewrite <- app_assoc; reflexivity |].
        repeat split; discriminate.
      * assert (Hrcv : received_of [EvSelect (sel_rc (net_select tr)); EvRecv sock n buf]
                       = take (Z.to_nat n) buf).
        { unfold received_of. cbn. assert (H : (0 <? n) = true) by lia.
          rewrite H. cbn. apply app_nil_r. }
        destruct (find_str (lit "HELLO 1") (gb ++ take (Z.to_nat n) buf)) eqn:H1.
        -- eexists. cbn [fst snd]. split; [rewrite <- app_assoc; reflexivity |].
           split; [reflexivity |]. split; [reflexivity |].
           intros _. cbn [app]. rewrite Hrcv, H1. discriminate.
        -- destruct (find_str (lit "HELLO 1.0") (gb ++ take (Z.to_nat n) buf)) eqn:H2.
           ++ exfalso.
              apply (find_str_shorter (lit "HELLO 1") (lit ".0")
                       (gb ++ take (Z.to_nat n) buf)); [|exact H1].
              change (lit "HELLO 1" ++ lit ".0") with (lit "HELLO 1.0").
              rewrite H2. discriminate.
           ++ destruct (5 <? clock _).
              ** eexists. cbn [fst snd]. split; [rewrite <- app_assoc; reflexivity |].
                 repeat split; discriminate.
              ** match goal with
                 | |- context [await_greeting _ _ _ fuel sock ?b ?t] =>
                     destruct (IH b t) as (new & Hnew & Hsd & Hcl & Hgreet)
                 end.
                 rewrite Hnew. eexists.
                 split; [rewrite <- !app_assoc; reflexivity |].
                 rewrite !sends_of_app, !closed_of_app, Hsd, Hcl.
                 split; [reflexivity |]. split; [reflexivity |].
                 intros Htrue. specialize (Hgreet Htrue).
                 rewrite <- app_assoc in Hgreet.
                 replace (received_of _)
                   with (take (Z.to_nat n) buf ++ received_of new); [exact Hgreet |].
                 unfold received_of. cbn.
                 destruct (0 <? n) eqn:Hpos; [reflexivity | lia].
    + destruct (5 <? clock _).
      * eexists. cbn [fst snd]. split; [reflexivity |]. repeat split; discriminate.
      * match goal with
        | |- context [await_greeting _ _ _ fuel sock ?b ?t] =>
            destruct (IH b t) as (new & Hnew & Hsd & Hcl & Hgreet)
        end.
        rewrite Hnew. eexists.
        split; [rewrite <- !app_assoc; reflexivity |].
        rewrite !sends_of_app, !closed_of_app, Hsd, Hcl.
        split; [reflexivity |]. split; [reflexivity |].
        intros Htrue. specialize (Hgreet Htrue).
        rewrite received_of_app. exact Hgreet.
Qed.


Lemma split_cases address :
  (exists m, splitHostPort address = (None, [EvStderr m]))
  \/ (exists h p, splitHostPort address = (Some (h, p), [])).
Proof.
  unfold splitHostPort. destruct (find_char ":" address) as [pos|]; [|left; eauto].
  destruct (substr address 0 pos); [left; eauto |].
  destruct (substr_from address (pos + 1)); [left; eauto | right; eauto].
Qed.

(** The connect loop adds nothing to the trace but the [close] of the
    sockets it gives up. *)
Lemma connect_loop_trace addresses socketFD tr :
  exists cl, snd (connect_loop addresses socketFD tr) = tr ++ map EvClose cl.
Proof.
  revert socketFD tr.
  induction addresses as [|a rest IH]; intros socketFD tr; cbn [connect_loop].
  - exists []. cbn. rewrite app_nil_r. reflexivity.
  - destruct (try_socket a <? 0); [apply IH |].
    destruct (try_connect a =? 0).
    + exists []. cbn. rewrite app_nil_r. reflexivity.
    + destruct (IH (-1) (tr ++ [EvClose (try_socket a)])) as (cl & Hcl).
      exists (try_socket a :: cl). rewrite Hcl, <- app_assoc. reflexivity.
Qed.

Lemma closes_only cl :
  sends_of (map EvClose cl) = [] /\ received_of (map EvClose cl) = [].
Proof. induction cl as [|f cl [IH1 IH2]]; [split; reflexivity | split; assumption]. Qed.

(** When the loop ends without a connection, it has closed every socket
    it opened. *)
Lemma connect_loop_failed addresses socketFD tr :
  fst (connect_loop addresses socketFD tr) < 0 ->
  closed_of (snd (connect_loop addresses socketFD tr))
  = closed_of tr ++ List.filter (fun s => 0 <=? s) (map try_socket addresses).
Proof.
  revert socketFD tr.
  induction addresses as [|a rest IH]; intros socketFD tr; cbn [connect_loop map List.filter].
  - intros _. cbn. rewrite app_nil_r. reflexivity.
  - destruct (try_socket a <? 0) eqn:Hs.
    + assert (Hn : (0 <=? try_socket a) = false) by lia. rewrite Hn. apply IH.
    + assert (Hn : (0 <=? try_socket a) = true) by lia. rewrite Hn.
      destruct (try_connect a =? 0); cbn [fst snd]; [lia |].
      intros Hneg. rewrite (IH _ _ Hneg), closed_of_app, <- app_assoc. reflexivity.
Qed.

(** When the loop ends with a connection, it is to the first address on
    which [socket] and [connect] both succeed, and the loop has closed the
    sockets it opened on the addresses before that one. *)
Lemma connect_loop_connected addresses socketFD tr :
  socketFD < 0 ->
  0 <= fst (connect_loop addresses socketFD tr) ->
  exists before a after,
    addresses = before ++ a :: after
    /\ try_socket a = fst (connect_loop addresses socketFD tr)
    /\ try_connect a = 0
    /\ closed_of (snd (connect_loop addresses socketFD tr))
       = closed_of tr ++ List.filter (fun s => 0 <=? s) (map try_socket before).
Proof.
  revert socketFD tr.
  induction addresses as [|a rest IH]; intros socketFD tr Hfd; cbn [connect_loop].
  - cbn. lia.
  - destruct (try_socket a <? 0) eqn:Hs.
    + intros Hok.
      destruct (IH (try_socket a) tr ltac:(lia) Hok) as (before & b & after & -> & Hb & Hc & Hcl).
      exists (a :: before), b, after. cbn [map List.filter].
      assert (Hn : (0 <=? try_socket a) = false) by lia. rewrite Hn. auto.
    + destruct (try_connect a =? 0) eqn:Hc0; cbn [fst snd].
      * intros _. exists [], a, rest. cbn. rewrite app_nil_r.
        repeat split; try reflexivity; lia.
      * intros Hok.
        destruct (IH (-1) (tr ++ [EvClose (try_socket a)]) ltac:(lia) Hok)
          as (before & b & after & -> & Hb & Hc & Hcl).
        exists (a :: before), b, after. cbn [map List.filter].
        assert (Hn : (0 <=? try_socket a) = true) by lia. rewrite Hn.
        rewrite Hcl, closed_of_app, <- app_assoc. auto.
Qed.

(** [createSocketConnection] neither writes nor reads. *)
Lemma conn_quiet h p :
  sends_of (snd (createSocketConnection net_connect h p [])) = []
  /\ received_of (snd (createSocketConnection net_connect h p [])) = [].
Proof.
  unfold createSocketConnection. destruct (net_connect [] h p) as [addresses|].
  - destruct (connect_loop_trace addresses (-1) []) as (cl & Hcl).
    destruct (connect_loop addresses (-1) []) as [sock tr1]. cbn [fst snd app] in *. subst tr1.
    destruct (closes_only cl) as [Hs Hr].
    rewrite sends_of_app, received_of_app, Hs, Hr. split; reflexivity.
  - split; reflexivity.
Qed.

(** What [createSocketConnection] has closed when it returns. *)
Lemma conn_closes h p :
  let conn := createSocketConnection net_connect h p [] in
  match net_connect [] h p with
  | None => fst conn = -1 /\ closed_of (snd conn) = []
  | Some addresses =>
      (fst conn < 0 ->
       closed_of (snd conn) = List.filter (fun s => 0 <=? s) (map try_socket addresses))
      /\ (0 <= fst conn ->
          exists before a after,
            addresses = before ++ a :: after
            /\ try_socket a = fst conn /\ try_connect a = 0
            /\ closed_of (snd conn)
               = List.filter (fun s => 0 <=? s) (map try_socket before))
  end.
Proof.
  unfold createSocketConnection. destruct (net_connect [] h p) as [addresses|].
  2:{ split; reflexivity. }
  pose proof (connect_loop_failed addresses (-1) []) as Hfail.
  pose proof (connect_loop_connected addresses (-1) [] ltac:(lia)) as Hok.
  destruct (connect_loop addresses (-1) []) as [sock tr1]. cbn [fst snd] in *.
  split.
  - intros Hneg. rewrite closed_of_app, (Hfail Hneg). cbn. apply app_nil_r.
  - intros Hpos. destruct (Hok Hpos) as (before & a & after & H1 & H2 & H3 & H4).
    exists before, a, after. rewrite closed_of_app, H4. cbn. rewrite app_nil_r. auto.
Qed.

(** How [startCommunication] can go, from an empty trace: either no
    connection is made and nothing is written, or one is made, and then the
    socket is closed exactly on an error, and a write happens only after a
    greeting, the first one being the [NICK] line. *)
Lemma start_shape fuel h p nickname :
  let conn := createSocketConnection net_connect h p [] in
  let r := startCommunication net_connect net_select net_recv net_send stdin_getline
             clock fuel h p nickname [] in
  fst r = fst conn
  /\ ((fst conn < 0 /\ snd (snd r) = Returned
       /\ sends_of (fst (snd r)) = [] /\ closed_of (fst (snd r)) = closed_of (snd conn))
      \/ (0 <= fst conn
          /\ closed_of (fst (snd r)) = closed_of (snd conn) ++ closes_for (fst r) (snd (snd r))
          /\ ((sends_of (fst (snd r)) = [] /\ snd (snd r) <> Returned)
              \/ exists pre n new,
                   fst (snd r) = pre ++ EvSend (fst r) (lit "NICK " ++ nickname ++ [LF]) n :: new
                   /\ sends_of pre = []
                   /\ find_str (lit "HELLO 1") (received_of pre) <> None
                   /\ Forall (client_write_ok (fst r)) (sends_of new)))).
Proof.
  cbn zeta. unfold startCommunication.
  destruct (conn_quiet h p) as (Hqs & Hqr).
  destruct (createSocketConnection net_connect h p []) as [s tr1]. cbn [fst snd] in Hqs, Hqr.
  destruct (s <? 0) eqn:Hs.
  { cbn [fst snd]. split; [reflexivity |]. left.
    rewrite sends_of_app, closed_of_app, Hqs. cbn. rewrite app_nil_r.
    repeat split; try reflexivity; lia. }
  set (tr2 := tr1 ++ [EvStdout (lit "Connected to server at " ++ h ++ lit ":" ++ p ++ [LF])]).
  assert (Ht2 : sends_of tr2 = [] /\ closed_of tr2 = closed_of tr1 /\ received_of tr2 = []).
  { subst tr2. rewrite sends_of_app, closed_of_app, received_of_app, Hqs, Hqr.
    cbn. rewrite app_nil_r. auto. }
  destruct Ht2 as (Ht2s & Ht2c & Ht2r).
  destruct (await_greeting_shape s fuel [] tr2) as (g & Hg & Hgs & Hgc & Hgreet).
  assert (Hne : s <> -1) by lia. assert (Hne' : (s =? -1) = false) by lia.
  assert (Hpre : sends_of (tr2 ++ g) = [] /\ closed_of (tr2 ++ g) = closed_of tr1
                 /\ received_of (tr2 ++ g) = received_of g).
  { rewrite sends_of_app, closed_of_app, received_of_app, Ht2s, Ht2c, Ht2r, Hgs, Hgc.
    rewrite !app_nil_r. repeat split; reflexivity. }
  destruct Hpre as (Hps & Hpc & Hpr).
  destruct (await_greeting net_select net_recv clock fuel s [] tr2) as [[[|]|] tr3];
    cbn [fst snd] in *; subst tr3.
  - (* greeting seen *)
    specialize (Hgreet eq_refl). cbn [app] in Hgreet.
    unfold sendNicknameToServer, send_or_fail, handleError, gracefulShutdown.
    rewrite Hne'.
    destruct (net_send (tr2 ++ g) s (lit "NICK " ++ nickname ++ [LF]) <? 0).
    + cbn [fst snd]. split; [reflexivity |]. right. split; [lia |]. split.
      * rewrite !closed_of_app, Ht2c, Hgc. cbn. rewrite ?app_nil_r. reflexivity.
      * right. exists (tr2 ++ g), (net_send (tr2 ++ g) s (lit "NICK " ++ nickname ++ [LF])),
          [EvStderr (lit "Failed to send nickname to server." ++ [LF]); EvClose s].
        split; [rewrite <- !app_assoc; reflexivity |].
        split; [exact Hps |]. split; [rewrite Hpr; exact Hgreet | constructor].
    + destruct (recv_loop_shape s fuel []
                  (((tr2 ++ g) ++ [EvSend s (lit "NICK " ++ nickname ++ [LF])
                                     (net_send (tr2 ++ g) s (lit "NICK " ++ nickname ++ [LF]))])
                     ++ [EvStdout (lit_nl "Nickname sent successfully. Handshake complete.")])
                  Hne) as (new & Hnew & Hgood & Hcl).
      cbn [fst snd]. split; [reflexivity |]. right. split; [lia |]. split.
      * rewrite Hnew, !closed_of_app, Ht2c, Hgc, Hcl. cbn. rewrite ?app_nil_r. reflexivity.
      * right. exists (tr2 ++ g), (net_send (tr2 ++ g) s (lit "NICK " ++ nickname ++ [LF])),
          (EvStdout (lit_nl "Nickname sent successfully. Handshake complete.") :: new).
        split; [rewrite Hnew, <- !app_assoc; reflexivity |].
        split; [exact Hps |]. split; [rewrite Hpr; exact Hgreet | exact Hgood].
  - (* no greeting *)
    unfold handleError, gracefulShutdown. rewrite Hne'. cbn [fst snd].
    split; [reflexivity |]. right. split; [lia |]. split.
    + rewrite !closed_of_app, Ht2c, Hgc. cbn. rewrite ?app_nil_r. reflexivity.
    + left. split; [|discriminate]. rewrite !sends_of_app, Ht2s, Hgs. reflexivity.
  - (* still waiting *)
    cbn [fst snd]. split; [reflexivity |]. right. split; [lia |]. split.
    + rewrite Hpc, app_nil_r. reflexivity.
    + left. split; [exact Hps | discriminate].
Qed.

(** What [main] adds to a run of [startCommunication]: the destructor's
    [close] once the run is over, and the message of the exception. *)
Lemma main_shape fuel prog address nickname h p :
  splitHostPort address = (Some (h, p), []) ->
  let r := startCommunication net_connect net_select net_recv net_send stdin_getline
             clock fuel h p nickname [] in
  let m := main net_connect net_select net_recv net_send stdin_getline clock fuel
             [prog; address; nickname] in
  exists extra,
    fst m = fst (snd r) ++ extra
    /\ sends_of extra = []
    /\ closed_of extra
       = match snd (snd r) with
         | Running => []
         | _ => if fst r =? -1 then [] else [fst r]
         end
    /\ snd m = match snd (snd r) with
               | Running => None
               | Returned => Some 0
               | Threw _ => Some 1
               end.
Proof.
  intros Hsplit. cbn [main]. rewrite Hsplit.
  destruct (startCommunication _ _ _ _ _ _ fuel h p nickname []) as [sock [tr [| |what]]];
    cbn [fst snd]; unfold gracefulShutdown.
  - exists []. rewrite app_nil_r. auto.
  - destruct (sock =? -1).
    + exists []. rewrite app_nil_r. auto.
    + exists [EvClose sock]. auto.
  - destruct (sock =? -1).
    + exists [EvStderr (what ++ [LF])]. auto.
    + exists [EvClose sock; EvStderr (what ++ [LF])].
      rewrite <- app_assoc. auto.
Qed.


Lemma split_Some address h p :
  fst (splitHostPort address) = Some (h, p) -> splitHostPort address = (Some (h, p), []).
Proof.
  destruct (split_cases address) as [(m & ->) | (h' & p' & ->)]; cbn; [discriminate |].
  intros H. injection H as -> ->. reflexivity.
Qed.

(** Every way [main] can go, seen from its writes. *)
Lemma main_sends fuel argv :
  let m := main net_connect net_select net_recv net_send stdin_getline clock fuel argv in
  sends_of (fst m) = []
  \/ exists prog address nickname sock pre n post,
       argv = [prog; address; nickname]
       /\ fst m = pre ++ EvSend sock (lit "NICK " ++ nickname ++ [LF]) n :: post
       /\ sends_of pre = []
       /\ find_str (lit "HELLO 1") (received_of pre) <> None
       /\ Forall (client_write_ok sock) (sends_of post).
Proof.
  destruct argv as [|prog [|address [|nickname [|x argv]]]]; try (left; reflexivity).
  destruct (split_cases address) as [(msg & Hsplit) | (h & p & Hsplit)].
  { left. cbn [main]. rewrite Hsplit. reflexivity. }
  destruct (main_shape fuel prog address nickname h p Hsplit)
    as (extra & Hm & Hsends & _ & _).
  destruct (start_shape fuel h p nickname)
    as (_ & [(_ & _ & Hs & _) | (_ & _ & [[Hs _] | (pre & n & new & Htr & Hpre & Hgreet & Hok)])]).
  - left. cbn zeta. rewrite Hm, sends_of_app, Hs, Hsends. reflexivity.
  - left. cbn zeta. rewrite Hm, sends_of_app, Hs, Hsends. reflexivity.
  - right. exists prog, address, nickname. eexists. exists pre, n, (new ++ extra).
    split; [reflexivity |]. split.
    + cbn zeta. rewrite Hm, Htr, <- app_assoc. reflexivity.
    + split; [exact Hpre |]. split; [exact Hgreet |].
      rewrite sends_of_app, Hsends, app_nil_r. exact Hok.
Qed.

(** X18. Whatever the server and the console do, the client writes
    nothing at all, or first the [NICK] line with its nickname and after that
    only chat lines [MSG <text>\n] whose text is at most 255 bytes: a longer
    console line is never sent. *)
Theorem client_writes_nick_then_bounded_messages fuel argv :
  let m := main net_connect net_select net_recv net_send stdin_getline clock fuel argv in
  sends_of (fst m) = []
  \/ exists prog address nickname sock msgs,
       argv = [prog; address; nickname]
       /\ sends_of (fst m) = (sock, lit "NICK " ++ nickname ++ [LF]) :: msgs
       /\ Forall (client_write_ok sock) msgs.
Proof.
  destruct (main_sends fuel argv)
    as [H | (prog & address & nickname & sock & pre & n & post & -> & Hm & Hpre & _ & Hok)].
  - left. exact H.
  - right. exists prog, address, nickname, sock, (sends_of post).
    split; [reflexivity |]. split; [|exact Hok].
    cbn zeta. rewrite Hm, sends_of_app, Hpre. reflexivity.
Qed.


(** X17. When no connection is made ([createSocketConnection] returns
    -1: the host does not resolve, or [socket] or [connect] fails on every
    address), the client stops with exit status 0, having written to no
    socket and having closed exactly the sockets it had opened, each once, in
    the order of the addresses. *)
Theorem client_exits_zero_when_connect_fails fuel prog address nickname h p :
  fst (splitHostPort address) = Some (h, p) ->
  fst (createSocketConnection net_connect h p []) = -1 ->
  let m := main net_connect net_select net_recv net_send stdin_getline clock fuel
             [prog; address; nickname] in
  snd m = Some 0
  /\ sends_of (fst m) = []
  /\ closed_of (fst m)
     = match net_connect [] h p with
       | None => []
       | Some addresses => List.filter (fun s => 0 <=? s) (map try_socket addresses)
       end.
Proof.
  intros Hsplit Hconn. apply split_Some in Hsplit.
  destruct (main_shape fuel prog address nickname h p Hsplit)
    as (extra & Hm & Hsends & Hcl & Hcode).
  pose proof (conn_closes h p) as Hcc. cbn zeta in Hcc.
  destruct (start_shape fuel h p nickname)
    as (Hsock & [(_ & Hret & Hs & Hc) | (Hok & _)]); [|lia].
  cbn zeta. rewrite Hcode, Hm, sends_of_app, closed_of_app, Hs, Hc, Hsends, Hcl, Hret, Hsock, Hconn.
  cbn. rewrite app_nil_r. repeat split.
  destruct (net_connect [] h p) as [addresses|].
  - apply Hcc. lia.
  - apply Hcc.
Qed.


End ClientRuns.

(** X21. What the server broadcasts the client prints without the
    [MSG ] prefix: given the line [MSG <nick> <text>\n], nickname and text free
    of ['\n'], the client's line loop prints [<nick> <text>\n] and leaves its
    buffer empty. *)
Theorem client_prints_broadcast_without_prefix (c : Server.Client) (text : bytes)
    (tr : trace) :
  ~ In LF (Server.nick c) -> ~ In LF text ->
  NetworkClient.print_lines (length (envelope c text)) (envelope c text) tr
  = ([], tr ++ [EvStdout (Server.nick c ++ lit " " ++ text ++ [LF])]).
Proof.
  intros Hnick Htext. unfold envelope.
  set (raw := lit "MSG " ++ Server.nick c ++ lit " " ++ text).
  assert (Hbuf : lit "MSG " ++ Server.nick c ++ lit " " ++ text ++ [LF] = raw ++ LF :: [])
    by (subst raw; rewrite <- !app_assoc; reflexivity).
  assert (Hraw : ~ In LF raw).
  { subst raw. intros Hin.
    apply in_app_or in Hin as [Hin|Hin]; [cbn in Hin; intuition discriminate |].
    apply in_app_or in Hin as [Hin|Hin]; [tauto |].
    apply in_app_or in Hin as [Hin|Hin]; [cbn in Hin; intuition discriminate | tauto]. }
  rewrite Hbuf. rewrite length_app. cbn [length]. rewrite Nat.add_1_r.
  cbn [NetworkClient.print_lines].
  rewrite (find_char_first LF raw [] Hraw).
  unfold substr, erase_front, substr_from.
  rewrite drop_0, take_ge, drop_ge by (rewrite length_app; cbn; lia).
  rewrite <- Hbuf, find_str_unfold, starts_with_app.
  destruct (length raw); reflexivity.
Qed.

Lemma client_prints_broadcast_without_prefix_witness :
  NetworkClient.print_lines 13 (lit_nl "MSG alice hi") []
  = ([], [EvStdout (lit_nl "alice hi")]).
Proof.
  refine (client_prints_broadcast_without_prefix sample_alice (lit "hi") [] _ _).
  - cbn. intuition discriminate.
  - cbn. intuition discriminate.
Defined.

(** X22. The client's [main] exits with status 1 before any network call,
    with messages on [stderr] only, when it is not given exactly two
    arguments or when the address does not split into host and port. *)
Theorem client_main_rejects_bad_arguments (argv : list bytes) :
  (length argv <> 3%nat
   \/ exists prog address nickname,
        argv = [prog; address; nickname]
        /\ fst (NetworkClient.splitHostPort address) = None) ->
  exists tr,
    Forall (fun e => exists text, e = EvStderr text) tr
    /\ forall net_connect net_select net_recv net_send stdin_getline clock fuel,
         NetworkClient.main net_connect net_select net_recv net_send stdin_getline
           clock fuel argv
         = (tr, Some 1).
Proof.
  intros [Hlen | (prog & address & nickname & -> & Hsplit)].
  - destruct argv as [|a [|b [|c [|d argv]]]];
      try (eexists; split; [|intros; reflexivity]; repeat constructor; eauto).
    cbn in Hlen. congruence.
  - destruct (split_cases address) as [(msg & Hs) | (h & p & Hs)].
    + eexists. split; [|intros; cbn [NetworkClient.main]; rewrite Hs; reflexivity].
      repeat constructor; eauto.
    + rewrite Hs in Hsplit. discriminate.
Qed.

Lemma client_main_rejects_bad_arguments_witness :
  exists tr,
    Forall (fun e => exists text, e = EvStderr text) tr
    /\ forall net_connect net_select net_recv net_send stdin_getline clock fuel,
         NetworkClient.main net_connect net_select net_recv net_send stdin_getline
           clock fuel [lit "client"; lit ":9999"; lit "bob"]
         = (tr, Some 1).
Proof.
  apply client_main_rejects_bad_arguments.
  right. exists (lit "client"), (lit ":9999"), (lit "bob"). split; reflexivity.
Defined.


Lemma client_exits_zero_when_connect_fails_witness :
  let m := NetworkClient.main connect_refused select_all_ready recv_greeting send_all
             console_eof clock_zero 2 [lit "client"; lit "127.0.0.1:9999"; lit "bob"] in
  snd m = Some 0 /\ sends_of (fst m) = [] /\ closed_of (fst m) = [3; 3].
Proof.
  refine (client_exits_zero_when_connect_fails connect_refused
            select_all_ready recv_greeting send_all console_eof clock_zero 2
            (lit "client") (lit "127.0.0.1:9999") (lit "bob")
            (lit "127.0.0.1") (lit "9999") _ _).
  - reflexivity.
  - reflexivity.
Defined.


(* ===================================================================== *)
(** ** Further properties: the chat line from console to console *)
(* ===================================================================== *)

Lemma alphabet_not_space c : In c nick_alphabet -> c <> " "%char.
Proof.
  unfold nick_alphabet. cbn. intros H.
  repeat (destruct H as [<-|H]; [discriminate |]). destruct H.
Qed.

Lemma valid_nick_no_space name :
  Server.is_valid_nick name = true -> ~ In " "%char name.
Proof.
  intros H Hin. apply regex_match_nick_pattern in H as [_ Hall].
  rewrite Forall_forall in Hall. apply list_elem_of_In, Hall in Hin.
  exact (alphabet_not_space _ Hin eq_refl).
Qed.

(** X23. The broadcast line can be read back: two envelopes
    [MSG <nick> <text>\n] with valid nicknames that are the same bytes carry
    the same nickname and the same text, the nickname ending at the first
    space. *)
Theorem broadcast_line_is_unambiguous (c c' : Server.Client) (text text' : bytes) :
  Server.is_valid_nick (Server.nick c) = true ->
  Server.is_valid_nick (Server.nick c') = true ->
  envelope c text = envelope c' text' ->
  Server.nick c = Server.nick c' /\ text = text'.
Proof.
  intros Hc Hc' Heq. unfold envelope in Heq.
  apply app_inv_head in Heq.
  change (lit " " ++ ?t) with (" "%char :: t) in Heq.
  pose proof (find_char_first " " (Server.nick c) (text ++ [LF])
                (valid_nick_no_space _ Hc)) as H1.
  pose proof (find_char_first " " (Server.nick c') (text' ++ [LF])
                (valid_nick_no_space _ Hc')) as H2.
  rewrite Heq, H2 in H1. injection H1 as Hlen.
  assert (Hnick : Server.nick c = Server.nick c').
  { apply (f_equal (take (length (Server.nick c)))) in Heq.
    rewrite take_app_length in Heq. rewrite <- Hlen, take_app_length in Heq.
    exact Heq. }
  split; [exact Hnick |].
  rewrite Hnick in Heq. apply app_inv_head in Heq. injection Heq as Heq.
  apply app_inv_tail in Heq. exact Heq.
Qed.

Lemma broadcast_line_is_unambiguous_witness :
  Server.nick sample_alice = Server.nick (Server.mkClient 9 (lit "alice") (lit "x") true)
  /\ lit "hi" = lit "hi".
Proof.
  apply (broadcast_line_is_unambiguous sample_alice
           (Server.mkClient 9 (lit "alice") (lit "x") true) (lit "hi") (lit "hi")).
  - vm_compute. reflexivity.
  - vm_compute. reflexivity.
  - reflexivity.
Defined.

Lemma pop_eols_keeps_tail r q :
  match q with [] => False | c :: _ => is_eol c = false end ->
  pop_eols (r ++ q) = pop_eols r ++ q.
Proof.
  intros Hq. induction r as [|c r IH]; cbn.
  - apply pop_eols_fixed. destruct q; [destruct Hq | exact Hq].
  - destruct (is_eol c); [exact IH | reflexivity].
Qed.

(** Stripping reaches only what follows the command prefix. *)
Lemma chomp_after_msg m : chomp (lit "MSG " ++ m) = lit "MSG " ++ chomp m.
Proof.
  unfold chomp. rewrite rev_app_distr, pop_eols_keeps_tail by reflexivity.
  rewrite rev_app_distr, rev_involutive. reflexivity.
Qed.

Section Relay.

Import Server.

Variable net_send : trace -> Z -> bytes -> Z.

(** X24. A chat line as the client sends it, [MSG <m>\n] with no ['\n']
    inside [<m>], arriving whole on a registered connection whose accumulator
    is empty: when [<m>] without its trailing ['\r'] bytes is at most 255
    bytes long, exactly that text is broadcast in the sender's envelope to
    the recipients, and the vector is unchanged. *)
Theorem chat_line_is_relayed_without_trailing_cr st i c m :
  clients st !! i = Some c -> registered c = true -> inbuf c = [] ->
  ~ In LF m -> (length (chomp m) <= 255)%nat ->
  let st' := deliver net_send i (lit "MSG " ++ m ++ [LF]) st in
  clients st' = clients st
  /\ sends_of (log st')
     = sends_of (log st)
       ++ map (fun d => (fd d, envelope c (chomp m))) (recipients c (clients st)).
Proof.
  intros Hc Hreg Hbuf Hm Hlen st'. subst st'.
  rewrite (deliver_frames net_send i _ st c Hc). unfold feed. rewrite Hbuf. cbn [app].
  assert (Hno : ~ In LF (lit "MSG " ++ m)).
  { intros Hin. apply in_app_or in Hin as [Hin|Hin]; [|tauto].
    cbn in Hin. intuition discriminate. }
  assert (Hframe : frame_all (lit "MSG " ++ m ++ [LF]) = ([lit "MSG " ++ chomp m], [])).
  { rewrite frame_all_unfold, app_assoc, (next_line_first _ [] Hno), chomp_after_msg.
    reflexivity. }
  rewrite Hframe. cbn [fst snd]. unfold handle_lines. cbn [foldl].
  assert (Hline : is_line (lit "MSG " ++ chomp m)).
  { rewrite <- chomp_after_msg. apply chomp_is_line. }
  destruct (handle_line_msg net_send st i c (chomp m) Hc Hreg Hline Hlen) as [Hcs Hsends].
  unfold set_inbuf_at. rewrite Hcs, Hc. cbn [clients log]. split.
  - rewrite <- Hbuf. replace (set_inbuf c (inbuf c)) with c by (destruct c; reflexivity).
    apply list_insert_id. exact Hc.
  - exact Hsends.
Qed.

End Relay.

Lemma chat_line_is_relayed_without_trailing_cr_witness :
  sends_of (Server.log (deliver send_all 0 (lit "MSG " ++ (lit "hi" ++ [CR]) ++ [LF])
                          sample_state))
  = [(5, lit_nl "MSG alice hi"); (6, lit_nl "MSG alice hi")].
Proof.
  refine (proj2 (chat_line_is_relayed_without_trailing_cr send_all sample_state 0
                   sample_alice (lit "hi" ++ [CR]) _ _ _ _ _)).
  - reflexivity.
  - reflexivity.
  - reflexivity.
  - cbn. intuition discriminate.
  - vm_compute. lia.
Defined.

(* ===================================================================== *)
(** ** Giving a connection up: closed when marked, erased after the pass *)
(* ===================================================================== *)

Section ClosedWhenMarked.

Import Server.

Variable net_send : trace -> Z -> bytes -> Z.
Variable net_recv : trace -> Z -> Z * bytes.
Variable ready : Z -> bool.

(** A turn whose read returns zero or an error: the handle is closed, the
    entry gets the handle [-1] and its index joins the marks. *)
Lemma pass_body_marked i st marks c :
  clients st !! i = Some c ->
  turn_marks net_recv ready i st = true ->
  exists r buf,
    r <= 0 /\ 0 <= fd c
    /\ pass_body net_send net_recv ready i st marks
       = (mkState (<[i := set_fd c (-1)]> (clients st))
                  (log st ++ [EvRecv (fd c) r buf; closing_notice c r; EvClose (fd c)]),
          marks ++ [int_of_size_t i]).
Proof.
  intros Hc. unfold turn_marks, Server.pass_body, Server.recv_into, Server.drop_client.
  rewrite Hc. intros Htest.
  apply andb_true_iff in Htest as [Htest Hn].
  apply andb_true_iff in Htest as [Hfd Hready].
  assert (H0 : (fd c <? 0) = false) by lia. rewrite H0, Hready. cbn [negb].
  destruct (net_recv (log st) (fd c)) as [r buf]. cbn [fst] in Hn.
  exists r, buf. split; [lia |]. split; [lia |].
  assert (Hpos : (0 <? r) = false) by lia. rewrite Hpos.
  unfold closing_notice.
  destruct (r =? 0) eqn:H1; [|assert (H2 : (r <? 0) = true) by lia; rewrite H2];
    cbn [clients log]; rewrite Hc, <- app_assoc; reflexivity.
Qed.

(** The turns after its own leave an entry as it is. *)
Lemma pass_loop_earlier k k' st j :
  (j < k)%nat -> (k <= k')%nat ->
  clients (fst (pass_loop net_send net_recv k' ready 0 st [])) !! j
  = clients (fst (pass_loop net_send net_recv k ready 0 st [])) !! j.
Proof.
  intros Hj. induction 1 as [|k' Hk IH]; [reflexivity |].
  rewrite pass_loop_S.
  destruct (pass_loop net_send net_recv k' ready 0 st []) as [s m].
  cbn [fst Nat.add] in *.
  destruct (k' <? length (clients s))%nat; [|exact IH].
  rewrite (in_place_at_others k' (clients s)); [exact IH | | lia].
  apply pass_body_in_place.
Qed.

Lemma evolves_trans c1 c2 c3 : evolves c1 c2 -> evolves c2 c3 -> evolves c1 c3.
Proof.
  intros H12. induction 1 as [|c2 c3 c4 _ IH Hstep]; [exact H12 |].
  eapply ev_step; [apply IH; exact H12 | exact Hstep].
Qed.

Lemma evolves_all_same cs : Forall2 evolves cs cs.
Proof. induction cs; constructor; [apply ev_same | assumption]. Qed.

Lemma in_place_at_evolves i cs cs' : in_place_at i cs cs' -> Forall2 evolves cs cs'.
Proof.
  induction 1 as [cs | cs cs' c c' _ IH Hc Hstep]; [apply evolves_all_same |].
  destruct (cs !! i) as [x|] eqn:Hx.
  - rewrite <- (list_insert_id cs i x Hx). apply Forall2_insert; [exact IH |].
    eapply ev_step; [|exact Hstep]. exact (Forall2_lookup_lr _ _ _ _ _ _ IH Hx Hc).
  - exfalso. apply Forall2_length in IH.
    apply lookup_ge_None in Hx. apply lookup_lt_Some in Hc. lia.
Qed.

(** Throughout the pass every index holds the connection it held at the
    start, changed in place at most. *)
Lemma pass_loop_evolves k st :
  Forall2 evolves (clients st) (clients (fst (pass_loop net_send net_recv k ready 0 st []))).
Proof.
  induction k as [|k IH]; [apply evolves_all_same |].
  rewrite pass_loop_S.
  destruct (pass_loop net_send net_recv k ready 0 st []) as [s m].
  cbn [fst Nat.add] in *.
  destruct (k <? length (clients s))%nat; [|exact IH].
  eapply Forall2_trans; [apply evolves_trans | exact IH |].
  eapply in_place_at_evolves, pass_body_in_place.
Qed.

(** Erasing an entry whose handle is negative closes nothing. *)
Lemma cleanup_quiet marked n st :
  (n <= length (clients st))%nat -> Z.of_nat (length (clients st)) < 2 ^ 31 ->
  (forall j c, (j < n)%nat -> marked j = true -> clients st !! j = Some c -> fd c < 0) ->
  log (foldl cleanup_step st (map Z.of_nat (rev (List.filter marked (seq 0 n)))))
  = log st.
Proof.
  revert st. induction n as [|n IH]; intros st Hn Hsmall Hdead; [reflexivity |].
  destruct (clients st !! n) as [x|] eqn:Hx;
    [|apply lookup_ge_None in Hx; lia].
  rewrite seq_S, List.filter_app, rev_app_distr. cbn [Nat.add List.filter].
  destruct (marked n) eqn:Hm; cbn [rev app map foldl].
  - unfold cleanup_step at 2.
    rewrite int_of_size_t_small by lia.
    assert (Hguard : (0 <=? Z.of_nat n) && (Z.of_nat n <? Z.of_nat (length (clients st))) = true)
      by (apply andb_true_iff; split; lia).
    rewrite Hguard, Nat2Z.id, Hx.
    assert (Hneg : (0 <=? fd x) = false).
    { pose proof (Hdead n x ltac:(lia) Hm Hx). lia. }
    rewrite Hneg.
    rewrite IH; cbn [clients log]; [reflexivity | | |].
    + rewrite length_delete by (rewrite Hx; eauto). lia.
    + rewrite length_delete by (rewrite Hx; eauto). lia.
    + intros j c Hj Hmj Hjc. apply (Hdead j c); [lia | exact Hmj |].
      rewrite list_lookup_delete_lt in Hjc by lia. exact Hjc.
  - apply IH; [lia | exact Hsmall |].
    intros j c Hj. apply Hdead. lia.
Qed.

(** C8 (as the code has it). Within one readiness pass over fewer than
    2^31 connections, a connection whose read returns zero or an error is
    given up on the spot: its handle is closed, the handle of its entry is set
    to -1 and its index is marked, all in its own turn.  The vector keeps its
    size throughout the pass, every index holding the connection it held at
    the start, changed in place at most, and no entry is touched before its
    turn; a turn that does not mark changes no handle and no mark.  When the pass
    completes the marks are the indices whose read failed, in increasing
    order, and each of these entries has the handle -1.  The clean-up then
    erases exactly the marked entries and closes nothing: every unmarked entry
    remains, in order, as the pass left it. *)
Theorem C8_closed_when_marked_erased_after_pass (st : State) :
  Z.of_nat (length (clients st)) < 2 ^ 31 ->
  let n := length (clients st) in
  let marked := read_fails_at net_send net_recv ready st in
  let at_turn k := pass_loop net_send net_recv k ready 0 st [] in
  let st1 := fst (readiness_pass net_send net_recv ready st) in
  let to_remove := snd (readiness_pass net_send net_recv ready st) in
  let st2 := cleanup to_remove st1 in
  (forall k, length (clients (fst (at_turn k))) = n)
  /\ (forall k, Forall2 evolves (clients st) (clients (fst (at_turn k))))
  /\ (forall k j, (k <= j)%nat -> clients (fst (at_turn k)) !! j = clients st !! j)
  /\ (forall i c, marked i = true -> clients st !! i = Some c ->
        exists r buf,
          r <= 0 /\ 0 <= fd c
          /\ at_turn (S i)
             = (mkState (<[i := set_fd c (-1)]> (clients (fst (at_turn i))))
                        (log (fst (at_turn i))
                           ++ [EvRecv (fd c) r buf; closing_notice c r; EvClose (fd c)]),
                snd (at_turn i) ++ [Z.of_nat i]))
  /\ (forall i, marked i = false ->
        map fd (clients (fst (at_turn (S i)))) = map fd (clients (fst (at_turn i)))
        /\ snd (at_turn (S i)) = snd (at_turn i))
  /\ to_remove = map Z.of_nat (List.filter marked (seq 0 n))
  /\ (forall i c, marked i = true -> clients st1 !! i = Some c -> fd c = -1)
  /\ clients st2 = unmarked_from marked 0 (clients st1)
  /\ log st2 = log st1.
Proof.
  intros Hsmall n marked at_turn st1 to_remove st2.
  assert (Hlen : forall k, length (clients (fst (at_turn k))) = n)
    by (intros k; apply pass_loop_length).
  assert (Hlater : forall k j, (k <= j)%nat ->
                     clients (fst (at_turn k)) !! j = clients st !! j)
    by (intros k j Hkj; apply pass_loop_later; lia).
  assert (Hmarks : to_remove = map Z.of_nat (List.filter marked (seq 0 n)))
    by (apply pass_loop_marks; [reflexivity | exact Hsmall]).
  assert (Hturn : forall i c, marked i = true -> clients st !! i = Some c ->
            exists r buf,
              r <= 0 /\ 0 <= fd c
              /\ at_turn (S i)
                 = (mkState (<[i := set_fd c (-1)]> (clients (fst (at_turn i))))
                            (log (fst (at_turn i))
                               ++ [EvRecv (fd c) r buf; closing_notice c r; EvClose (fd c)]),
                    snd (at_turn i) ++ [Z.of_nat i])).
  { intros i c Hm Hc.
    assert (Hi : (i < n)%nat) by (apply lookup_lt_Some in Hc; exact Hc).
    pose proof (Hlen i) as Hli. pose proof (Hlater i i ltac:(lia)) as Hci.
    rewrite Hc in Hci. subst at_turn. cbn beta in *.
    rewrite pass_loop_S. unfold marked, read_fails_at in Hm.
    destruct (pass_loop net_send net_recv i ready 0 st []) as [s m].
    cbn [fst snd Nat.add] in *.
    assert (Hlt : (i <? length (clients s))%nat = true) by (apply Nat.ltb_lt; lia).
    rewrite Hlt.
    destruct (pass_body_marked i s m c Hci) as (r & buf & Hr & Hfd & Hbody).
    { unfold turn_marks. exact Hm. }
    exists r, buf. rewrite Hbody, int_of_size_t_small by lia. auto. }
  assert (Hdead : forall i c, marked i = true -> clients st1 !! i = Some c -> fd c = -1).
  { intros i c Hm Hc.
    assert (Hi : (i < n)%nat).
    { apply lookup_lt_Some in Hc. subst st1. unfold readiness_pass in Hc.
      rewrite pass_loop_length in Hc. exact Hc. }
    destruct (clients st !! i) as [c0|] eqn:Hc0; [|apply lookup_ge_None in Hc0; lia].
    destruct (Hturn i c0 Hm Hc0) as (r & buf & _ & _ & Hstep).
    subst st1. unfold readiness_pass in Hc.
    rewrite (pass_loop_earlier (S i) (length (clients st)) st i) in Hc by lia.
    fold (at_turn (S i)) in Hc. rewrite Hstep in Hc. cbn [fst clients] in Hc.
    rewrite list_lookup_insert_eq in Hc by (rewrite Hlen; exact Hi).
    injection Hc as <-. reflexivity. }
  split; [exact Hlen |]. split; [intros k; apply pass_loop_evolves |].
  split; [exact Hlater |]. split; [exact Hturn |].
  split.
  { intros i Hm. subst at_turn. cbn beta. rewrite pass_loop_S.
    unfold marked, read_fails_at in Hm.
    destruct (pass_loop net_send net_recv i ready 0 st []) as [s m].
    cbn [fst snd Nat.add] in *.
    destruct (i <? length (clients s))%nat; [|split; reflexivity].
    split.
    - apply pass_body_fds_unmarked. exact Hm.
    - rewrite pass_body_marks. unfold turn_marks in Hm.
      destruct (clients s !! i) as [c|]; [|reflexivity].
      rewrite Hm. reflexivity. }
  split; [exact Hmarks |]. split; [exact Hdead |].
  split; [apply cleanup_after_pass; exact Hsmall |].
  subst st2. rewrite cleanup_unfold, Hmarks, sort_desc_marks.
  apply cleanup_quiet.
  - subst st1 n. unfold readiness_pass. rewrite pass_loop_length. lia.
  - subst st1. unfold readiness_pass. rewrite pass_loop_length. exact Hsmall.
  - intros j c _ Hm Hc. rewrite (Hdead j c Hm Hc). lia.
Qed.

End ClosedWhenMarked.

(** C8 as stated fails: a connection whose read fails is not only marked
    during the pass, and it is not closed after it.  In the pass over the
    sample the second connection is at end of stream: after two of the three
    turns, with the third connection still to be marked, its handle has been
    closed and its entry holds -1; the clean-up after the pass closes
    nothing.  An entry that has been given up also drops out of the
    broadcasts of the same pass while it is still in the vector: in the room
    of three, the first connection leaves, and the line that the third one
    sends later in that pass goes to the second one alone. *)
Lemma C8_handle_closed_before_pass_ends :
  let mid := Server.pass_loop send_all recv_sample 2 all_ready 0 sample_state [] in
  let full := Server.readiness_pass send_all recv_sample all_ready sample_state in
  let room := Server.readiness_pass send_all recv_leave_then_talk ready_4_and_6 sample_room in
  snd mid = [1] /\ snd full = [1; 2]
  /\ map Server.fd (Server.clients (fst mid)) = [4; -1; 6]
  /\ closed_of (Server.log (fst mid)) = [5]
  /\ closed_of (Server.log (fst full)) = [5; 6]
  /\ closed_of (Server.log (Server.cleanup (snd full) (fst full))) = [5; 6]
  /\ map Server.fd (Server.clients (fst room)) = [-1; 5; 6]
  /\ sends_of (Server.log (fst room)) = [(5, lit_nl "MSG carol hi")].
Proof. vm_compute. repeat split. Qed.

(** C8 at the sample: the marks of the pass, and the clean-up. *)
Lemma C8_closed_when_marked_erased_after_pass_witness :
  let full := Server.readiness_pass send_all recv_sample all_ready sample_state in
  let after := Server.cleanup (snd full) (fst full) in
  snd full = [1; 2]
  /\ (forall i c, read_fails_at send_all recv_sample all_ready sample_state i = true ->
        Server.clients (fst full) !! i = Some c -> Server.fd c = -1)
  /\ Server.clients after
     = unmarked_from (read_fails_at send_all recv_sample all_ready sample_state) 0
         (Server.clients (fst full))
  /\ Server.log after = Server.log (fst full).
Proof.
  refine (proj2 (proj2 (proj2 (proj2 (proj2
            (C8_closed_when_marked_erased_after_pass send_all recv_sample all_ready
               sample_state _)))))).
  vm_compute. reflexivity.
Defined.

(* ===================================================================== *)
(** ** Further properties: the listening socket *)
(* ===================================================================== *)

Section StartUp.

Import ServerMain.

Variable net_bind : bytes -> bytes -> bytes + list bind_attempt.
Variable net_send : trace -> Z -> bytes -> Z.
Variable net_recv : trace -> Z -> Z * bytes.
Variable net_accept : trace -> Z.
Variable net_select : trace -> select_result.
Variable sig_running : trace -> bool.

(** The loop passes over the addresses that are of no use, closing the
    sockets it opened on them. *)
Lemma bind_loop_skips before rest lfd tr :
  Forall (fun a => usable a = false) before -> lfd < 0 ->
  exists lfd',
    lfd' < 0
    /\ bind_loop (before ++ rest) lfd tr
       = bind_loop rest lfd' (tr ++ map EvClose (opened_on before)).
Proof.
  intros Hall. revert lfd tr.
  induction Hall as [|a before Ha _ IH]; intros lfd tr Hlfd.
  - exists lfd. cbn. rewrite app_nil_r. auto.
  - cbn [app bind_loop]. unfold usable in Ha. unfold opened_on. cbn [map List.filter].
    destruct (att_socket a <? 0) eqn:Hs.
    + assert (Hn : (0 <=? att_socket a) = false) by lia. rewrite Hn.
      apply IH. lia.
    + assert (Hn : (0 <=? att_socket a) = true) by lia. rewrite Hn in *.
      cbn [andb] in Ha. rewrite Ha.
      destruct (IH (-1) (tr ++ [EvClose (att_socket a)]) ltac:(lia)) as (lfd' & Hneg & Heq).
      exists lfd'. split; [exact Hneg |].
      rewrite Heq, <- app_assoc. reflexivity.
Qed.

(** X25. The server listens on the first address of the [getaddrinfo]
    result on which [socket], [bind] and [listen] all succeed, having closed
    every socket it opened on the addresses before that one.  When there is no
    such address it exits with status 1 after [Failed to bind], every socket
    it opened being closed; when [getaddrinfo] fails it exits with status 1
    after the [getaddrinfo] message and [Failed to bind]. *)
Theorem server_listens_on_first_usable_address turns prog arg host port before :
  split_hostport arg = Some (host, port) ->
  Forall (fun a => usable a = false) before ->
  let m := main net_bind net_send net_recv net_accept net_select sig_running turns
             [prog; arg] in
  (forall a after,
     usable a = true -> net_bind host port = inr (before ++ a :: after) ->
     let r := Server.serve net_send net_recv net_accept net_select sig_running turns
                (att_socket a)
                (Server.mkState []
                   (map EvClose (opened_on before)
                      ++ [EvStdout (lit "[x] Listening on " ++ host ++ lit ":" ++ port
                                      ++ [LF])])) in
     m = (Server.log (fst r), if snd r then Some 0 else None))
  /\ (net_bind host port = inr before ->
      m = (map EvClose (opened_on before) ++ [EvStderr (lit_nl "Failed to bind")], Some 1))
  /\ (forall text, net_bind host port = inl text ->
      m = ([EvStderr (lit "getaddrinfo: " ++ text ++ [LF]);
            EvStderr (lit_nl "Failed to bind")], Some 1)).
Proof.
  intros Hsplit Hall m. subst m. cbn [main]. rewrite Hsplit. unfold create_and_bind.
  split; [|split].
  - intros a after Ha Hbind. rewrite Hbind.
    destruct (bind_loop_skips before (a :: after) (-1) [] Hall ltac:(lia))
      as (lfd' & _ & ->).
    unfold usable in Ha.
    apply andb_true_iff in Ha as [Ha Hl]. apply andb_true_iff in Ha as [Hs Hb].
    cbn [bind_loop app].
    assert (Hs' : (att_socket a <? 0) = false) by lia.
    rewrite Hs', Hb, Hl. cbn [andb].
    rewrite Hs'.
    destruct (Server.serve _ _ _ _ _ turns (att_socket a) _) as [st finished].
    reflexivity.
  - intros Hbind. rewrite Hbind.
    destruct (bind_loop_skips before [] (-1) [] Hall ltac:(lia)) as (lfd' & Hneg & Heq).
    rewrite app_nil_r in Heq. rewrite Heq. cbn [bind_loop app].
    assert (Hl : (lfd' <? 0) = true) by lia. rewrite Hl. reflexivity.
  - intros text Hbind. rewrite Hbind. reflexivity.
Qed.

End StartUp.

Lemma server_listens_on_first_usable_address_witness :
  ServerMain.main bind_second send_all recv_sample (fun _ => 7) select_all_ready
    (fun _ => true) 0 [lit "server"; lit "0.0.0.0:9999"]
  = ([EvClose 3; EvStdout (lit_nl "[x] Listening on 0.0.0.0:9999")], None).
Proof.
  refine (proj1 (server_listens_on_first_usable_address bind_second send_all recv_sample
                   (fun _ => 7) select_all_ready (fun _ => true) 0
                   (lit "server") (lit "0.0.0.0:9999") (lit "0.0.0.0") (lit "9999")
                   [ServerMain.mkAttempt 3 (-1) 0] _ _)
                (ServerMain.mkAttempt 3 0 0) [] _ _).
  - reflexivity.
  - repeat constructor.
  - reflexivity.
  - reflexivity.
Defined.
